(** * lungo: an embeddable document database (Go)

    A shallow embedding of the engine ([engine.go]), the catalog
    ([data.go]) and the helpers [bsonkit.Difference], [bsonkit.Sort] and
    [mongokit.Extract], together with the properties stated about them.

    Go pointers are modelled as addresses into an explicit heap, so that
    sharing between a catalog and its clone is visible.  Go errors are the
    strings the code builds with [fmt.Errorf]. *)

From Stdlib Require Import ZArith Lia Bool Ascii.
From Stdlib Require Import Sorting.Permutation Sorting.Sorted.
From stdpp Require Import base option list gmap strings fin_maps sorting.

Set Warnings "-register-all".

Local Open Scope string_scope.
Local Open Scope Z_scope.

(* ================================================================== *)
(** * Part I: definitions *)
(* ================================================================== *)

(** ** BSON values

    The subset of [bson] values the development needs: [bson.D] is an ordered
    list of key/value pairs, [bson.A] a list of values.  [Missing] is
    [bsonkit.Missing], the outcome of reading a path that does not exist. *)

Inductive value : Type :=
| Missing
| Null
| Int (z : Z)
| Str (s : string)
| D (d : list (string * value))
| A (l : list value)
| Bool (b : bool).

(** [bson.D] *)
Abbreviation bsonD := (list (string * value)).

(** Go's [error]: [None] is [nil]. *)
Abbreviation error := string.

(** What a Go function returning [(T, error)] yields. *)
Abbreviation orError T := (sum error T).

(** Pointers: [bsonkit.Doc] is [*bson.D], compared by identity. *)
Abbreviation ptr := nat.

(** Sequencing of calls that may return an error: [x ← f; k] is
    [x, err := f(); if err != nil { return err }; k]. *)
#[export] Instance result_ret : MRet (sum error) := fun _ x => inr x.
#[export] Instance result_bind : MBind (sum error) :=
  fun _ _ f r => match r with inl e => inl e | inr x => f x end.
#[export] Instance result_fmap : FMap (sum error) :=
  fun _ _ f r => match r with inl e => inl e | inr x => inr (f x) end.

(** A loop over a slice that stops at the first error. *)
Fixpoint foldM {X Y : Type} (f : X -> Y -> orError X) (x : X) (l : list Y) : orError X :=
  match l with
  | [] => inr x
  | y :: l' => x' ← f x y; foldM f x' l'
  end.

Module bsonkit.

(** [bsonkit.List] is [[]Doc], a slice of document pointers. *)
Abbreviation List := (list ptr).

(** *** Paths *)

(** [strings.Split(path, ".")], accumulating the current segment. *)
Fixpoint split_dot (acc : string) (s : string) : list string :=
  match s with
  | EmptyString => [acc]
  | String c s' =>
      if Ascii.eqb c "."%char then acc :: split_dot "" s'
      else split_dot (acc ++ String c "") s'
  end.

Definition digit_of (c : Ascii.ascii) : option nat :=
  let n := Ascii.nat_of_ascii c in
  if (48 <=? n)%nat && (n <=? 57)%nat then Some (n - 48)%nat else None.

(** [strconv.Atoi] on an array index: decimal digits only. *)
Fixpoint parse_index (acc : nat) (s : string) : option nat :=
  match s with
  | EmptyString => Some acc
  | String c s' =>
      match digit_of c with
      | Some d => parse_index (10 * acc + d)%nat s'
      | None => None
      end
  end.

Definition index_of (s : string) : option nat :=
  match s with
  | EmptyString => None
  | _ => parse_index 0 s
  end.

(** The first entry of a document with the given key. *)
Fixpoint field (k : string) (d : bsonD) : option value :=
  match d with
  | [] => None
  | (k', v) :: d' => if String.eqb k' k then Some v else field k d'
  end.

(** Modelled from the spec: [bsonkit.Get] is not among the sources.  "Paths
    are dot-separated; numeric components index arrays and may also name
    fields"; a path that leads nowhere yields [Missing]. *)
Fixpoint get (v : value) (path : list string) : value :=
  match path with
  | [] => v
  | k :: rest =>
      match v with
      | D d => match field k d with
               | Some v' => get v' rest
               | None => Missing
               end
      | A l => match index_of k with
               | Some i => match l !! i with
                           | Some v' => get v' rest
                           | None => Missing
                           end
               | None => Missing
               end
      | _ => Missing
      end
  end.

Definition Get (doc : bsonD) (path : string) : value :=
  get (D doc) (split_dot "" path).

(** [v == bsonkit.Missing] *)
Definition is_Missing (v : value) : bool :=
  match v with
  | Missing => true
  | _ => false
  end.

(** Applies [f] to the value of the first entry with key [k], or adds the
    entry at the end, with [f] applied to [Missing]. *)
Fixpoint update_field (k : string) (f : value -> orError value) (d : bsonD) : orError bsonD :=
  match d with
  | [] => v ← f Missing; mret [(k, v)]
  | (k', v0) :: d' =>
      if String.eqb k' k then v ← f v0; mret ((k', v) :: d')
      else d'' ← update_field k f d'; mret ((k', v0) :: d'')
  end.

(** Modelled from the spec: [bsonkit.Put] is not among the sources.  It
    "creates intermediate documents; arrays indexed by numeric components;
    fails with [PathConflict] when an existing scalar sits on the path".  A
    new field is added at the end ([prepend] is false wherever this
    development calls it). *)
Fixpoint put (path : list string) (v : value) (target : value) : orError value :=
  match path with
  | [] => inr v
  | k :: rest =>
      match target with
      | Missing => r ← put rest v Missing; mret (D [(k, r)])
      | D d => d' ← update_field k (put rest v) d; mret (D d')
      | A l =>
          match index_of k with
          | Some i =>
              match l !! i with
              | Some x => r ← put rest v x; mret (A (<[i := r]> l))
              | None => inl "PathConflict"
              end
          | None => inl "PathConflict"
          end
      | _ => inl "PathConflict"
      end
  end.

Definition Put (doc : bsonD) (path : string) (v : value) (prepend : bool) : orError bsonD :=
  r ← put (split_dot "" path) v (D doc);
  match r with
  | D d => inr d
  | _ => inl "PathConflict"
  end.

(** *** The total order on values *)

(** The canonical type rank: [Missing] is distinct from, and below, null. *)
Definition rank (v : value) : nat :=
  match v with
  | Missing => 0
  | Null => 1
  | Int _ => 2
  | Str _ => 3
  | D _ => 4
  | A _ => 5
  | Bool _ => 6
  end.

(** Element-wise comparison: the first elements that differ decide, and a
    proper prefix comes first. *)
Definition elementwise {X : Type} (cmp : X -> X -> comparison)
    : list X -> list X -> comparison :=
  fix go (x y : list X) : comparison :=
    match x, y with
    | [], [] => Eq
    | [], _ :: _ => Lt
    | _ :: _, [] => Gt
    | u :: x', w :: y' =>
        match cmp u w with
        | Eq => go x' y'
        | c => c
        end
    end.

(** Modelled from the spec: [bsonkit.Compare] is not among the sources.  "A
    total order over values is defined by a canonical type rank followed by
    type-specific comparison; numeric types compare by numeric value; strings
    compare by byte order; documents compare element-wise respecting field
    order; arrays compare element-wise."  The Go function returns -1, 0 or
    1: here [Lt], [Eq] and [Gt]. *)
Fixpoint Compare (a b : value) : comparison :=
  match a, b with
  | Int x, Int y => Z.compare x y
  | Str x, Str y => String.compare x y
  | Bool x, Bool y => Bool.compare x y
  | D x, D y =>
      elementwise (fun e1 e2 =>
                     match String.compare (fst e1) (fst e2) with
                     | Eq => Compare (snd e1) (snd e2)
                     | c => c
                     end) x y
  | A x, A y => elementwise Compare x y
  | _, _ => Nat.compare (rank a) (rank b)
  end.

(** [cmp] behaves as a total preorder where [x] is its first argument. *)
Record ordered_at {X : Type} (cmp : X -> X -> comparison) (x : X) : Prop := {
  at_refl : cmp x x = Eq;
  at_antisym : forall y, cmp y x = CompOpp (cmp x y);
  at_eq : forall y z, cmp x y = Eq -> cmp x z = cmp y z;
  at_lt_eq : forall y z, cmp x y = Lt -> cmp y z = Eq -> cmp x z = Lt;
  at_lt_lt : forall y z, cmp x y = Lt -> cmp y z = Lt -> cmp x z = Lt;
}.

(** *** Difference ([bsonkit/list.go]) *)

Section Lists.
Context {T : Type} `{EqDecision T}.

(** The loop of [Difference]: [b] from position [j] on is the not yet
    consumed rest of [b]. *)
Fixpoint Difference (a b : list T) : list T :=
  match a with
  | [] => []
  | item :: a' =>
      match b with
      | bj :: b' =>
          if decide (bj = item) then Difference a' b'
          else item :: Difference a' b
      | [] => item :: Difference a' b
      end
  end.

(** [Difference] as it is called: [make(List, 0, len(a) - len(b))] panics
    when [b] is longer than [a]; [None] stands for that panic. *)
Definition Difference_call (a b : list T) : option (list T) :=
  if (length a <? length b)%nat then None else Some (Difference a b).

(** [Restored r b a]: [a] is [r] and [b] shuffled together, each in its own
    order; putting the elements of [b] back where they were in [a], between
    those of [r], gives [a]. *)
Inductive Restored : list T -> list T -> list T -> Prop :=
| Restored_nil : Restored [] [] []
| Restored_kept x r b a : Restored r b a -> Restored (x :: r) b (x :: a)
| Restored_back x r b a : Restored r b a -> Restored r (x :: b) (x :: a).

End Lists.

(** *** Documents in memory *)

(** The documents allocated so far: what each [*bson.D] points to. *)
Abbreviation docs := (gmap ptr bsonD).

(** Reading through a document pointer. *)
Definition deref (h : docs) (doc : ptr) : bsonD := default [] (h !! doc).

(** The value of a document at a path. *)
Definition valueAt (h : docs) (path : string) (doc : ptr) : value :=
  Get (deref h doc) path.

(** [bsonkit.Clone]: a new document with the same content. *)
Definition Clone (h : docs) (doc : ptr) : ptr * docs :=
  let p := fresh (dom h) in (p, <[p := deref h doc]> h).

(** [bsonkit.CloneList]: every document of the list is cloned, in order. *)
Fixpoint CloneList (h : docs) (list : List) : List * docs :=
  match list with
  | [] => ([], h)
  | doc :: rest =>
      let '(p, h1) := Clone h doc in
      let '(ps, h2) := CloneList h1 rest in
      (p :: ps, h2)
  end.

(** *** Sort ([bsonkit/list.go]) *)

(** Go's [sort.Slice(x, less)] belongs to the Go standard library: it is
    taken as a parameter.  [less] is given on elements: the Go closure reads
    [list[i]] and [list[j]] from the slice being sorted. *)
Class SliceSorter := slice_sort : forall T : Type, (T -> T -> bool) -> list T -> list T.

(** The closure [Sort] hands to [sort.Slice]. *)
Definition Sort_less (h : docs) (path : string) (reverse : bool) (di dj : ptr) : bool :=
  (* get values *)
  let a := valueAt h path di in
  let b := valueAt h path dj in
  (* compare values *)
  let res := Compare a b in
  (* check reverse *)
  if reverse then
    match res with Gt => true | _ => false end
  else
    match res with Lt => true | _ => false end.

Definition Sort {sorter : SliceSorter} (h : docs) (list : List) (path : string) (reverse : bool) : List :=
  slice_sort ptr (Sort_less h path reverse) list.

(** *** Collect ([bsonkit/list.go]) *)

(** The first loop of [Collect]: the values at the path, without the
    missing ones when [compact] is set. *)
Fixpoint Collect_values (h : docs) (list : List) (path : string) (compact : bool)
    : Datatypes.list value :=
  match list with
  | [] => []
  | doc :: rest =>
      (* get value *)
      let v := valueAt h path doc in
      if is_Missing v && compact then Collect_values h rest path compact
      else
        (* add value *)
        v :: Collect_values h rest path compact
  end.

(** The closure [Collect] hands to [sort.Slice]. *)
Definition Collect_less (a b : value) : bool :=
  match Compare a b with Lt => true | _ => false end.

(** The body of the second loop of [Collect], on [distincts] and
    [lastValue]. *)
Definition Collect_distinct (st : list value * value) (v : value) : list value * value :=
  let '(distincts, lastValue) := st in
  (* check if same as previous value *)
  if (0 <? length distincts)%nat
     && match Compare lastValue v with Eq => true | _ => false end
  then (distincts, lastValue)
  else
    (* add value *)
    ((distincts ++ [v])%list, v).

(** [func Collect(list List, path string, compact, distinct bool)
    []interface{}].  [lastValue] starts as the nil interface, which is not
    compared with anything as long as [distincts] is empty. *)
Definition Collect {sorter : SliceSorter} (h : docs) (list : List) (path : string)
    (compact distinct : bool) : Datatypes.list value :=
  (* add values *)
  let result := Collect_values h list path compact in
  (* return early if not distinct *)
  if negb distinct then result
  else
    (* sort results *)
    let result := slice_sort value Collect_less result in
    (* add distinct values *)
    fst (fold_left Collect_distinct result ([], Null)).

(** The second loop of [Collect] from the moment [distincts] holds a value:
    the values it adds to [distincts]. *)
Fixpoint distinct_after (lastValue : value) (l : Datatypes.list value)
    : Datatypes.list value :=
  match l with
  | [] => []
  | v :: l' =>
      match Compare lastValue v with
      | Eq => distinct_after lastValue l'
      | _ => v :: distinct_after v l'
      end
  end.

(** What [sort.Slice] asks of [less]: a strict weak ordering. *)
Record strict_weak {T : Type} (less : T -> T -> bool) : Prop := {
  less_irrefl : forall a, less a a = false;
  less_trans : forall a b c, less a b = true -> less b c = true -> less a c = true;
  less_incomparable : forall a b c,
    less a b = false -> less b c = false -> less a c = false;
}.

(** What the documentation of [sort.Slice] promises: the slice is sorted
    as determined by [less], and holds the elements it held.  "The sort is not
    guaranteed to be stable." *)
Definition sorts (sorter : SliceSorter) : Prop :=
  forall (T : Type) (less : T -> T -> bool) (l : list T),
    strict_weak less ->
    l ≡ₚ slice_sort T less l
    /\ StronglySorted (fun a b => less b a = false) (slice_sort T less l).

(** Whether two documents may follow one another in the result of [Sort]:
    their values [a] and [b] at the path do not go down, or, reversed, do
    not go up. *)
Definition in_order (reverse : bool) (a b : value) : Prop :=
  if reverse then Compare a b ≠ Lt else Compare a b ≠ Gt.

(** Whether [d] comes before [e] in a list without repetition. *)
Definition before (l : List) (d e : ptr) : Prop :=
  exists i j, (i < j)%nat /\ l !! i = Some d /\ l !! j = Some e.

(** Stability: documents whose values at the path compare equal are in
    [out] in the order they have in [list]. *)
Definition stable (h : docs) (path : string) (list out : List) : Prop :=
  forall d e,
    Compare (valueAt h path d) (valueAt h path e) = Eq ->
    before list d e -> before out d e.

(** [sort.Slice] as the Go releases up to 1.18 run it on a slice of at most
    twelve elements ([quickSort_func] skips its partitioning loop): one pass
    of Shell sort with gap 6, then an insertion sort. *)
Section ShortSlices.
Context {T : Type} (less : T -> T -> bool).

(** [data.Swap(i, j)] *)
Definition swap (i j : nat) (l : list T) : list T :=
  match l !! i, l !! j with
  | Some x, Some y => <[j := x]> (<[i := y]> l)
  | _, _ => l
  end.

Definition less_at (l : list T) (i j : nat) : bool :=
  match l !! i, l !! j with
  | Some x, Some y => less x y
  | _, _ => false
  end.

(** [for i := a + 6; i < b; i++ { if less(i, i-6) { swap(i, i-6) } }],
    with [n] iterations left. *)
Fixpoint gap_pass (n : nat) (i : nat) (l : list T) : list T :=
  match n with
  | O => l
  | S n' =>
      gap_pass n' (S i) (if less_at l i (i - 6) then swap i (i - 6) l else l)
  end.

(** [for j := i; j > a && less(j, j-1); j-- { swap(j, j-1) }] *)
Fixpoint sink (j : nat) (l : list T) : list T :=
  match j with
  | O => l
  | S j' => if less_at l j j' then sink j' (swap j j' l) else l
  end.

(** [for i := a + 1; i < b; i++ { ... }], with [n] iterations left. *)
Fixpoint insertion_loop (n : nat) (i : nat) (l : list T) : list T :=
  match n with
  | O => l
  | S n' => insertion_loop n' (S i) (sink i l)
  end.

Definition insertionSort (l : list T) : list T :=
  insertion_loop (length l - 1) 1 l.

Definition shortSort (l : list T) : list T :=
  if (1 <? length l)%nat then
    insertionSort (gap_pass (length l - 6) 6 l)
  else l.

End ShortSlices.

Definition shortSorter : SliceSorter := fun T less l => shortSort less l.

(** A [sort.Slice] that keeps what its documentation promises: a merge
    sort by [less]. *)
Definition mergeSorter : SliceSorter :=
  fun T less l =>
    @merge_sort T (fun a b => less b a = false)
      (fun a b => decide (less b a = false)) l.

End bsonkit.

Module mongokit.
Import bsonkit.

(** ** The index ([mongokit.Index])

    Modelled from the spec: the index is not among the sources.  It is a
    "sorted map from composite key to document" whose entries are document
    pointers ("documents are shared (pointer only)"); the keys are read from
    the documents.  The order of the entries is not observable through the
    operations the engine uses, so the entries are kept in insertion order. *)

Record Column := { Path : string }.

Record Index := {
  unique : bool;
  columns : list Column;
  entries : List;
}.

Definition NewIndex (unique : bool) (columns : list Column) : Index :=
  {| unique := unique; columns := columns; entries := [] |}.

(** The composite key: "tuple of the values at each column path in declared
    order". *)
Definition key (h : docs) (i : Index) (doc : ptr) : list value :=
  map (fun c => valueAt h (Path c) doc) (columns i).

Fixpoint keys_equal (k1 k2 : list value) : bool :=
  match k1, k2 with
  | [], [] => true
  | a :: k1', b :: k2' =>
      match Compare a b with Eq => keys_equal k1' k2' | _ => false end
  | _, _ => false
  end.

Definition with_entries (i : Index) (l : List) : Index :=
  {| unique := unique i; columns := columns i; entries := l |}.

(** "[Add(doc)] — inserts; duplicates allowed; returns true." *)
Definition Index_Add (h : docs) (i : Index) (doc : ptr) : bool * Index :=
  (true, with_entries i (entries i ++ [doc])).

(** Whether a document other than [doc] holds a key equal to that of [doc]. *)
Definition conflicts (h : docs) (i : Index) (doc : ptr) : bool :=
  existsb (fun e => negb (Nat.eqb e doc) && keys_equal (key h i e) (key h i doc))
          (entries i).

(** "[Set(doc)] — inserts unless a different document already holds an
    equal key; returns false on conflict." *)
Definition Index_Set (h : docs) (i : Index) (doc : ptr) : bool * Index :=
  if unique i && conflicts h i doc then (false, i)
  else if bool_decide (doc ∈ entries i) then (true, i)
  else (true, with_entries i (entries i ++ [doc])).

(** "[Has(doc)], [Delete(doc)] — by key + identity." *)
Definition Index_Has (h : docs) (i : Index) (doc : ptr) : bool :=
  bool_decide (doc ∈ entries i).

Definition Index_Delete (h : docs) (i : Index) (doc : ptr) : Index :=
  with_entries i (filter (fun e => e ≠ doc) (entries i)).

(** "[Clone()] — deep-copies the sorted map; documents are shared." *)
Definition Index_Clone (i : Index) : Index := i.

(** ** Matching and updating *)

(** [mongokit.Match(doc, query)] is not among the sources and no property
    here depends on which documents a query selects: the matcher is a
    parameter. *)
Class Matcher := Match : bsonD -> bsonD -> orError bool.

(** Likewise the effect of an update document on one document
    ([mongokit.Update] applies it to every document of a list). *)
Class Updater := apply : bsonD -> bsonD -> bool -> orError bsonD.

(** Modelled from the spec: [mongokit.Filter] is not among the sources.
    "Documents are visited in insertion order", "limit 0 means unbounded";
    the engine uses the second list as the positions of the selected
    documents in the list.  [i] is the position of the head of [list],
    [found] the number of documents selected so far. *)
Fixpoint filter_from {matcher : Matcher} (h : docs) (query : bsonD) (limit : Z)
    (i : nat) (found : nat) (list : List) : orError (List * Datatypes.list nat) :=
  match list with
  | [] => inr ([], [])
  | doc :: rest =>
      res ← Match (deref h doc) query;
      if res : bool then
        if (0 <? limit) && (limit <=? Z.of_nat (S found)) then inr ([doc], [i])
        else
          '(l, ix) ← filter_from h query limit (S i) (S found) rest;
          mret (doc :: l, i :: ix)
      else filter_from h query limit (S i) found rest
  end.

Definition Filter {matcher : Matcher} (h : docs) (list : List) (query : bsonD) (limit : Z)
    : orError (List * Datatypes.list nat) :=
  filter_from h query limit 0 0 list.

(** Modelled from the spec: [mongokit.Update(list, update, upsert)] applies
    the update to every document of the list, in place, and stops at the
    first error. *)
Fixpoint Update {updater : Updater} (h : docs) (list : List) (update : bsonD) (upsert : bool)
    : option error * docs :=
  match list with
  | [] => (None, h)
  | doc :: rest =>
      match apply (deref h doc) update upsert with
      | inl err => (Some err, h)
      | inr d => Update (<[doc := d]> h) rest update upsert
      end
  end.

(** ** Processing a query document *)

(** [type Operator func(ctx *Context, doc bsonkit.Doc, name, path string,
    v interface{}) error].  The document an operator writes to is threaded
    through; the first argument stands for [Process(ctx, ..)], which an
    operator may call on the documents nested in its operand. *)
Definition Operator : Type :=
  (bsonD -> bsonD -> bool -> orError bsonD) ->
  bsonD -> string -> string -> value -> orError bsonD.

Record Context := {
  TopLevel : gmap string Operator;
  Expression : gmap string Operator;
}.

(** Whether a key looks like an operator: it starts with a dollar sign. *)
Definition is_operator (k : string) : bool :=
  match k with
  | String c _ => Ascii.eqb c "$"%char
  | EmptyString => false
  end.

(** The entries of an operator document [{$op: operand, ..}] applied to
    [path], in order. *)
Definition process_operators (ctx : Context)
    (self : bsonD -> bsonD -> bool -> orError bsonD)
    (path : string) (doc : bsonD) (exps : bsonD) : orError bsonD :=
  foldM (fun doc '(k, v) =>
           if is_operator k then
             match Expression ctx !! k with
             | Some operator => operator self doc k path v
             | None => inl ("unknown expression operator " ++ k)
             end
           else inl ("expected operator, got " ++ k))
        doc exps.

(** One entry of a query document. *)
Definition ProcessExpression (ctx : Context)
    (self : bsonD -> bsonD -> bool -> orError bsonD)
    (doc : bsonD) (pair : string * value) (root : bool) : orError bsonD :=
  let '(k, v) := pair in
  if is_operator k then
    (* a top level operator, which only the root document may hold *)
    match (if root then TopLevel ctx !! k else None) with
    | Some operator => operator self doc k "" v
    | None => inl ("unknown top level operator " ++ k)
    end
  else
    match v with
    | D ((k1, v1) :: exps) =>
        if is_operator k1 then process_operators ctx self k doc ((k1, v1) :: exps)
        else
          match Expression ctx !! "" with
          | Some operator => operator self doc "" k v
          | None => inl "missing default operator"
          end
    | _ =>
        (* a simple equality condition *)
        match Expression ctx !! "" with
        | Some operator => operator self doc "" k v
        | None => inl "missing default operator"
        end
    end.

(** Modelled from the spec: [mongokit.Process] is not among the sources.
    "A filter document is walked field-by-field.  A leaf either equates a
    path to a value, or maps a path to a document of operator entries.
    Logical operators combine sub-matchers", each kind of operator looked up
    by name in its registry.  [fuel] bounds the nesting of the calls that
    operators make back into [Process]. *)
Fixpoint Process (fuel : nat) (ctx : Context) (doc : bsonD) (query : bsonD) (root : bool)
    : orError bsonD :=
  let self :=
    match fuel with
    | O => fun _ _ _ => inl "query nested too deeply"
    | S fuel' => Process fuel' ctx
    end in
  foldM (fun doc pair => ProcessExpression ctx self doc pair root) doc query.

(** ** Extract ([mongokit/extract.go]) *)

Definition extractAnd : Operator := fun process doc name _ v =>
  (* get array *)
  match v with
  | A list =>
      (* check list *)
      if (length list =? 0)%nat then inl (name ++ ": empty list")
      else
        (* extract all expressions *)
        foldM (fun doc item =>
                 (* coerce item *)
                 match item with
                 | D query => process doc query false
                 | _ => inl (name ++ ": expected list of documents")
                 end)
              doc list
  | _ => inl (name ++ ": expected list")
  end.

Definition extractOr : Operator := fun process doc name _ v =>
  (* get array *)
  match v with
  | A list =>
      (* check list *)
      if (length list =? 0)%nat then inl (name ++ ": empty list")
      else if (1 <? length list)%nat then inr doc
      else
        (* extract first item *)
        foldM (fun doc item =>
                 match item with
                 | D query => process doc query false
                 | _ => inl (name ++ ": expected list of documents")
                 end)
              doc list
  | _ => inl (name ++ ": expected list")
  end.

Definition extractEq : Operator := fun _ doc _ path v =>
  Put doc path v false.

Definition extractIn : Operator := fun _ doc name path v =>
  (* get array *)
  match v with
  | A list =>
      (* check list *)
      match list with
      | [x] => Put doc path x false
      | _ => inr doc
      end
  | _ => inl (name ++ ": expected list")
  end.

(** The registries filled by [init]. *)
Definition TopLevelExtractOperators : gmap string Operator :=
  <["$or" := extractOr]> (<["$and" := extractAnd]> ∅).

Definition ExpressionExtractOperators : gmap string Operator :=
  <["$in" := extractIn]> (<["$eq" := extractEq]> (<["" := extractEq]> ∅)).

Definition extractContext : Context :=
  {| TopLevel := TopLevelExtractOperators;
     Expression := ExpressionExtractOperators |}.

(** The nesting depth of a value, which bounds the nesting of [Process]. *)
Fixpoint depth (v : value) : nat :=
  match v with
  | D d => S (list_max (map (fun kv => depth (snd kv)) d))
  | A l => S (list_max (map depth l))
  | _ => O
  end.

Definition Extract (query : bsonD) : orError bsonD :=
  (* prepare doc *)
  let doc := [] in
  (* match document to query *)
  Process (depth (D query)) extractContext doc query true.

(** *** What a filter constrains, in the words of the specification

    The constraints a filter puts on paths by "bare equality, [$eq], or a
    single-element [$in] at the top level or inside [$and]", in the order
    of the filter; [None] for a filter made of anything else. *)

(** One entry [{$op: operand}] of the operator document of a path. *)
Definition operator_constraints (path : string) (e : string * value)
    : option (list (string * value)) :=
  if String.eqb (fst e) "$eq" then Some [(path, snd e)]
  else if String.eqb (fst e) "$in" then
    match snd e with
    | A [x] => Some [(path, x)]
    | A _ => Some []
    | _ => None
    end
  else None.

(** The options of a list, all present. *)
Fixpoint all_of {X : Type} (l : list (option X)) : option (list X) :=
  match l with
  | [] => Some []
  | o :: l' => x ← o; xs ← all_of l'; Some (x :: xs)
  end.

Definition gather {X Y : Type} (f : X -> option (list Y)) (l : list X) : option (list Y) :=
  xs ← all_of (map f l); Some (concat xs).

(** One entry [path: v] of a filter. *)
Definition field_constraints (path : string) (v : value) : option (list (string * value)) :=
  match v with
  | D ((k1, v1) :: exps) =>
      if is_operator k1 then gather (operator_constraints path) ((k1, v1) :: exps)
      else Some [(path, v)]
  | _ => Some [(path, v)]
  end.

(** A document of entries [path: v], as [$and] and [$or] list them. *)
Definition document_constraints (item : value) : option (list (string * value)) :=
  match item with
  | D query =>
      gather (fun kv => if is_operator (fst kv) then None
                        else field_constraints (fst kv) (snd kv)) query
  | _ => None
  end.

(** One entry of the filter itself: a field, an [$and] over a list that is
    not empty, or an [$or], which constrains something only when its list has
    exactly one element. *)
Definition clause_constraints (e : string * value) : option (list (string * value)) :=
  if is_operator (fst e) then
    match snd e with
    | A items =>
        if String.eqb (fst e) "$and" then
          match items with
          | [] => None
          | _ => gather document_constraints items
          end
        else if String.eqb (fst e) "$or" then
          match items with
          | [] => None
          | [item] => document_constraints item
          | _ => Some []
          end
        else None
    | _ => None
    end
  else field_constraints (fst e) (snd e).

Definition constraints (query : bsonD) : option (list (string * value)) :=
  gather clause_constraints query.

(** The defaults document: the constrained paths, put one after the other
    into an empty document. *)
Definition defaults (cs : list (string * value)) : orError bsonD :=
  foldM (fun doc c => Put doc (fst c) (snd c) false) [] cs.

End mongokit.

Module lungo.
Import bsonkit mongokit.

(** ** The catalog ([data.go]) *)

(** [type Index struct]: the specification of a secondary index. *)
Record Index := {
  IndexName : string;
  Keys : bsonD;
  Unique : bool;
}.

(** [type Namespace struct].  The documents of a namespace and its primary
    index belong to that one [Namespace] object ([Clone] copies both), so
    they are part of the object; the documents themselves are pointers. *)
Record Namespace := {
  Name : string;
  Documents : List;
  Indexes : list Index;
  primaryIndex : mongokit.Index;
}.

(** Memory: the [Data] objects (each one is its [Namespaces] map, from names
    to [*Namespace]), the [Namespace] objects and the documents. *)
Record Heap := {
  datas : gmap ptr (gmap string ptr);
  namespaces : gmap ptr Namespace;
  documents : docs;
}.

(** [type Store interface]: the engine only calls [Store(data *Data) error] after
    it is created.  A store has a state of its own and reads the catalog it
    is handed; it does not write to it. *)
Class Store (S : Type) := Store_Store : S -> Heap -> ptr -> S * option error.

(** [type engine struct]: the mutex is held during every operation, so the
    operations run one after the other. *)
Record engine (S : Type) := {
  store : S;
  data : ptr;
}.
Arguments store {S} _.
Arguments data {S} _.

Record world (S : Type) := {
  mem : Heap;
  self : engine S;
}.
Arguments mem {S} _.
Arguments self {S} _.

(** ** A Go function body

    [M S T] is a function running against memory and the engine and
    returning [(T, error)].  What a failed call allocated stays allocated. *)
Definition M (S T : Type) : Type := world S -> orError T * world S.

#[export] Instance M_ret {S} : MRet (M S) := fun _ x w => (inr x, w).
#[export] Instance M_bind {S} : MBind (M S) := fun _ _ f m w =>
  match m w with
  | (inr x, w') => f x w'
  | (inl err, w') => (inl err, w')
  end.

Section Primitives.
Context {S : Type}.

(** [return err] *)
Definition fail {T} (err : error) : M S T := fun w => (inl err, w).

(** A run-time panic of Go: it ends the call. *)
Definition panic {T} (msg : string) : M S T := fail ("panic: " ++ msg).

Definition gets {T} (f : world S -> T) : M S T := fun w => (inr (f w), w).

Definition with_mem (f : Heap -> Heap) : M S unit :=
  fun w => (inr tt, {| mem := f (mem w); self := self w |}).

(** [e.data] *)
Definition e_data : M S ptr := gets (fun w => data (self w)).

(** [e.data = d] *)
Definition set_e_data (d : ptr) : M S unit :=
  fun w => (inr tt, {| mem := mem w;
                       self := {| store := store (self w); data := d |} |}).

(** [d.Namespaces] *)
Definition Namespaces_of (h : Heap) (d : ptr) : gmap string ptr :=
  default ∅ (datas h !! d).

Definition Namespaces (d : ptr) : M S (gmap string ptr) :=
  gets (fun w => Namespaces_of (mem w) d).

(** [d.Namespaces = m] *)
Definition set_Namespaces (d : ptr) (m : gmap string ptr) : M S unit :=
  with_mem (fun h => {| datas := <[d := m]> (datas h);
                        namespaces := namespaces h;
                        documents := documents h |}).

(** [&Data{Namespaces: m}] *)
Definition new_Data (m : gmap string ptr) : M S ptr :=
  fun w =>
    let h := mem w in
    let p := fresh (dom (datas h)) in
    (inr p, {| mem := {| datas := <[p := m]> (datas h);
                         namespaces := namespaces h;
                         documents := documents h |};
               self := self w |}).

(** [*n], for a namespace pointer that is not nil. *)
Definition load (n : ptr) : M S Namespace :=
  fun w => match namespaces (mem w) !! n with
           | Some N => (inr N, w)
           | None => panic "nil pointer dereference" w
           end.

(** [*n = N] *)
Definition save (n : ptr) (N : Namespace) : M S unit :=
  with_mem (fun h => {| datas := datas h;
                        namespaces := <[n := N]> (namespaces h);
                        documents := documents h |}).

(** [&Namespace{..}] *)
Definition new_Namespace (N : Namespace) : M S ptr :=
  fun w =>
    let h := mem w in
    let p := fresh (dom (namespaces h)) in
    (inr p, {| mem := {| datas := datas h;
                         namespaces := <[p := N]> (namespaces h);
                         documents := documents h |};
               self := self w |}).

(** A call into [bsonkit] or [mongokit] that allocates or writes documents. *)
Definition on_documents {T} (f : docs -> T * docs) : M S T :=
  fun w =>
    let h := mem w in
    let '(x, d) := f (documents h) in
    (inr x, {| mem := {| datas := datas h;
                         namespaces := namespaces h;
                         documents := d |};
               self := self w |}).

(** The documents, for the calls that only read them. *)
Definition the_documents : M S docs := gets (fun w => documents (mem w)).

(** A call that may fail and touches nothing. *)
Definition try {T} (r : orError T) : M S T := fun w => (r, w).

End Primitives.

(** *** [Data] *)

Section Catalog.
Context {S : Type}.

(** [func (d *Data) Clone() *Data] *)
Definition Data_Clone (d : ptr) : M S ptr :=
  (* copy namespaces *)
  m ← Namespaces d;
  (* create new data *)
  new_Data m.

Definition with_primaryIndex (N : Namespace) (i : mongokit.Index) : Namespace :=
  {| Name := Name N; Documents := Documents N; Indexes := Indexes N;
     primaryIndex := i |}.

Definition with_Documents (N : Namespace) (l : List) : Namespace :=
  {| Name := Name N; Documents := l; Indexes := Indexes N;
     primaryIndex := primaryIndex N |}.

(** [func (n *Namespace) Prepare() *Namespace], on the fields of a namespace
    whose documents are [l]: the primary index is created and filled. *)
Definition Prepare (h : docs) (name : string) (l : List) (ixs : list Index) : Namespace :=
  (* create indexes *)
  let index := NewIndex true [{| Path := "_id" |}] in
  (* fill indexes *)
  let index := fold_left (fun i doc => snd (Index_Add h i doc)) l index in
  {| Name := name; Documents := l; Indexes := ixs; primaryIndex := index |}.

(** [func NewNamespace(name string) *Namespace] *)
Definition NewNamespace (name : string) : M S ptr :=
  h ← the_documents;
  new_Namespace (Prepare h name [] []).

(** [func (n *Namespace) Clone() *Namespace] *)
Definition Namespace_Clone (n : ptr) : M S ptr :=
  N ← load n;
  new_Namespace
    {| Name := Name N;
       (* copy documents *)
       Documents := Documents N;
       (* copy indexes *)
       Indexes := Indexes N;
       (* clone primary index *)
       primaryIndex := Index_Clone (primaryIndex N) |}.

(** [d.Namespaces[ns]], where the code has made sure it is not nil. *)
Definition namespace_at (d : ptr) (ns : string) : M S ptr :=
  m ← Namespaces d;
  match m !! ns with
  | Some n => mret n
  | None => panic "nil pointer dereference"
  end.

(** [d.Namespaces[ns] = n] *)
Definition set_namespace (d : ptr) (ns : string) (n : ptr) : M S unit :=
  m ← Namespaces d;
  set_Namespaces d (<[ns := n]> m).

(** [n.primaryIndex.Set(doc)] *)
Definition primaryIndex_Set (n : ptr) (doc : ptr) : M S bool :=
  N ← load n;
  h ← the_documents;
  let '(ok, i) := Index_Set h (primaryIndex N) doc in
  _ ← save n (with_primaryIndex N i);
  mret ok.

(** [n.primaryIndex.Delete(doc)] *)
Definition primaryIndex_Delete (n : ptr) (doc : ptr) : M S unit :=
  N ← load n;
  h ← the_documents;
  save n (with_primaryIndex N (Index_Delete h (primaryIndex N) doc)).

(** [n.Documents[i] = doc] *)
Definition set_document (n : ptr) (i : nat) (doc : ptr) : M S unit :=
  N ← load n;
  if bool_decide (i < length (Documents N))%nat then
    save n (with_Documents N (<[i := doc]> (Documents N)))
  else panic "index out of range".

End Catalog.

(** ** The engine ([engine.go]) *)

(** [type result struct] *)
Record result := {
  matched : nat;
  modified : nat;
}.

Section Engine.
Context {S : Type} {storage : Store S} {matcher : Matcher} {updater : Updater}.

(** [func (e *engine) dropDatabase(name string) error] *)
Definition dropDatabase (name : string) : M S unit :=
  (* drop all namespaces *)
  d ← e_data;
  m ← Namespaces d;
  set_Namespaces d
    (filter (fun kv => head (split_dot "" (fst kv)) ≠ Some name) m).

(** [func (e *engine) dropCollection(ns string) error] *)
Definition dropCollection (ns : string) : M S unit :=
  (* drop all namespaces *)
  d ← e_data;
  m ← Namespaces d;
  set_Namespaces d (filter (fun kv => fst kv ≠ ns) m).

(** [func (e *engine) numDocuments(ns string) int] *)
Definition numDocuments (ns : string) : M S nat :=
  d ← e_data;
  m ← Namespaces d;
  (* check namespace *)
  match m !! ns with
  | None => mret O
  | Some namespace =>
      N ← load namespace;
      mret (length (Documents N))
  end.

(** [func (e *engine) find(ns string, query bsonkit.Doc, limit int)
    (bsonkit.List, error)].  A nil list is the empty list. *)
Definition find (ns : string) (query : bsonD) (limit : Z) : M S List :=
  d ← e_data;
  m ← Namespaces d;
  (* check namespace *)
  match m !! ns with
  | None => mret []
  | Some namespace =>
      (* filter documents *)
      N ← load namespace;
      h ← the_documents;
      '(list, _) ← try (Filter h (Documents N) query limit);
      mret list
  end.

(** [err := e.store.Store(clone); if err != nil { return err }] *)
Definition store_Store (clone : ptr) : M S unit :=
  fun w =>
    let '(s, err) := Store_Store (store (self w)) (mem w) clone in
    let w' := {| mem := mem w; self := {| store := s; data := data (self w) |} |} in
    match err with
    | Some err => (inl err, w')
    | None => (inr tt, w')
    end.

(** [for i, x := range l { f(i, x) }], stopping when [f] returns an error;
    [i] is the position of the head of [l]. *)
Fixpoint range_from {T} (i : nat) (l : list T) (f : nat -> T -> M S unit) : M S unit :=
  match l with
  | [] => mret tt
  | x :: l' => _ ← f i x; range_from (Datatypes.S i) l' f
  end.

Definition range {T} (l : list T) (f : nat -> T -> M S unit) : M S unit :=
  range_from 0 l f.

(** The body of [insert] up to the call of the store: it yields the clone. *)
Definition insert_staged (ns : string) (list : List) : M S ptr :=
  (* check ids *)
  h ← the_documents;
  if existsb (fun doc => is_Missing (valueAt h "_id" doc)) list
  then fail "document is missng the _id field"
  else
    (* clone data *)
    d ← e_data;
    clone ← Data_Clone d;
    (* create or clone namespace *)
    m ← Namespaces clone;
    _ ← match m !! ns with
        | None => n ← NewNamespace ns; set_namespace clone ns n
        | Some n0 => n ← Namespace_Clone n0; set_namespace clone ns n
        end;
    (* add documents *)
    _ ← range list (fun _ doc =>
          n ← namespace_at clone ns;
          (* add document to primary index *)
          ok ← primaryIndex_Set n doc;
          if negb ok then fail "document with same _id exists already"
          else
            (* add document *)
            N ← load n;
            save n (with_Documents N (Documents N ++ [doc])));
    mret clone.

(** [func (e *engine) insert(ns string, list bsonkit.List) error] *)
Definition insert (ns : string) (list : List) : M S unit :=
  clone ← insert_staged ns list;
  (* write data *)
  _ ← store_Store clone;
  (* set new data *)
  set_e_data clone.

(** The body of [replace] up to the call of the store: either the result
    it returns early, or the clone. *)
Definition replace_staged (ns : string) (query : bsonD) (repl : ptr) : M S (result + ptr) :=
  d ← e_data;
  m ← Namespaces d;
  (* check namespace *)
  match m !! ns with
  | None => mret (inl {| matched := 0; modified := 0 |})
  | Some n0 =>
      (* check id *)
      h ← the_documents;
      if is_Missing (valueAt h "_id" repl)
      then fail "document is missng the _id field"
      else
        (* filter documents *)
        N ← load n0;
        '(list, index) ← try (Filter h (Documents N) query 1);
        (* check list *)
        match list, index with
        | [], _ => mret (inl {| matched := 0; modified := 0 |})
        | _ :: _, [] => panic "index out of range"
        | list_0 :: _, index_0 :: _ =>
            (* clone data and namespace *)
            clone ← Data_Clone d;
            n0 ← namespace_at clone ns;
            n ← Namespace_Clone n0;
            _ ← set_namespace clone ns n;
            (* remove old doc from index *)
            n ← namespace_at clone ns;
            _ ← primaryIndex_Delete n list_0;
            (* add document to index *)
            ok ← primaryIndex_Set n repl;
            if negb ok then fail "document with same _id exists already"
            else
              (* replace document *)
              _ ← set_document n index_0 repl;
              mret (inr clone)
        end
  end.

(** [func (e *engine) replace(ns string, query, repl bsonkit.Doc)], which
    returns a [result] and an error. *)
Definition replace (ns : string) (query : bsonD) (repl : ptr) : M S result :=
  s ← replace_staged ns query repl;
  match s with
  | inl early => mret early
  | inr clone =>
      (* write data *)
      _ ← store_Store clone;
      (* set new data *)
      _ ← set_e_data clone;
      mret {| matched := 1; modified := 1 |}
  end.

(** The body of [update] up to the call of the store: either the result it
    returns early, or the clone and the number of selected documents. *)
Definition update_staged (ns : string) (query update : bsonD) (limit : Z)
    : M S (result + ptr * nat) :=
  d ← e_data;
  m ← Namespaces d;
  (* check namespace *)
  match m !! ns with
  | None => mret (inl {| matched := 0; modified := 0 |})
  | Some n0 =>
      (* filter documents *)
      N ← load n0;
      h ← the_documents;
      '(list, index) ← try (Filter h (Documents N) query limit);
      (* check list *)
      if (length list =? 0)%nat then mret (inl {| matched := 0; modified := 0 |})
      else
        (* clone documents *)
        newList ← on_documents (fun h => CloneList h list);
        (* update documents *)
        err ← on_documents (fun h => Update h newList update false);
        match err with
        | Some err => fail err
        | None =>
            (* clone data and namespace *)
            clone ← Data_Clone d;
            n0 ← namespace_at clone ns;
            n ← Namespace_Clone n0;
            _ ← set_namespace clone ns n;
            (* remove old docs from index *)
            _ ← range list (fun _ doc =>
                  n ← namespace_at clone ns;
                  primaryIndex_Delete n doc);
            (* add new docs to index *)
            _ ← range newList (fun _ doc =>
                  n ← namespace_at clone ns;
                  ok ← primaryIndex_Set n doc;
                  if negb ok then fail "document with same _id exists already"
                  else mret tt);
            (* replace documents *)
            _ ← range newList (fun i doc =>
                  n ← namespace_at clone ns;
                  match index !! i with
                  | Some index_i => set_document n index_i doc
                  | None => panic "index out of range"
                  end);
            mret (inr (clone, length list))
        end
  end.

(** [func (e *engine) update(ns string, query, update bsonkit.Doc,
    limit int)], which returns a [result] and an error. *)
Definition update (ns : string) (query update : bsonD) (limit : Z) : M S result :=
  s ← update_staged ns query update limit;
  match s with
  | inl early => mret early
  | inr (clone, len_list) =>
      (* write data *)
      _ ← store_Store clone;
      (* set new data *)
      _ ← set_e_data clone;
      mret {| matched := len_list; modified := len_list |}
  end.

(** The body of [delete] up to the call of the store: either the count it
    returns early, or the clone and the number of selected documents. *)
Definition delete_staged (ns : string) (query : bsonD) (limit : Z) : M S (nat + ptr * nat) :=
  d ← e_data;
  m ← Namespaces d;
  (* check namespace *)
  match m !! ns with
  | None => mret (inl O)
  | Some n0 =>
      (* filter documents *)
      N ← load n0;
      h ← the_documents;
      '(list, _) ← try (Filter h (Documents N) query limit);
      (* clone data and namespace *)
      clone ← Data_Clone d;
      n0 ← namespace_at clone ns;
      n ← Namespace_Clone n0;
      _ ← set_namespace clone ns n;
      (* remove documents *)
      n ← namespace_at clone ns;
      N ← load n;
      _ ← save n (with_Documents N (Difference (Documents N) list));
      (* update primary index *)
      _ ← range list (fun _ doc =>
            n ← namespace_at clone ns;
            primaryIndex_Delete n doc);
      mret (inr (clone, length list))
  end.

(** [func (e *engine) delete(ns string, query bsonkit.Doc, limit int)
    (int, error)] *)
Definition delete (ns : string) (query : bsonD) (limit : Z) : M S nat :=
  s ← delete_staged ns query limit;
  match s with
  | inl early => mret early
  | inr (clone, len_list) =>
      (* write data *)
      _ ← store_Store clone;
      (* set new data *)
      _ ← set_e_data clone;
      mret len_list
  end.

End Engine.

(** ** Listing ([engine.go]) *)

(** [s[n:]] for [n] within the string. *)
Fixpoint string_from (n : nat) (s : string) : string :=
  match n, s with
  | O, _ => s
  | Datatypes.S n', String _ s' => string_from n' s'
  | Datatypes.S _, EmptyString => EmptyString
  end.

(** [strings.TrimPrefix(s, prefix)]; [String.prefix] is
    [strings.HasPrefix] with its arguments the other way round. *)
Definition TrimPrefix (s prefix : string) : string :=
  if String.prefix prefix s then string_from (String.length prefix) s else s.

(** The specification of a collection, as [listCollections] builds it. *)
Definition collection_specification (name : string) : bsonD :=
  [("name", Str name);
   ("type", Str "collection");
   ("options", D []);
   ("info", D [("readOnly", Bool false)])].

(** The specification of a database, as [listDatabases] builds it. *)
Definition database_specification (name : string) (empty : bool) : bsonD :=
  [("name", Str name); ("sizeOnDisk", Int 42); ("empty", Bool empty)].

(** [strings.Split(ns.Name, ".")[0]] *)
Definition database_of (N : Namespace) : string :=
  default "" (head (split_dot "" (Name N))).

Section Listing.
Context {S : Type} {matcher : Matcher}.

(** [&bson.D{...}] *)
Definition new_document (d : bsonD) : M S ptr :=
  on_documents (fun h => let p := fresh (dom h) in (p, <[p := d]> h)).

(** The body of the loop of [listCollections]. *)
Definition add_specification (db : string) (list : List) (ns : string) : M S List :=
  if String.prefix db ns then
    match TrimPrefix ns db with
    | String _ name =>
        doc ← new_document (collection_specification name);
        mret (list ++ [doc])%list
    | EmptyString => panic "slice bounds out of range"
    end
  else mret list.

(** [for ns := range m { ... }] over the names [l] of a map, building a
    list. *)
Fixpoint range_names (l : Datatypes.list string) (f : List -> string -> M S List)
    (list : List) : M S List :=
  match l with
  | [] => mret list
  | ns :: l' => list' ← f list ns; range_names l' f list'
  end.

(** [func (e *engine) listCollections(db string, query bsonkit.Doc)
    (bsonkit.List, error)].  Go ranges over a map in an order that it does
    not specify; here it is the order of the names. *)
Definition listCollections (db : string) (query : bsonD) : M S List :=
  d ← e_data;
  m ← Namespaces d;
  (* prepare list; add documents *)
  list ← range_names (map fst (map_to_list m)) (add_specification db) [];
  (* filter list *)
  h ← the_documents;
  '(list, _) ← try (Filter h list query 0);
  mret list.

(** The first loop of [listDatabases], over the namespaces [l] of the map:
    [sort[name] = append(sort[name], ns)]. *)
Fixpoint sort_namespaces (l : Datatypes.list ptr) (sort : gmap string (Datatypes.list ptr))
    : M S (gmap string (Datatypes.list ptr)) :=
  match l with
  | [] => mret sort
  | n :: l' =>
      N ← load n;
      let name := database_of N in
      sort_namespaces l' (<[name := (default [] (sort !! name) ++ [n])%list]> sort)
  end.

(** [for _, ns := range nss { if len(ns.Documents) > 0 { empty = false } }] *)
Fixpoint check_emptiness (nss : Datatypes.list ptr) (empty : bool) : M S bool :=
  match nss with
  | [] => mret empty
  | n :: nss' =>
      N ← load n;
      check_emptiness nss'
        (if (0 <? length (Documents N))%nat then false else empty)
  end.

(** The second loop of [listDatabases], over the entries [l] of [sort]. *)
Fixpoint range_databases (l : Datatypes.list (string * Datatypes.list ptr)) (list : List)
    : M S List :=
  match l with
  | [] => mret list
  | (name, nss) :: l' =>
      (* check emptiness *)
      empty ← check_emptiness nss true;
      (* add specification *)
      doc ← new_document (database_specification name empty);
      range_databases l' (list ++ [doc])%list
  end.

(** [func (e *engine) listDatabases(query bsonkit.Doc) (bsonkit.List,
    error)].  The two maps are ranged over in the order of their names. *)
Definition listDatabases (query : bsonD) : M S List :=
  d ← e_data;
  m ← Namespaces d;
  (* sort namespaces *)
  sort ← sort_namespaces (map snd (map_to_list m)) ∅;
  (* prepare list *)
  list ← range_databases (map_to_list sort) [];
  (* filter list *)
  h ← the_documents;
  '(list, _) ← try (Filter h list query 0);
  mret list.

End Listing.

(** ** Staging, seen from the namespace

    While an operation stages its changes, memory differs from what it was
    at the start in one new [Data] object, [clone], one new [Namespace]
    object, [n], and the documents.  The loops of the operations then are
    functions on the content [N] of [n]. *)

Section Staging.
Context {S : Type}.

Definition staged (w : world S) (clone : ptr) (m : gmap string ptr) (n : ptr)
    (N : Namespace) (dd : docs) : world S :=
  {| mem := {| datas := <[clone := m]> (datas (mem w));
               namespaces := <[n := N]> (namespaces (mem w));
               documents := dd |};
     self := self w |}.

Definition returned (err : option error) : orError unit :=
  match err with
  | Some err => inl err
  | None => inr tt
  end.

(** A [range] loop whose body works on the namespace. *)
Fixpoint steps {T} (f : nat -> T -> Namespace -> option error * Namespace)
    (i : nat) (l : list T) (N : Namespace) : option error * Namespace :=
  match l with
  | [] => (None, N)
  | x :: l' =>
      match f i x N with
      | (Some err, N') => (Some err, N')
      | (None, N') => steps f (Datatypes.S i) l' N'
      end
  end.

(** The body of the loop of [insert]. *)
Definition add_document (h : docs) (i : nat) (doc : ptr) (N : Namespace)
    : option error * Namespace :=
  let '(ok, index) := Index_Set h (primaryIndex N) doc in
  if negb ok
  then (Some "document with same _id exists already", with_primaryIndex N index)
  else (None, with_Documents (with_primaryIndex N index) (Documents N ++ [doc])).

(** The bodies of the loops of [update] and [delete]. *)
Definition unindex_document (h : docs) (i : nat) (doc : ptr) (N : Namespace)
    : option error * Namespace :=
  (None, with_primaryIndex N (Index_Delete h (primaryIndex N) doc)).

Definition index_document (h : docs) (i : nat) (doc : ptr) (N : Namespace)
    : option error * Namespace :=
  let '(ok, index) := Index_Set h (primaryIndex N) doc in
  (if negb ok then Some "document with same _id exists already" else None,
   with_primaryIndex N index).

Definition place_document (index : list nat) (i : nat) (doc : ptr) (N : Namespace)
    : option error * Namespace :=
  match index !! i with
  | Some index_i =>
      if bool_decide (index_i < length (Documents N))%nat
      then (None, with_Documents N (<[index_i := doc]> (Documents N)))
      else (Some "panic: index out of range", N)
  | None => (Some "panic: index out of range", N)
  end.

End Staging.

(** ** Well-formed catalogs *)

(** What the operations keep true of a namespace: the primary index is the
    unique index on [_id]; it holds exactly the documents of the namespace,
    each once; no document is listed twice; no two documents have
    [_id] values that compare equal; every document is allocated. *)
Record ns_ok (h : docs) (N : Namespace) : Prop := {
  ok_unique : unique (primaryIndex N) = true;
  ok_columns : columns (primaryIndex N) = [{| Path := "_id" |}];
  ok_nodup : NoDup (Documents N);
  ok_index : entries (primaryIndex N) ≡ₚ Documents N;
  ok_ids : forall d e, d ∈ Documents N -> e ∈ Documents N -> d ≠ e ->
           Compare (valueAt h "_id" d) (valueAt h "_id" e) ≠ Eq;
  ok_allocated : forall d, d ∈ Documents N -> is_Some (h !! d);
}.

(** The catalog at [d] is allocated, and so are its namespaces, which are
    as above. *)
Definition catalog_ok (h : Heap) (d : ptr) : Prop :=
  is_Some (datas h !! d)
  /\ forall ns n, Namespaces_of h d !! ns = Some n ->
     exists N, namespaces h !! n = Some N /\ ns_ok (documents h) N.

(** The documents handed to the engine for the namespace [ns] are new to
    it, as the collection hands them over after transforming them: they are
    allocated, no pointer comes twice, and none is a document of the
    namespace already. *)
Definition handed_over {S : Type} (w : world S) (ns : string) (list : List) : Prop :=
  NoDup list
  /\ forall doc, doc ∈ list ->
       is_Some (documents (mem w) !! doc)
       /\ forall n N,
            Namespaces_of (mem w) (data (self w)) !! ns = Some n ->
            namespaces (mem w) !! n = Some N ->
            doc ∉ Documents N.

(** Everything allocated in [h] is in [h'], unchanged. *)
Definition Heap_le (h h' : Heap) : Prop :=
  datas h ⊆ datas h'
  /\ namespaces h ⊆ namespaces h'
  /\ documents h ⊆ documents h'.

(** ** Instances for the scenarios

    The matcher, the updater and the store with which the scenarios of the
    specification are run. *)

(** Modelled from the spec: a matcher for filters made of equality leaves
    only, "a leaf equates a path to a value". *)
Definition equalityMatcher : Matcher := fun doc query =>
  inr (forallb (fun kv => match Compare (Get doc (fst kv)) (snd kv) with
                          | Eq => true
                          | _ => false
                          end) query).

(** Modelled from the spec: an updater for update documents made of [$set]
    only. *)
Definition setUpdater : Updater := fun doc update _ =>
  foldM (fun doc op =>
           match op with
           | ("$set", D fields) =>
               foldM (fun doc kv => Put doc (fst kv) (snd kv) false) doc fields
           | (name, _) => inl ("unknown top level operator " ++ name)
           end) doc update.

(** A store that keeps the catalogs it was handed, the latest first, and
    refuses them all when [refuses] holds an error. *)
Record testStore := {
  refuses : option error;
  handed : List;
}.

#[export] Instance testStore_Store : Store testStore := fun s _ d =>
  match refuses s with
  | Some err => (s, Some err)
  | None => ({| refuses := None; handed := d :: handed s |}, None)
  end.

(** A world whose catalog, at address 0, has the namespace [db.c] with the
    given documents, at addresses 0, 1, .. *)
Definition documents_of (l : list bsonD) : docs :=
  list_to_map (imap (fun i d => (i, d)) l).

Definition world_of (refuses : option error) (l : list bsonD) : world testStore :=
  let h := documents_of l in
  {| mem := {| datas := {[ O := {[ "db.c" := O ]} ]};
               namespaces := {[ O := Prepare h "db.c" (seq 0 (length l)) [] ]};
               documents := h |};
     self := {| store := {| refuses := refuses; handed := [] |}; data := O |} |}.

(** A freshly transformed document, as the collection hands it to the
    engine: it is allocated, and its address returned. *)
Definition transform {S} (d : bsonD) : M S ptr :=
  on_documents (fun h => let p := fresh (dom h) in (p, <[p := d]> h)).

(** What a reader sees of a namespace of the catalog at [d]: its documents,
    in order. *)
Definition contents (h : Heap) (d : ptr) (ns : string) : option (list bsonD) :=
  n ← Namespaces_of h d !! ns;
  N ← namespaces h !! n;
  Some (map (deref (documents h)) (Documents N)).

(** The documents of a namespace of the catalog at [d], none when the
    catalog does not have it. *)
Definition documents_in (h : Heap) (d : ptr) (ns : string) : List :=
  default [] (n ← Namespaces_of h d !! ns;
              N ← namespaces h !! n;
              Some (Documents N)).

(** [w'] has the catalog of [w]: the engine points to the same [Data]
    object, nothing allocated in [w] has changed, and whoever reads the
    catalog finds the same namespaces with the same documents. *)
Definition untouched {S : Type} {matcher : Matcher} (w w' : world S) : Prop :=
  data (self w') = data (self w)
  /\ Heap_le (mem w) (mem w')
  /\ Namespaces_of (mem w') (data (self w')) = Namespaces_of (mem w) (data (self w))
  /\ forall ns,
       contents (mem w') (data (self w')) ns = contents (mem w) (data (self w)) ns
       /\ fst (numDocuments ns w') = fst (numDocuments ns w)
       /\ forall query limit,
            fst (find ns query limit w') = fst (find ns query limit w).

(** What an operation leaves behind in a scenario: the error or the value
    returned, what a reader of the engine's catalog finds in [db.c], and what
    the store was handed. *)
Definition outcome {T} (r : orError T * world testStore)
    : orError T * option (list bsonD) * List :=
  (fst r,
   contents (mem (snd r)) (data (self (snd r))) "db.c",
   handed (store (self (snd r)))).

End lungo.

(* ================================================================== *)
(** * Part II: properties *)
(* ================================================================== *)

Import bsonkit mongokit lungo.
Local Open Scope list_scope.

(** ** [bsonkit.Difference] *)

Section DifferenceFacts.
Context {T : Type} `{EqDecision T}.
Implicit Types a b : list T.

Lemma sublist_cons_same (x : T) b a : sublist (x :: b) (x :: a) -> sublist b a.
Proof.
  intros [Hsub | (b' & Heq & Hsub)]%sublist_cons_r.
  - apply sublist_cons_l in Hsub as (k1 & k2 & -> & Hsub).
    by apply sublist_inserts_l, sublist_cons.
  - by injection Heq as ->.
Qed.

Lemma Difference_nil_r a : Difference a [] = a.
Proof. induction a as [|x a IH]; simpl; [done | by rewrite IH]. Qed.

Lemma Difference_restored a b :
  sublist b a -> Restored (Difference a b) b a.
Proof.
  revert b. induction a as [|x a IH]; intros b Hsub.
  - apply sublist_nil_r in Hsub as ->. constructor.
  - destruct b as [|y b]; simpl.
    + constructor. apply IH, sublist_nil_l.
    + destruct (decide (y = x)) as [->|Hne].
      * apply Restored_back, IH.
        by apply sublist_cons_same in Hsub.
      * apply Restored_kept, IH.
        apply sublist_cons_r in Hsub as [Hsub | (b' & Heq & _)]; [done|].
        congruence.
Qed.

Lemma Restored_length r b a :
  Restored r b a -> length a = (length r + length b)%nat.
Proof. induction 1; simpl; lia. Qed.

Lemma Restored_sublist r b a : Restored r b a -> sublist r a.
Proof. induction 1; by constructor. Qed.

Lemma Restored_Permutation r b a : Restored r b a -> Permutation (r ++ b) a.
Proof.
  induction 1; simpl.
  - constructor.
  - by constructor.
  - rewrite <- Permutation_middle. by constructor.
Qed.

Lemma filter_not_in_cons (x : T) b a :
  x ∉ a -> filter (fun y => y ∉ x :: b) a = filter (fun y => y ∉ b) a.
Proof.
  induction a as [|y a IH]; intros Hx; [done|].
  apply not_elem_of_cons in Hx as [Hxy Hx].
  destruct (decide (y ∈ b)) as [Hy|Hy].
  - rewrite !filter_cons_False; [by apply IH | tauto |].
    rewrite not_elem_of_cons. tauto.
  - rewrite !filter_cons_True; [by rewrite IH | done |].
    rewrite not_elem_of_cons. split; [congruence | done].
Qed.

Lemma Difference_filter a b :
  NoDup a -> sublist b a ->
  Difference a b = filter (fun x => x ∉ b) a.
Proof.
  revert b. induction a as [|x a IH]; intros b Hnd Hsub; [done|].
  apply NoDup_cons in Hnd as [Hx Hnd].
  destruct b as [|y b]; simpl.
  - rewrite filter_cons_True by apply not_elem_of_nil.
    f_equal. apply IH; [done | apply sublist_nil_l].
  - destruct (decide (y = x)) as [->|Hne].
    + rewrite filter_cons_False by (intros Hn; apply Hn; left).
      rewrite filter_not_in_cons by done.
      apply IH; [done|]. by apply sublist_cons_same in Hsub.
    + apply sublist_cons_r in Hsub as [Hsub | (b' & Heq & _)]; [|congruence].
      rewrite filter_cons_True.
      * f_equal. by apply IH.
      * intros Hin. apply Hx. by eapply (sublist_subseteq _ _ Hsub).
Qed.

End DifferenceFacts.

(** C8. When the elements of [b] occur in [a], in the same order, as the
    same pointers, [Difference(a, b)] is what is left of [a] once those
    occurrences are taken out, in the order of [a]: putting the elements of
    [b] back in position reconstructs [a], the length is [len(a) - len(b)],
    and, [a] holding no pointer twice, the result is exactly the elements of
    [a] that are not in [b]. *)
Theorem Difference_of_selection (a b : List) :
  sublist b a ->
  Restored (Difference a b) b a
  /\ sublist (Difference a b) a
  /\ length (Difference a b) = (length a - length b)%nat
  /\ Permutation (Difference a b ++ b) a
  /\ (NoDup a -> Difference a b = filter (fun x => x ∉ b) a).
Proof.
  intros Hsub. pose proof (Difference_restored a b Hsub) as Hr.
  split; [done|]. split; [by eapply Restored_sublist|].
  split; [apply Restored_length in Hr; lia|].
  split; [by apply Restored_Permutation|].
  intros Hnd. by apply Difference_filter.
Qed.

Lemma Difference_of_selection_witness :
  sublist [2; 4]%nat [1; 2; 3; 4; 5]%nat
  /\ Difference [1; 2; 3; 4; 5]%nat [2; 4]%nat = [1; 3; 5]%nat
  /\ Restored (Difference [1; 2; 3; 4; 5]%nat [2; 4]%nat) [2; 4]%nat
       [1; 2; 3; 4; 5]%nat.
Proof.
  assert (Hsub : sublist [2; 4]%nat [1; 2; 3; 4; 5]%nat)
    by (repeat first [apply sublist_nil | apply sublist_skip | apply sublist_cons]).
  split; [exact Hsub|]. split; [reflexivity|].
  exact (proj1 (Difference_of_selection _ _ Hsub)).
Defined.

(** ** Running a function body *)

Section Running.
Context {S : Type}.

Lemma run_bind {T U} (m : M S T) (f : T -> M S U) w :
  (m ≫= f) w = match m w with
               | (inr x, w') => f x w'
               | (inl err, w') => (inl err, w')
               end.
Proof. reflexivity. Qed.

Lemma run_ret {T} (x : T) (w : world S) : (mret x : M S T) w = (inr x, w).
Proof. reflexivity. Qed.

End Running.

(** Runs the primitives at the head of a function body applied to a world. *)
Ltac run :=
  repeat (rewrite ?run_bind, ?run_ret;
          unfold e_data, Namespaces, the_documents, gets, try, fail, panic,
            Data_Clone, new_Data, Namespace_Clone, NewNamespace,
            new_Namespace, set_namespace, set_Namespaces, with_mem;
          cbn [mem self datas namespaces documents store data fst snd]).

(** ** Reading a namespace that does not exist *)

Section Reads.
Context {S : Type} {storage : Store S} {matcher : Matcher} {updater : Updater}.

(** C10. Against a namespace that the catalog does not have, [find] returns
    no document and no error, whatever the query and the limit, and
    [numDocuments] returns 0; both leave memory and the engine as they were,
    so the namespace is not created. *)
Theorem reads_of_missing_namespace (w : world S) (ns : string) (query : bsonD) (limit : Z) :
  Namespaces_of (mem w) (data (self w)) !! ns = None ->
  find ns query limit w = (inr [], w)
  /\ numDocuments ns w = (inr O, w).
Proof.
  intros Hns. unfold find, numDocuments. run. by rewrite Hns.
Qed.

End Reads.

Lemma reads_of_missing_namespace_witness :
  let w := world_of None [[("_id", Int 7)]] in
  Namespaces_of (mem w) (data (self w)) !! "db.x" = None
  /\ find (matcher := equalityMatcher) "db.x" [("_id", Int 7)] 0 w = (inr [], w)
  /\ numDocuments "db.x" w = (inr O, w).
Proof.
  assert (Hns : Namespaces_of (mem (world_of None [[("_id", Int 7)]]))
                  (data (self (world_of None [[("_id", Int 7)]]))) !! "db.x" = None)
    by (vm_compute; reflexivity).
  split; [exact Hns|].
  exact (reads_of_missing_namespace (matcher := equalityMatcher)
           _ "db.x" [("_id", Int 7)] 0 Hns).
Defined.

(** ** The scenarios, run *)

Section Scenarios.
#[local] Existing Instances equalityMatcher setUpdater.

(** C2. [dropCollection] and [dropDatabase] on a catalog holding
    [db.c] with one document: the call succeeds, the engine still points to
    the same [Data] object, that object has lost the namespace (whoever held
    the catalog published before the call no longer sees its documents), and
    the store was handed nothing. *)
Theorem drop_writes_in_place :
  let w := world_of None [[("_id", Int 7); ("x", Int 1)]] in
  contents (mem w) (data (self w)) "db.c" = Some [[("_id", Int 7); ("x", Int 1)]]
  /\ (let '(r, w') := dropCollection "db.c" w in
      r = inr tt
      /\ data (self w') = data (self w)
      /\ Namespaces_of (mem w') (data (self w)) = ∅
      /\ contents (mem w') (data (self w)) "db.c" = None
      /\ handed (store (self w')) = [])
  /\ (let '(r, w') := dropDatabase "db" w in
      r = inr tt
      /\ data (self w') = data (self w)
      /\ Namespaces_of (mem w') (data (self w)) = ∅
      /\ contents (mem w') (data (self w)) "db.c" = None
      /\ handed (store (self w')) = []).
Proof. vm_compute. repeat split. Qed.

(** C3, as stated, fails: a batch whose second document repeats the [_id]
    of the first is rejected as a whole.  Neither the first document nor the
    third, which conflicts with nothing, is in the collection afterwards. *)
Lemma insert_keeps_no_document_of_a_rejected_batch :
  outcome ((d1 ← transform [("_id", Int 1); ("x", Str "a")];
            d2 ← transform [("_id", Int 1); ("x", Str "b")];
            d3 ← transform [("_id", Int 2)];
            insert "db.c" [d1; d2; d3]) (world_of None []))
  = (inl "document with same _id exists already", Some [], []).
Proof. vm_compute. reflexivity. Qed.

(** C4, as stated, fails: on a collection holding [{_id:7,x:1}], the
    replacement [{y:2}] is rejected for its missing [_id], and the
    replacement [{_id:8,y:3}] is accepted. *)
Lemma replace_wants_an_id_and_takes_another :
  outcome ((repl ← transform [("y", Int 2)];
            replace "db.c" [("_id", Int 7)] repl)
             (world_of None [[("_id", Int 7); ("x", Int 1)]]))
  = (inl "document is missng the _id field",
     Some [[("_id", Int 7); ("x", Int 1)]], [])
  /\ outcome ((repl ← transform [("_id", Int 8); ("y", Int 3)];
               replace "db.c" [("_id", Int 7)] repl)
                (world_of None [[("_id", Int 7); ("x", Int 1)]]))
     = (inr {| matched := 1; modified := 1 |},
        Some [[("_id", Int 8); ("y", Int 3)]], [1%nat]).
Proof. vm_compute. split; reflexivity. Qed.

(** C5, as stated, fails: on an empty collection, [update] with a query
    that matches nothing stores no document, and neither does [replace]. *)
Lemma update_of_no_match_stores_nothing :
  outcome (update "db.c" [("a", Int 1); ("b", Int 2)] [("$set", D [("c", Int 3)])] 1
             (world_of None []))
  = (inr {| matched := 0; modified := 0 |}, Some [], [])
  /\ outcome ((repl ← transform [("_id", Int 1); ("c", Int 3)];
               replace "db.c" [("a", Int 1); ("b", Int 2)] repl) (world_of None []))
     = (inr {| matched := 0; modified := 0 |}, Some [], []).
Proof. vm_compute. split; reflexivity. Qed.

End Scenarios.

(** ** A query that selects nothing *)

Section NoMatch.
Context {S : Type} {storage : Store S} {matcher : Matcher} {updater : Updater}.

(** C5, amended.  The engine has no upsert: when the namespace does not
    exist, or the query selects none of its documents, [update] returns a
    result with no match and no modification, and [replace] returns the same
    or, the replacement lacking [_id], the error for that; in each case
    memory and the engine are left as they were, so no document is
    inserted. *)
Theorem no_match_no_insert (w : world S) (ns : string) (query upd : bsonD)
    (limit : Z) (repl : ptr) :
  match Namespaces_of (mem w) (data (self w)) !! ns with
  | None => True
  | Some n =>
      exists N, namespaces (mem w) !! n = Some N
        /\ (exists index, Filter (documents (mem w)) (Documents N) query limit = inr ([], index))
        /\ (exists index, Filter (documents (mem w)) (Documents N) query 1 = inr ([], index))
  end ->
  update ns query upd limit w = (inr {| matched := 0; modified := 0 |}, w)
  /\ (replace ns query repl w = (inr {| matched := 0; modified := 0 |}, w)
      \/ replace ns query repl w = (inl "document is missng the _id field", w)).
Proof.
  intros Hno. unfold update, update_staged, replace, replace_staged. run.
  destruct (Namespaces_of (mem w) (data (self w)) !! ns) as [n|]; [|by split; [|left]].
  destruct Hno as (N & HN & [ix Hf] & [ix1 Hf1]).
  split.
  - run. unfold load. rewrite HN. run. by rewrite Hf.
  - run. destruct (is_Missing _); [by right|].
    left. run. unfold load. rewrite HN. run. by rewrite Hf1.
Qed.

End NoMatch.

Lemma no_match_no_insert_witness :
  let w := world_of None [[("_id", Int 7); ("x", Int 1)]] in
  update (matcher := equalityMatcher) (updater := setUpdater) "db.c"
    [("a", Int 1); ("b", Int 2)] [("$set", D [("c", Int 3)])] 0 w
  = (inr {| matched := 0; modified := 0 |}, w).
Proof.
  refine (proj1 (no_match_no_insert (matcher := equalityMatcher)
                   (updater := setUpdater) _ "db.c" _ _ 0 O _)).
  vm_compute. eexists. split; [reflexivity|]. split; eexists; reflexivity.
Defined.

(** ** The order on values *)

(** Induction on values, through documents and arrays. *)
Lemma value_induction (P : value -> Prop) :
  P Missing -> P Null -> (forall z, P (Int z)) -> (forall s, P (Str s)) ->
  (forall d, Forall (fun kv => P (snd kv)) d -> P (D d)) ->
  (forall l, Forall P l -> P (A l)) ->
  (forall b, P (Bool b)) ->
  forall v, P v.
Proof.
  intros HM HN HI HS HD HA HB.
  fix IH 1. intros [| |z|s|d|l|b];
    [exact HM | exact HN | apply HI | apply HS | | | apply HB].
  - apply HD.
    refine ((fix go (d : bsonD) : Forall (fun kv => P (snd kv)) d :=
               match d with
               | [] => List.Forall_nil _
               | kv :: d' => List.Forall_cons _ _ _ (IH (snd kv)) (go d')
               end) d).
  - apply HA.
    refine ((fix go (l : list value) : Forall P l :=
               match l with
               | [] => List.Forall_nil _
               | v :: l' => List.Forall_cons _ _ _ (IH v) (go l')
               end) l).
Qed.

Lemma elementwise_ordered {X : Type} (cmp : X -> X -> comparison) (x : list X) :
  Forall (ordered_at cmp) x -> ordered_at (elementwise cmp) x.
Proof.
  induction 1 as [|u x Hu Hx IH]; split.
  - done.
  - by intros [|w y].
  - intros [|w y] z; simpl; done.
  - intros [|w y] [|v z]; simpl; done.
  - intros [|w y] [|v z]; simpl; done.
  - simpl. rewrite (at_refl _ _ Hu). apply IH.
  - intros [|w y]; simpl; [done|].
    rewrite (at_antisym _ _ Hu w).
    destruct (cmp u w); simpl; try done. apply IH.
  - intros [|w y] [|v z]; simpl; try done.
    destruct (cmp u w) eqn:Huw; try done.
    intros Hxy. rewrite (at_eq _ _ Hu w v Huw).
    destruct (cmp w v); try done. by apply IH.
  - intros [|w y] [|v z]; simpl; try done.
    destruct (cmp u w) eqn:Huw; try done.
    + intros Hxy. rewrite (at_eq _ _ Hu w v Huw).
      destruct (cmp w v); try done. by apply IH.
    + intros _. destruct (cmp w v) eqn:Hwv; try done.
      intros _. by rewrite (at_lt_eq _ _ Hu w v Huw Hwv).
  - intros [|w y] [|v z]; simpl; try done.
    destruct (cmp u w) eqn:Huw; try done.
    + intros Hxy. rewrite (at_eq _ _ Hu w v Huw).
      destruct (cmp w v); try done. by apply IH.
    + intros _. destruct (cmp w v) eqn:Hwv; try done.
      * intros _. by rewrite (at_lt_eq _ _ Hu w v Huw Hwv).
      * intros _. by rewrite (at_lt_lt _ _ Hu w v Huw Hwv).
Qed.

Lemma String_compare_refl (s : string) : String.compare s s = Eq.
Proof.
  induction s as [|c s IH]; simpl; [done|].
  unfold Ascii.compare. by rewrite N.compare_refl.
Qed.

Lemma String_compare_lt_trans (x y z : string) :
  String.compare x y = Lt -> String.compare y z = Lt -> String.compare x z = Lt.
Proof.
  revert y z. induction x as [|a x IH]; intros [|b y] [|c z]; simpl; try done.
  unfold Ascii.compare.
  destruct (N.compare_spec (N_of_ascii a) (N_of_ascii b)) as [Hab|Hab|Hab];
    destruct (N.compare_spec (N_of_ascii b) (N_of_ascii c)) as [Hbc|Hbc|Hbc];
    try done; intros H1 H2.
  - rewrite Hab, Hbc, N.compare_refl. by eapply IH.
  - rewrite Hab. by apply N.compare_lt_iff in Hbc as ->.
  - rewrite <- Hbc. by apply N.compare_lt_iff in Hab as ->.
  - assert (Hac : (N_of_ascii a < N_of_ascii c)%N) by lia.
    by apply N.compare_lt_iff in Hac as ->.
Qed.

Lemma String_compare_ordered (s : string) : ordered_at String.compare s.
Proof.
  split.
  - apply String_compare_refl.
  - intros y. apply String.compare_antisym.
  - by intros y z ->%String.compare_eq_iff.
  - by intros y z Hlt <-%String.compare_eq_iff.
  - intros y z. apply String_compare_lt_trans.
Qed.

(** The comparison of the entries of two documents. *)
Lemma entry_ordered (kv : string * value) :
  ordered_at Compare (snd kv) ->
  ordered_at (fun e1 e2 : string * value =>
                match String.compare (fst e1) (fst e2) with
                | Eq => Compare (snd e1) (snd e2)
                | c => c
                end) kv.
Proof.
  intros Hv. pose proof (String_compare_ordered (fst kv)) as Hk. split.
  - by rewrite (at_refl _ _ Hk), (at_refl _ _ Hv).
  - intros y. rewrite (at_antisym _ _ Hk), (at_antisym _ _ Hv).
    by destruct (String.compare (fst kv) (fst y)).
  - intros y z. destruct (String.compare (fst kv) (fst y)) eqn:Hky; try done.
    intros Hvy. rewrite (at_eq _ _ Hk _ (fst z) Hky).
    destruct (String.compare (fst y) (fst z)); try done.
    by apply (at_eq _ _ Hv).
  - intros y z. destruct (String.compare (fst kv) (fst y)) eqn:Hky; try done.
    + intros Hvy. rewrite (at_eq _ _ Hk _ (fst z) Hky).
      destruct (String.compare (fst y) (fst z)); try done.
      by apply (at_lt_eq _ _ Hv).
    + intros _. destruct (String.compare (fst y) (fst z)) eqn:Hyz; try done.
      intros _. by rewrite (at_lt_eq _ _ Hk _ _ Hky Hyz).
  - intros y z. destruct (String.compare (fst kv) (fst y)) eqn:Hky; try done.
    + intros Hvy. rewrite (at_eq _ _ Hk _ (fst z) Hky).
      destruct (String.compare (fst y) (fst z)); try done.
      by apply (at_lt_lt _ _ Hv).
    + intros _. destruct (String.compare (fst y) (fst z)) eqn:Hyz; try done.
      * intros _. by rewrite (at_lt_eq _ _ Hk _ _ Hky Hyz).
      * intros _. by rewrite (at_lt_lt _ _ Hk _ _ Hky Hyz).
Qed.

Lemma Z_compare_ordered (z : Z) : ordered_at Z.compare z.
Proof.
  split.
  - apply Z.compare_refl.
  - intros y. apply Z.compare_antisym.
  - by intros y x ->%Z.compare_eq_iff.
  - by intros y x Hlt <-%Z.compare_eq_iff.
  - intros y x H1 H2. rewrite Z.compare_lt_iff in *. lia.
Qed.

Lemma Bool_compare_ordered (b : bool) : ordered_at Bool.compare b.
Proof. destruct b; (split; [done | by intros [] | by intros [] [] ..]). Qed.

(** [Compare] is a total preorder. *)
Lemma Compare_ordered (v : value) : ordered_at Compare v.
Proof.
  induction v as [| |x|s|d IH|l IH|b] using value_induction.
  - split; [done | by intros [] | by intros [] [] ..].
  - split; [done | by intros [] | by intros [] [] ..].
  - pose proof (Z_compare_ordered x) as [? ? ? ? ?].
    split; [done | intros []; simpl; auto | intros [] []; simpl; try done; eauto ..].
  - pose proof (String_compare_ordered s) as [? ? ? ? ?].
    split; [done | intros []; simpl; auto | intros [] []; simpl; try done; eauto ..].
  - assert (Hd : ordered_at (elementwise (fun e1 e2 : string * value =>
                  match String.compare (fst e1) (fst e2) with
                  | Eq => Compare (snd e1) (snd e2)
                  | c => c
                  end)) d).
    { apply elementwise_ordered. eapply Forall_impl; [exact IH|].
      intros kv. apply entry_ordered. }
    destruct Hd as [? ? ? ? ?].
    split; [done | intros []; simpl; auto | intros [] []; simpl; try done; eauto ..].
  - pose proof (elementwise_ordered Compare l IH) as [? ? ? ? ?].
    split; [done | intros []; simpl; auto | intros [] []; simpl; try done; eauto ..].
  - pose proof (Bool_compare_ordered b) as [? ? ? ? ?].
    split; [done | intros []; simpl; auto | intros [] []; simpl; try done; eauto ..].
Qed.

Lemma Compare_Eq_sym (a b : value) : Compare a b = Eq -> Compare b a = Eq.
Proof. intros H. by rewrite (at_antisym _ _ (Compare_ordered a)), H. Qed.

(** ** [bsonkit.Sort] *)

Lemma Compare_not_Lt_trans (a b c : value) :
  Compare a b ≠ Lt -> Compare b c ≠ Lt -> Compare a c ≠ Lt.
Proof.
  intros Hab Hbc Hac.
  destruct (Compare a b) eqn:Eab; [| done |].
  - rewrite (at_eq _ _ (Compare_ordered a) b c Eab) in Hac. done.
  - assert (Eba : Compare b a = Lt)
      by (by rewrite (at_antisym _ _ (Compare_ordered a)), Eab).
    by rewrite (at_lt_lt _ _ (Compare_ordered b) a c Eba Hac) in Hbc.
Qed.

Lemma Compare_Gt_Lt (a b : value) : Compare a b = Gt <-> Compare b a = Lt.
Proof.
  rewrite (at_antisym _ _ (Compare_ordered b) a).
  by destruct (Compare b a).
Qed.

(** The closure of [Sort] is a strict weak ordering, as [sort.Slice]
    wants. *)
Lemma Sort_less_strict_weak (h : docs) (path : string) (reverse : bool) :
  strict_weak (Sort_less h path reverse).
Proof.
  unfold Sort_less.
  destruct reverse; split; intros a; try intros b c;
    set (ka := valueAt h path a); try set (kb := valueAt h path b);
    try set (kc := valueAt h path c).
  - by rewrite (at_refl _ _ (Compare_ordered ka)).
  - destruct (Compare ka kb) eqn:Eab; try done.
    destruct (Compare kb kc) eqn:Ebc; try done. intros _ _.
    apply Compare_Gt_Lt in Eab, Ebc.
    assert (Eca : Compare kc ka = Lt)
      by apply (at_lt_lt _ _ (Compare_ordered kc) kb ka Ebc Eab).
    apply Compare_Gt_Lt in Eca. by rewrite Eca.
  - intros Hab Hbc.
    assert (Hba : Compare kb ka ≠ Lt)
      by (intros E%Compare_Gt_Lt; by rewrite E in Hab).
    assert (Hcb : Compare kc kb ≠ Lt)
      by (intros E%Compare_Gt_Lt; by rewrite E in Hbc).
    pose proof (Compare_not_Lt_trans _ _ _ Hcb Hba) as Hca.
    destruct (Compare ka kc) eqn:Eac; try done.
    by apply Compare_Gt_Lt in Eac.
  - by rewrite (at_refl _ _ (Compare_ordered ka)).
  - destruct (Compare ka kb) eqn:Eab; try done.
    destruct (Compare kb kc) eqn:Ebc; try done. intros _ _.
    by rewrite (at_lt_lt _ _ (Compare_ordered ka) kb kc Eab Ebc).
  - intros Hab Hbc.
    assert (Hab' : Compare ka kb ≠ Lt) by (intros E; by rewrite E in Hab).
    assert (Hbc' : Compare kb kc ≠ Lt) by (intros E; by rewrite E in Hbc).
    pose proof (Compare_not_Lt_trans _ _ _ Hab' Hbc') as Hac.
    by destruct (Compare ka kc).
Qed.

Lemma StronglySorted_weaken {T : Type} (R R' : T -> T -> Prop) (l : list T) :
  (forall a b, R a b -> R' a b) -> StronglySorted R l -> StronglySorted R' l.
Proof.
  intros HR. induction 1 as [|a l Hl IH Ha]; constructor; [done|].
  eapply Forall_impl; [exact Ha|]. intros b. apply HR.
Qed.

(** C7, amended.  Whatever [sort.Slice] does within what its documentation
    promises, [Sort] returns the documents it was given, ordered by the
    values at the path: a document never comes before one with a smaller
    value (with [reverse], before one with a greater value).  The order in
    which it leaves documents with equal values is not determined. *)
Theorem Sort_orders_by_value (sorter : SliceSorter) (h : docs) (list : List)
    (path : string) (reverse : bool) :
  sorts sorter ->
  list ≡ₚ Sort h list path reverse
  /\ StronglySorted
       (fun d e => in_order reverse (valueAt h path d) (valueAt h path e))
       (Sort h list path reverse).
Proof.
  intros Hsorts.
  destruct (Hsorts ptr (Sort_less h path reverse) list
              (Sort_less_strict_weak h path reverse)) as [Hperm Hsorted].
  split; [exact Hperm|].
  unfold Sort. eapply StronglySorted_weaken; [|exact Hsorted].
  intros d e. unfold Sort_less, in_order.
  destruct reverse.
  - intros Hle Hlt. apply Compare_Gt_Lt in Hlt. by rewrite Hlt in Hle.
  - intros Hle Hgt. apply Compare_Gt_Lt in Hgt. by rewrite Hgt in Hle.
Qed.

(** C7, as stated, fails.  Seven documents whose values at [k] are 2, 2, 3,
    3, 3, 3 and 1, sorted as [sort.Slice] sorts a short slice in the Go
    releases up to 1.18: the result is a permutation of the input, in
    ascending order of the values, and the two documents with the value 2
    have changed places. *)
Lemma Sort_is_not_stable :
  let h := documents_of [[("k", Int 2)]; [("k", Int 2)]; [("k", Int 3)];
                         [("k", Int 3)]; [("k", Int 3)]; [("k", Int 3)];
                         [("k", Int 1)]] in
  let list := [0; 1; 2; 3; 4; 5; 6]%nat in
  Sort (sorter := shortSorter) h list "k" false = [6; 1; 0; 2; 3; 4; 5]%nat
  /\ ~ stable h "k" list (Sort (sorter := shortSorter) h list "k" false).
Proof.
  intros h list.
  assert (Hout : Sort (sorter := shortSorter) h list "k" false
                 = [6; 1; 0; 2; 3; 4; 5]%nat) by (vm_compute; reflexivity).
  split; [exact Hout|]. rewrite Hout. intros Hst.
  destruct (Hst 0%nat 1%nat) as (i & j & Hij & Hi & Hj).
  - vm_compute. reflexivity.
  - exists 0%nat, 1%nat. split; [lia | split; reflexivity].
  - assert (Hi2 : i = 2%nat).
    { destruct i as [|[|[|[|[|[|[|i]]]]]]]; cbv in Hi; congruence. }
    assert (Hj1 : j = 1%nat).
    { destruct j as [|[|[|[|[|[|[|j]]]]]]]; cbv in Hj; congruence. }
    lia.
Qed.

(** ** [mongokit.Extract] *)

Lemma foldM_app {X Y : Type} (f : X -> Y -> orError X) (x : X) (l1 l2 : list Y) :
  foldM f x (l1 ++ l2) = (x' ← foldM f x l1; foldM f x' l2).
Proof.
  revert x. induction l1 as [|y l1 IH]; intros x; simpl; [done|].
  destruct (f x y) as [err|x']; simpl; [done | apply IH].
Qed.

Lemma foldM_ext {X Y : Type} (f g : X -> Y -> orError X) (x : X) (l : list Y) :
  (forall x y, f x y = g x y) -> foldM f x l = foldM g x l.
Proof.
  intros Hfg. revert x. induction l as [|y l IH]; intros x; simpl; [done|].
  rewrite Hfg. destruct (g x y); simpl; [done | apply IH].
Qed.

(** A loop whose steps each put the constraints of one element. *)
Lemma foldM_gather {X : Type} (step : bsonD -> X -> orError bsonD)
    (f : X -> option (list (string * value))) (l : list X)
    (cs : list (string * value)) (doc : bsonD) :
  (forall x c doc, f x = Some c ->
     step doc x = foldM (fun doc c => Put doc (fst c) (snd c) false) doc c) ->
  gather f l = Some cs ->
  foldM step doc l = foldM (fun doc c => Put doc (fst c) (snd c) false) doc cs.
Proof.
  intros Hstep. unfold gather. revert cs doc.
  induction l as [|x l IH]; intros cs doc Hcs; simpl in *.
  - by injection Hcs as <-.
  - destruct (f x) as [c|] eqn:Hc; [|done]. simpl in Hcs.
    destruct (all_of (map f l)) as [xs|] eqn:Hxs; [|done]. simpl in Hcs.
    injection Hcs as <-. simpl. rewrite foldM_app, (Hstep _ _ _ Hc).
    destruct (foldM _ doc c); simpl; [done|]. by apply IH.
Qed.

(** Looks an operator up in a registry of [extractContext]. *)
Ltac registered operator :=
  match goal with
  | |- context [@lookup ?K ?V ?M ?I ?k ?m] =>
      change (@lookup K V M I k m) with (Some operator)
  end.

Section ExtractFacts.
Variable self : bsonD -> bsonD -> bool -> orError bsonD.

Let put_all := foldM (fun doc c => Put doc (fst c) (snd c) false).

Lemma put_all_one (doc : bsonD) (path : string) (v : value) :
  Put doc path v false = put_all doc [(path, v)].
Proof. unfold put_all. simpl. by destruct (Put doc path v false). Qed.

Lemma operator_step (path : string) (doc : bsonD) (e : string * value)
    (c : list (string * value)) :
  operator_constraints path e = Some c ->
  (let '(k, v) := e in
   if is_operator k then
     match Expression extractContext !! k with
     | Some operator => operator self doc k path v
     | None => inl ("unknown expression operator " +:+ k)
     end
   else inl ("expected operator, got " +:+ k)) = put_all doc c.
Proof.
  destruct e as [k v]. unfold operator_constraints. cbn [fst snd].
  destruct (String.eqb_spec k "$eq") as [->|_].
  - intros [= <-]. registered extractEq. apply put_all_one.
  - destruct (String.eqb_spec k "$in") as [->|_]; [|done].
    registered extractIn. change (is_operator "$in") with true.
    cbv iota. unfold extractIn.
    destruct v as [| | | | |[|x [|y l]]|]; intros [= <-]; try done.
    apply put_all_one.
Qed.

Lemma field_step (path : string) (v : value) (doc : bsonD) (root : bool)
    (c : list (string * value)) :
  is_operator path = false ->
  field_constraints path v = Some c ->
  ProcessExpression extractContext self doc (path, v) root = put_all doc c.
Proof.
  intros Hpath. unfold ProcessExpression, field_constraints. rewrite Hpath.
  assert (Heq : match Expression extractContext !! "" with
                | Some operator => operator self doc "" path v
                | None => inl "missing default operator"
                end = put_all doc [(path, v)]).
  { registered extractEq. apply put_all_one. }
  destruct v as [| | | |[|[k1 v1] exps]| |]; try (by intros [= <-]).
  destruct (is_operator k1); [|by intros [= <-]].
  intros Hc. unfold process_operators.
  apply (foldM_gather _ (operator_constraints path)); [|done].
  intros [k v] c' doc' Hc'. by apply (operator_step path doc' (k, v)).
Qed.

End ExtractFacts.

Lemma Process_unfold (fuel : nat) (ctx : Context) (doc query : bsonD) (root : bool) :
  Process fuel ctx doc query root
  = foldM (fun doc pair =>
             ProcessExpression ctx
               match fuel with
               | O => fun _ _ _ => inl "query nested too deeply"
               | Datatypes.S fuel' => Process fuel' ctx
               end doc pair root) doc query.
Proof. by destruct fuel. Qed.

Lemma document_step (fuel : nat) (item : value) (doc : bsonD)
    (c : list (string * value)) (name : string) :
  document_constraints item = Some c ->
  match item with
  | D query => Process fuel extractContext doc query false
  | _ => inl (name +:+ ": expected list of documents")
  end = foldM (fun doc c => Put doc (fst c) (snd c) false) doc c.
Proof.
  destruct item as [| | | |query| |]; try done. unfold document_constraints.
  intros Hc. rewrite Process_unfold.
  apply (foldM_gather _ (fun kv => if is_operator (fst kv) then None
           else field_constraints (fst kv) (snd kv))); [|done].
  intros [k v] c' doc'. cbn [fst snd].
  destruct (is_operator k) eqn:Hk; [done|]. intros Hc'.
  by apply field_step.
Qed.

Lemma clause_step (fuel : nat) (e : string * value) (doc : bsonD)
    (c : list (string * value)) :
  clause_constraints e = Some c ->
  ProcessExpression extractContext (Process fuel extractContext) doc e true
  = foldM (fun doc c => Put doc (fst c) (snd c) false) doc c.
Proof.
  destruct e as [k v]. unfold clause_constraints. cbn [fst snd].
  destruct (is_operator k) eqn:Hk; [|by apply field_step].
  destruct v as [| | | | |items|]; try done.
  unfold ProcessExpression. rewrite Hk.
  destruct (String.eqb_spec k "$and") as [->|_].
  - registered extractAnd. unfold extractAnd.
    destruct items as [|item items]; [done|].
    change (length (item :: items) =? 0)%nat with false. cbv iota.
    intros Hc. apply (foldM_gather _ document_constraints); [|done].
    intros x c' doc' Hc'. by apply document_step.
  - destruct (String.eqb_spec k "$or") as [->|_]; [|done].
    registered extractOr. unfold extractOr.
    destruct items as [|item [|item' items]]; [done| |by intros [= <-]].
    intros Hc. change (length [item] =? 0)%nat with false.
    change (1 <? length [item])%nat with false. cbv iota.
    cbn [foldM]. rewrite (document_step fuel item doc c "$or" Hc).
    by destruct (foldM _ doc c).
Qed.

(** The filters of the fragment: [Extract] puts what they constrain, in
    order. *)
Lemma Extract_constraints (query : bsonD) (cs : list (string * value)) :
  constraints query = Some cs -> Extract query = defaults cs.
Proof.
  intros Hcs. unfold Extract, defaults.
  change (depth (D query)) with
    (Datatypes.S (list_max (map (fun kv => depth (snd kv)) query))).
  rewrite Process_unfold.
  apply (foldM_gather _ clause_constraints); [|done].
  intros e c doc Hc. by apply clause_step.
Qed.

(** *** The nesting bound does not matter *)

Lemma TopLevel_registered (k : string) (operator : Operator) :
  TopLevel extractContext !! k = Some operator ->
  operator = extractAnd \/ operator = extractOr.
Proof.
  unfold extractContext, TopLevel, TopLevelExtractOperators.
  intros [[_ <-]|[_ [[_ <-]|[_ H]]%lookup_insert_Some]]%lookup_insert_Some;
    [by right | by left | done].
Qed.

Lemma Expression_registered (k : string) (operator : Operator) :
  Expression extractContext !! k = Some operator ->
  operator = extractEq \/ operator = extractIn.
Proof.
  unfold extractContext, Expression, ExpressionExtractOperators.
  intros [[_ <-]|[_ [[_ <-]|[_ [[_ <-]|[_ H]]%lookup_insert_Some]]%lookup_insert_Some]]%lookup_insert_Some;
    [by right | by left | by left | done].
Qed.

(** The operators of [Extract] only call [Process] on nested documents,
    with [root] false. *)
Lemma ProcessExpression_self (self1 self2 : bsonD -> bsonD -> bool -> orError bsonD)
    (doc : bsonD) (e : string * value) (root : bool) :
  (forall d q, self1 d q false = self2 d q false) ->
  ProcessExpression extractContext self1 doc e root
  = ProcessExpression extractContext self2 doc e root.
Proof.
  intros Hself. destruct e as [k v]. unfold ProcessExpression.
  assert (Hexp : forall k' path v' d,
            match Expression extractContext !! k' with
            | Some operator => operator self1 d k' path v'
            | None => inl ("unknown expression operator " +:+ k')
            end
            = match Expression extractContext !! k' with
              | Some operator => operator self2 d k' path v'
              | None => inl ("unknown expression operator " +:+ k')
              end).
  { intros k' path v' d.
    destruct (Expression extractContext !! k') as [operator|] eqn:Hop; [|done].
    by destruct (Expression_registered _ _ Hop) as [-> | ->]. }
  assert (Hdef : match Expression extractContext !! "" with
                 | Some operator => operator self1 doc "" k v
                 | None => inl "missing default operator"
                 end
                 = match Expression extractContext !! "" with
                   | Some operator => operator self2 doc "" k v
                   | None => inl "missing default operator"
                   end).
  { destruct (Expression extractContext !! "") as [operator|] eqn:Hop; [|done].
    by destruct (Expression_registered _ _ Hop) as [-> | ->]. }
  destruct (is_operator k).
  - destruct root; [|done].
    destruct (TopLevel extractContext !! k) as [operator|] eqn:Hop; [|done].
    destruct (TopLevel_registered _ _ Hop) as [-> | ->];
      unfold extractAnd, extractOr; destruct v as [| | | | |items|]; try done.
    + destruct (length items =? 0)%nat; [done|].
      apply foldM_ext. intros d [| | | |q| |]; first [done | apply Hself].
    + destruct (length items =? 0)%nat; [done|].
      destruct (1 <? length items)%nat; [done|].
      apply foldM_ext. intros d [| | | |q| |]; first [done | apply Hself].
  - destruct v as [| | | |[|[k1 v1] exps]| |]; try exact Hdef.
    destruct (is_operator k1); [|exact Hdef].
    unfold process_operators. apply foldM_ext. intros d [k' v'].
    destruct (is_operator k'); [apply Hexp | done].
Qed.

Lemma Process_inner (fuel : nat) (doc query : bsonD) :
  Process fuel extractContext doc query false
  = Process 0 extractContext doc query false.
Proof.
  rewrite !Process_unfold. apply foldM_ext. intros d e.
  destruct e as [k v]. unfold ProcessExpression.
  destruct (is_operator k); [done|].
  assert (Hdef : forall s1 s2 : bsonD -> bsonD -> bool -> orError bsonD,
            match Expression extractContext !! "" with
            | Some operator => operator s1 d "" k v
            | None => inl "missing default operator"
            end
            = match Expression extractContext !! "" with
              | Some operator => operator s2 d "" k v
              | None => inl "missing default operator"
              end).
  { intros s1 s2.
    destruct (Expression extractContext !! "") as [operator|] eqn:Hop; [|done].
    by destruct (Expression_registered _ _ Hop) as [-> | ->]. }
  destruct v as [| | | |[|[k1 v1] exps]| |]; try apply Hdef.
  destruct (is_operator k1); [|apply Hdef].
  unfold process_operators. apply foldM_ext. intros d' [k' v'].
  destruct (is_operator k'); [|done].
  destruct (Expression extractContext !! k') as [operator|] eqn:Hop; [|done].
  by destruct (Expression_registered _ _ Hop) as [-> | ->].
Qed.

(** [Extract] is [Process] with one level of nesting, however deep the
    filter is: the bound is never reached. *)
Lemma Extract_one_level (query : bsonD) :
  Extract query = Process 1 extractContext [] query true.
Proof.
  unfold Extract.
  change (depth (D query)) with
    (Datatypes.S (list_max (map (fun kv => depth (snd kv)) query))).
  rewrite !Process_unfold. apply foldM_ext. intros d e.
  apply ProcessExpression_self. intros d' q.
  by rewrite Process_inner.
Qed.

Lemma Extract_app (pre post : bsonD) (e : string * value) :
  Extract (pre ++ e :: post)
  = (doc ← Extract pre;
     doc' ← ProcessExpression extractContext (Process 0 extractContext) doc e true;
     Process 1 extractContext doc' post true).
Proof.
  rewrite !Extract_one_level, !Process_unfold, foldM_app. simpl.
  destruct (foldM _ [] pre) as [err|doc]; [done|]. simpl.
  by destruct (ProcessExpression _ _ doc e true).
Qed.

Lemma Extract_app_nil (pre post : bsonD) :
  Extract (pre ++ post)
  = (doc ← Extract pre; Process 1 extractContext doc post true).
Proof.
  rewrite !Extract_one_level, !Process_unfold, foldM_app. done.
Qed.

(** C9. [Extract] returns the defaults document of what the filter
    constrains by bare equality, [$eq] or a single-element [$in], at the top
    level or inside [$and], for every filter made of such constraints; an
    [$or] over one document counts as that document, an [$or] over more
    than one contributes nothing, whatever it lists, and an empty [$and] or
    [$or] list makes [Extract] fail. *)
Theorem Extract_defaults :
  (forall query cs, constraints query = Some cs -> Extract query = defaults cs)
  /\ (forall pre post items,
        (1 < length items)%nat ->
        Extract (pre ++ ("$or", A items) :: post) = Extract (pre ++ post))
  /\ (forall pre post name,
        name = "$and" \/ name = "$or" ->
        exists err, Extract (pre ++ (name, A []) :: post) = inl err)
  /\ (forall post name,
        name = "$and" \/ name = "$or" ->
        Extract ((name, A []) :: post) = inl (name +:+ ": empty list")).
Proof.
  split; [exact Extract_constraints|]. split; [|split].
  - intros pre post items Hlen. rewrite Extract_app, Extract_app_nil.
    destruct (Extract pre) as [err|doc]; [done|]. simpl.
    unfold ProcessExpression. change (is_operator "$or") with true. cbv iota.
    registered extractOr. unfold extractOr.
    destruct items as [|i1 [|i2 items]]; simpl in Hlen; [lia | lia | done].
  - intros pre post name Hname. rewrite Extract_app.
    destruct (Extract pre) as [err|doc]; [by exists err|]. simpl.
    destruct Hname as [-> | ->]; eexists; unfold ProcessExpression.
    + change (is_operator "$and") with true. cbv iota.
      registered extractAnd. reflexivity.
    + change (is_operator "$or") with true. cbv iota.
      registered extractOr. reflexivity.
  - intros post name Hname.
    change ((name, A []) :: post) with (app [] ((name, A []) :: post)).
    rewrite Extract_app.
    destruct Hname as [-> | ->]; reflexivity.
Qed.

Lemma Extract_defaults_witness :
  let query := [("a", Int 1); ("b", D [("$eq", Int 2)]);
                ("$or", A [D [("c", Int 3)]; D [("d", Int 4)]]);
                ("$and", A [D [("e", Int 5)];
                            D [("f", D [("$in", A [Int 6])]);
                               ("g", D [("$in", A [Int 7; Int 8])])]])] in
  constraints query = Some [("a", Int 1); ("b", Int 2); ("e", Int 5); ("f", Int 6)]
  /\ Extract query = inr [("a", Int 1); ("b", Int 2); ("e", Int 5); ("f", Int 6)].
Proof.
  intros query.
  assert (Hcs : constraints query
                = Some [("a", Int 1); ("b", Int 2); ("e", Int 5); ("f", Int 6)])
    by (vm_compute; reflexivity).
  split; [exact Hcs|].
  exact (proj1 Extract_defaults query _ Hcs).
Defined.

(** ** Staging *)

Section StagingFacts.
Context {S : Type}.
Implicit Types (w : world S) (N : Namespace) (m : gmap string ptr).

Lemma Namespace_eta N :
  {| Name := Name N; Documents := Documents N; Indexes := Indexes N;
     primaryIndex := Index_Clone (primaryIndex N) |} = N.
Proof. by destruct N. Qed.

Lemma world_eta w : {| mem := mem w; self := self w |} = w.
Proof. by destruct w. Qed.

Lemma Heap_eta (h : Heap) :
  {| datas := datas h; namespaces := namespaces h; documents := documents h |} = h.
Proof. by destruct h. Qed.

Lemma Namespaces_of_new (dm : gmap ptr (gmap string ptr)) nss dd d m :
  Namespaces_of {| datas := <[d := m]> dm; namespaces := nss; documents := dd |} d
  = m.
Proof. unfold Namespaces_of. simpl. by rewrite lookup_insert_eq. Qed.

Lemma load_run w n N :
  namespaces (mem w) !! n = Some N -> load n w = (inr N, w).
Proof. intros HN. unfold load. by rewrite HN. Qed.

Lemma namespace_at_run w d ns n :
  Namespaces_of (mem w) d !! ns = Some n -> namespace_at d ns w = (inr n, w).
Proof.
  intros Hn. unfold namespace_at. rewrite run_bind.
  unfold Namespaces, gets. by rewrite Hn.
Qed.

Lemma staged_Namespaces w clone m n N dd :
  Namespaces_of (mem (staged w clone m n N dd)) clone = m.
Proof. unfold Namespaces_of, staged. simpl. by rewrite lookup_insert_eq. Qed.

Lemma staged_namespace_at w clone m n N dd ns :
  m !! ns = Some n ->
  namespace_at clone ns (staged w clone m n N dd)
  = (inr n, staged w clone m n N dd).
Proof.
  intros Hn. unfold namespace_at. rewrite run_bind.
  unfold Namespaces, gets. rewrite staged_Namespaces, Hn. done.
Qed.

Lemma staged_load w clone m n N dd :
  load n (staged w clone m n N dd) = (inr N, staged w clone m n N dd).
Proof. unfold load, staged. simpl. by rewrite lookup_insert_eq. Qed.

Lemma staged_save w clone m n N N' dd :
  save n N' (staged w clone m n N dd) = (inr tt, staged w clone m n N' dd).
Proof.
  unfold save, with_mem, staged. simpl. by rewrite insert_insert_eq.
Qed.

Lemma staged_documents w clone m n N dd :
  the_documents (staged w clone m n N dd) = (inr dd, staged w clone m n N dd).
Proof. done. Qed.

Lemma staged_primaryIndex_Set w clone m n N dd doc :
  primaryIndex_Set n doc (staged w clone m n N dd)
  = (inr (Index_Set dd (primaryIndex N) doc).1,
     staged w clone m n
       (with_primaryIndex N (Index_Set dd (primaryIndex N) doc).2) dd).
Proof.
  unfold primaryIndex_Set. rewrite run_bind, staged_load, run_bind, staged_documents.
  destruct (Index_Set dd (primaryIndex N) doc) as [ok index].
  by rewrite run_bind, staged_save.
Qed.

Lemma staged_primaryIndex_Delete w clone m n N dd doc :
  primaryIndex_Delete n doc (staged w clone m n N dd)
  = (inr tt,
     staged w clone m n
       (with_primaryIndex N (Index_Delete dd (primaryIndex N) doc)) dd).
Proof.
  unfold primaryIndex_Delete.
  by rewrite run_bind, staged_load, run_bind, staged_documents, staged_save.
Qed.

Lemma staged_set_document w clone m n N dd i doc :
  set_document n i doc (staged w clone m n N dd)
  = if bool_decide (i < length (Documents N))%nat
    then (inr tt, staged w clone m n (with_Documents N (<[i := doc]> (Documents N))) dd)
    else (inl "panic: index out of range", staged w clone m n N dd).
Proof.
  unfold set_document. rewrite run_bind, staged_load.
  case_bool_decide; [by rewrite staged_save | done].
Qed.

(** A loop on the staged namespace. *)
Lemma staged_range {T} (body : nat -> T -> M S unit)
    (f : nat -> T -> Namespace -> option error * Namespace) w clone m n dd :
  (forall i x N,
     body i x (staged w clone m n N dd)
     = (returned (f i x N).1, staged w clone m n (f i x N).2 dd)) ->
  forall l i N,
    range_from i l body (staged w clone m n N dd)
    = (returned (steps f i l N).1, staged w clone m n (steps f i l N).2 dd).
Proof.
  intros Hbody. induction l as [|x l IH]; intros i N; [done|].
  cbn [range_from steps]. rewrite run_bind, Hbody.
  destruct (f i x N) as [[err|] N']; [done|]. apply IH.
Qed.

(** Cloning the catalog, then the namespace [ns]. *)
Lemma stage_clone w ns n0 N0 :
  Namespaces_of (mem w) (data (self w)) !! ns = Some n0 ->
  namespaces (mem w) !! n0 = Some N0 ->
  (clone ← Data_Clone (data (self w));
   n0 ← namespace_at clone ns;
   n ← Namespace_Clone n0;
   _ ← set_namespace clone ns n;
   mret (clone, n)) w
  = (inr (fresh (dom (datas (mem w))), fresh (dom (namespaces (mem w)))),
     staged w (fresh (dom (datas (mem w))))
       (<[ns := fresh (dom (namespaces (mem w)))]>
          (Namespaces_of (mem w) (data (self w))))
       (fresh (dom (namespaces (mem w)))) N0 (documents (mem w))).
Proof.
  intros Hn0 HN0. run.
  erewrite namespace_at_run; [|cbn [mem]; rewrite Namespaces_of_new; eassumption]. run.
  rewrite ?run_bind. (erewrite load_run; [|exact HN0]). run.
  rewrite Namespace_eta, Namespaces_of_new.
  unfold staged. by rewrite insert_insert_eq.
Qed.

End StagingFacts.

(** ** What the operations stage *)

(** Cloning the catalog and the namespace [ns], as [replace], [update] and
    [delete] do, takes the world to the staged one. *)
Ltac stage_clone Hn0 HN0 :=
  run; (erewrite namespace_at_run; [|cbn [mem]; rewrite Namespaces_of_new; eassumption]); run;
  rewrite ?run_bind; (erewrite load_run; [|exact HN0]); run;
  rewrite Namespace_eta, Namespaces_of_new, insert_insert_eq;
  match goal with
  | |- context [ {| mem := {| datas := <[?c := ?m]> (datas (mem ?w));
                              namespaces := <[?n := ?N]> (namespaces (mem ?w));
                              documents := ?dd |};
                    self := self ?w |} ] =>
      change {| mem := {| datas := <[c := m]> (datas (mem w));
                          namespaces := <[n := N]> (namespaces (mem w));
                          documents := dd |};
                self := self w |}
        with (staged w c m n N dd)
  end.

Section Staged.
Context {S : Type} {storage : Store S} {matcher : Matcher} {updater : Updater}.
Implicit Types (w : world S) (N : Namespace) (m : gmap string ptr).

(** The loop of [insert] on the staged namespace. *)
Lemma insert_loop w clone m n dd ns list N :
  m !! ns = Some n ->
  range list (fun _ doc =>
    n ← namespace_at clone ns;
    ok ← primaryIndex_Set n doc;
    if negb ok then fail "document with same _id exists already"
    else N ← load n; save n (with_Documents N (Documents N ++ [doc])))
    (staged w clone m n N dd)
  = (returned (steps (add_document dd) 0 list N).1,
     staged w clone m n (steps (add_document dd) 0 list N).2 dd).
Proof.
  intros Hn. unfold range. apply staged_range. intros i doc N'.
  rewrite run_bind, (staged_namespace_at _ _ _ _ _ _ _ Hn).
  rewrite run_bind, staged_primaryIndex_Set. unfold add_document.
  destruct (Index_Set dd (primaryIndex N') doc) as [[] index]; cbn [negb fst snd].
  - by rewrite run_bind, staged_load, staged_save.
  - done.
Qed.

(** [insert], up to the call of the store: [N0] is the namespace the
    documents are added to, a new one or the content of the one there is. *)
Lemma insert_staged_run w ns list N0 :
  existsb (fun doc => is_Missing (valueAt (documents (mem w)) "_id" doc)) list = false ->
  match Namespaces_of (mem w) (data (self w)) !! ns with
  | Some n0 => namespaces (mem w) !! n0 = Some N0
  | None => N0 = Prepare (documents (mem w)) ns [] []
  end ->
  insert_staged ns list w
  = (match (steps (add_document (documents (mem w))) 0 list N0).1 with
     | Some err => inl err
     | None => inr (fresh (dom (datas (mem w))))
     end,
     staged w (fresh (dom (datas (mem w))))
       (<[ns := fresh (dom (namespaces (mem w)))]>
          (Namespaces_of (mem w) (data (self w))))
       (fresh (dom (namespaces (mem w))))
       (steps (add_document (documents (mem w))) 0 list N0).2
       (documents (mem w))).
Proof.
  intros Hids HN0. unfold insert_staged. run. rewrite Hids. run.
  rewrite Namespaces_of_new.
  set (m0 := Namespaces_of (mem w) (data (self w))) in *.
  set (clone := fresh (dom (datas (mem w)))).
  set (n := fresh (dom (namespaces (mem w)))).
  assert (Hstaged : forall N,
    (_ ← range list (fun _ doc =>
            n ← namespace_at clone ns;
            ok ← primaryIndex_Set n doc;
            if negb ok then fail "document with same _id exists already"
            else N ← load n; save n (with_Documents N (Documents N ++ [doc])));
     mret clone) (staged w clone (<[ns := n]> m0) n N (documents (mem w)))
    = (match (steps (add_document (documents (mem w))) 0 list N).1 with
       | Some err => inl err
       | None => inr clone
       end,
       staged w clone (<[ns := n]> m0) n
         (steps (add_document (documents (mem w))) 0 list N).2 (documents (mem w)))).
  { intros N. rewrite run_bind, (insert_loop _ _ _ n _ ns); [|apply lookup_insert_eq].
    by destruct (steps _ 0 list N) as [[err|] N']. }
  destruct (m0 !! ns) as [n0|] eqn:Hn0.
  - rewrite ?run_bind, (load_run _ n0 N0) by done. run.
    rewrite Namespace_eta, Namespaces_of_new, insert_insert_eq.
    apply Hstaged.
  - subst N0. run. rewrite Namespaces_of_new, insert_insert_eq.
    apply Hstaged.
Qed.

(** [replace], when it goes on to the store. *)
Lemma replace_staged_inv w ns query repl clone w1 :
  (forall n0, Namespaces_of (mem w) (data (self w)) !! ns = Some n0 ->
              is_Some (namespaces (mem w) !! n0)) ->
  replace_staged ns query repl w = (inr (inr clone), w1) ->
  exists n0 N0 list_0 list index_0 index index',
    Namespaces_of (mem w) (data (self w)) !! ns = Some n0
    /\ namespaces (mem w) !! n0 = Some N0
    /\ is_Missing (valueAt (documents (mem w)) "_id" repl) = false
    /\ Filter (documents (mem w)) (Documents N0) query 1
       = inr (list_0 :: list, index_0 :: index)
    /\ Index_Set (documents (mem w))
         (Index_Delete (documents (mem w)) (primaryIndex N0) list_0) repl
       = (true, index')
    /\ (index_0 < length (Documents N0))%nat
    /\ clone = fresh (dom (datas (mem w)))
    /\ w1 = staged w clone
              (<[ns := fresh (dom (namespaces (mem w)))]>
                 (Namespaces_of (mem w) (data (self w))))
              (fresh (dom (namespaces (mem w))))
              {| Name := Name N0;
                 Documents := <[index_0 := repl]> (Documents N0);
                 Indexes := Indexes N0;
                 primaryIndex := index' |}
              (documents (mem w)).
Proof.
  intros Hwf. unfold replace_staged. run.
  destruct (Namespaces_of (mem w) (data (self w)) !! ns) as [n0|] eqn:Hn0; [|done].
  destruct (Hwf n0 eq_refl) as [N0 HN0]. run.
  destruct (is_Missing (valueAt (documents (mem w)) "_id" repl)) eqn:Hid; [done|].
  rewrite ?run_bind, (load_run _ _ _ HN0). run.
  destruct (Filter (documents (mem w)) (Documents N0) query 1)
    as [err|[[|list_0 list] [|index_0 index]]] eqn:Hf; try done.
  stage_clone Hn0 HN0.
  rewrite (staged_namespace_at _ _ _ _ _ _ ns) by apply lookup_insert_eq.
  rewrite run_bind, staged_primaryIndex_Delete.
  rewrite run_bind, staged_primaryIndex_Set. cbn [primaryIndex with_primaryIndex].
  destruct (Index_Set (documents (mem w))
              (Index_Delete (documents (mem w)) (primaryIndex N0) list_0) repl)
    as [[] index'] eqn:Hset; cbn [negb fst snd]; [|done].
  rewrite run_bind, staged_set_document.
  cbn [Documents with_Documents with_primaryIndex].
  case_bool_decide as Hlt; [|done].
  intros [= <- <-].
  exists n0, N0, list_0, list, index_0, index, index'. done.
Qed.

Lemma unindex_loop w clone m n dd ns list N :
  m !! ns = Some n ->
  range list (fun _ doc => n ← namespace_at clone ns; primaryIndex_Delete n doc)
    (staged w clone m n N dd)
  = (inr tt, staged w clone m n (steps (unindex_document dd) 0 list N).2 dd).
Proof.
  intros Hn. unfold range.
  rewrite (staged_range _ (unindex_document dd)).
  - assert (Hnone : forall l i N', (steps (unindex_document dd) i l N').1 = None).
    { induction l as [|x l IH]; intros i N'; [done|]. apply IH. }
    by rewrite Hnone.
  - intros i doc N'.
    by rewrite run_bind, (staged_namespace_at _ _ _ _ _ _ _ Hn),
      staged_primaryIndex_Delete.
Qed.

Lemma index_loop w clone m n dd ns list N :
  m !! ns = Some n ->
  range list (fun _ doc =>
    n ← namespace_at clone ns;
    ok ← primaryIndex_Set n doc;
    if negb ok then fail "document with same _id exists already" else mret tt)
    (staged w clone m n N dd)
  = (returned (steps (index_document dd) 0 list N).1,
     staged w clone m n (steps (index_document dd) 0 list N).2 dd).
Proof.
  intros Hn. unfold range. apply staged_range. intros i doc N'.
  rewrite run_bind, (staged_namespace_at _ _ _ _ _ _ _ Hn).
  rewrite run_bind, staged_primaryIndex_Set. unfold index_document.
  by destruct (Index_Set dd (primaryIndex N') doc) as [[] index].
Qed.

Lemma place_loop w clone m n dd ns index list N :
  m !! ns = Some n ->
  range list (fun i doc =>
    n ← namespace_at clone ns;
    match index !! i with
    | Some index_i => set_document n index_i doc
    | None => panic "index out of range"
    end)
    (staged w clone m n N dd)
  = (returned (steps (place_document index) 0 list N).1,
     staged w clone m n (steps (place_document index) 0 list N).2 dd).
Proof.
  intros Hn. unfold range. apply staged_range. intros i doc N'.
  rewrite run_bind, (staged_namespace_at _ _ _ _ _ _ _ Hn).
  unfold place_document. destruct (index !! i) as [index_i|]; [|done].
  rewrite staged_set_document. by case_bool_decide.
Qed.

(** [delete], when it goes on to the store. *)
Lemma delete_staged_inv w ns query limit clone k w1 :
  (forall n0, Namespaces_of (mem w) (data (self w)) !! ns = Some n0 ->
              is_Some (namespaces (mem w) !! n0)) ->
  delete_staged ns query limit w = (inr (inr (clone, k)), w1) ->
  exists n0 N0 list index,
    Namespaces_of (mem w) (data (self w)) !! ns = Some n0
    /\ namespaces (mem w) !! n0 = Some N0
    /\ Filter (documents (mem w)) (Documents N0) query limit = inr (list, index)
    /\ k = length list
    /\ clone = fresh (dom (datas (mem w)))
    /\ w1 = staged w clone
              (<[ns := fresh (dom (namespaces (mem w)))]>
                 (Namespaces_of (mem w) (data (self w))))
              (fresh (dom (namespaces (mem w))))
              (steps (unindex_document (documents (mem w))) 0 list
                 (with_Documents N0 (Difference (Documents N0) list))).2
              (documents (mem w)).
Proof.
  intros Hwf. unfold delete_staged. run.
  destruct (Namespaces_of (mem w) (data (self w)) !! ns) as [n0|] eqn:Hn0; [|done].
  destruct (Hwf n0 eq_refl) as [N0 HN0].
  rewrite ?run_bind, (load_run _ _ _ HN0). run.
  destruct (Filter (documents (mem w)) (Documents N0) query limit)
    as [err|[list index]] eqn:Hf; [done|].
  stage_clone Hn0 HN0.
  rewrite (staged_namespace_at _ _ _ _ _ _ ns) by apply lookup_insert_eq.
  rewrite run_bind, staged_load, run_bind, staged_save.
  rewrite run_bind, (unindex_loop _ _ _ _ _ ns) by apply lookup_insert_eq.
  run. intros [= <- <- <-].
  exists n0, N0, list, index. done.
Qed.

Lemma Namespaces_of_same (h : Heap) nn dd d :
  Namespaces_of {| datas := datas h; namespaces := nn; documents := dd |} d
  = Namespaces_of h d.
Proof. done. Qed.

(** [update], when it goes on to the store. *)
Lemma update_staged_inv w ns query upd limit clone k w1 :
  (forall n0, Namespaces_of (mem w) (data (self w)) !! ns = Some n0 ->
              is_Some (namespaces (mem w) !! n0)) ->
  update_staged ns query upd limit w = (inr (inr (clone, k)), w1) ->
  exists n0 N0 list index newList h1 h2 N1 N2 N3,
    Namespaces_of (mem w) (data (self w)) !! ns = Some n0
    /\ namespaces (mem w) !! n0 = Some N0
    /\ Filter (documents (mem w)) (Documents N0) query limit = inr (list, index)
    /\ list <> []
    /\ CloneList (documents (mem w)) list = (newList, h1)
    /\ Update h1 newList upd false = (None, h2)
    /\ steps (unindex_document h2) 0 list N0 = (None, N1)
    /\ steps (index_document h2) 0 newList N1 = (None, N2)
    /\ steps (place_document index) 0 newList N2 = (None, N3)
    /\ k = length list
    /\ clone = fresh (dom (datas (mem w)))
    /\ w1 = staged w clone
              (<[ns := fresh (dom (namespaces (mem w)))]>
                 (Namespaces_of (mem w) (data (self w))))
              (fresh (dom (namespaces (mem w)))) N3 h2.
Proof.
  intros Hwf. unfold update_staged. run.
  destruct (Namespaces_of (mem w) (data (self w)) !! ns) as [n0|] eqn:Hn0; [|done].
  destruct (Hwf n0 eq_refl) as [N0 HN0].
  rewrite ?run_bind, (load_run _ _ _ HN0). run.
  destruct (Filter (documents (mem w)) (Documents N0) query limit)
    as [err|[list index]] eqn:Hf; [done|].
  destruct list as [|list_0 list]; [done|].
  change (length (list_0 :: list) =? 0)%nat with false. cbv iota.
  rewrite run_bind. unfold on_documents at 1. cbn [mem self datas namespaces documents].
  destruct (CloneList (documents (mem w)) (list_0 :: list)) as [newList h1] eqn:Hc.
  rewrite run_bind. unfold on_documents at 1. cbn [mem self datas namespaces documents].
  destruct (Update h1 newList upd false) as [[err|] h2] eqn:Hu; [done|].
  run. rewrite Namespaces_of_same.
  (erewrite namespace_at_run; [|cbn [mem]; rewrite Namespaces_of_new; eassumption]).
  run. rewrite ?run_bind. (erewrite load_run; [|exact HN0]). run.
  rewrite Namespace_eta, Namespaces_of_new, insert_insert_eq.
  set (clone' := fresh (dom (datas (mem w)))).
  set (n := fresh (dom (namespaces (mem w)))).
  set (m := <[ns := n]> (Namespaces_of (mem w) (data (self w)))).
  change {| mem := {| datas := <[clone' := m]> (datas (mem w));
                      namespaces := <[n := N0]> (namespaces (mem w));
                      documents := h2 |};
            self := self w |}
    with (staged w clone' m n N0 h2).
  assert (Hm : m !! ns = Some n) by apply lookup_insert_eq.
  rewrite (unindex_loop _ _ _ _ _ ns _ _ Hm).
  rewrite run_bind, (index_loop _ _ _ _ _ ns _ _ Hm).
  destruct (steps (unindex_document h2) 0 (list_0 :: list) N0) as [e1 N1] eqn:H1.
  assert (e1 = None) as ->.
  { assert (Hnone : forall l i N', (steps (unindex_document h2) i l N').1 = None).
    { induction l as [|x l IH]; intros i N'; [done|]. apply IH. }
    specialize (Hnone (list_0 :: list) 0%nat N0). by rewrite H1 in Hnone. }
  cbn [snd].
  destruct (steps (index_document h2) 0 newList N1) as [[err|] N2] eqn:H2; [done|].
  cbn [fst snd returned].
  rewrite run_bind, (place_loop _ _ _ _ _ ns _ _ _ Hm).
  destruct (steps (place_document index) 0 newList N2) as [[err|] N3] eqn:H3; [done|].
  cbn [fst snd returned]. run. intros [= <- <- <-].
  exists n0, N0, (list_0 :: list), index, newList, h1, h2, N1, N2, N3. done.
Qed.

End Staged.

(** ** Memory only grows *)

Lemma fresh_unallocated {X : Type} (m : gmap ptr X) : m !! fresh (dom m) = None.
Proof. apply not_elem_of_dom, is_fresh. Qed.

Lemma Heap_le_refl (h : Heap) : Heap_le h h.
Proof. by split_and!. Qed.

Lemma Heap_le_trans (h1 h2 h3 : Heap) : Heap_le h1 h2 -> Heap_le h2 h3 -> Heap_le h1 h3.
Proof.
  intros (? & ? & ?) (? & ? & ?). split_and!; by etrans.
Qed.

Lemma deref_subseteq (h h' : docs) (doc : ptr) :
  h ⊆ h' -> is_Some (h !! doc) -> deref h' doc = deref h doc.
Proof.
  intros Hle [d Hd]. unfold deref.
  by rewrite Hd, (lookup_weaken _ _ _ _ Hd Hle).
Qed.

Section Grows.
Context {S : Type}.
Implicit Types (w : world S) (N : Namespace) (m : gmap string ptr).

Lemma staged_grows w m N dd :
  documents (mem w) ⊆ dd ->
  Heap_le (mem w)
    (mem (staged w (fresh (dom (datas (mem w)))) m
            (fresh (dom (namespaces (mem w)))) N dd)).
Proof.
  intros Hdd. unfold staged. split_and!; cbn [mem datas namespaces documents].
  - apply insert_subseteq, fresh_unallocated.
  - apply insert_subseteq, fresh_unallocated.
  - done.
Qed.

End Grows.

(** *** [CloneList] and [Update] *)

Lemma CloneList_spec (h : docs) (list : List) (newList : List) (h1 : docs) :
  CloneList h list = (newList, h1) ->
  h ⊆ h1
  /\ length newList = length list
  /\ NoDup newList
  /\ (forall p, p ∈ newList -> h !! p = None /\ is_Some (h1 !! p))
  /\ (forall p, is_Some (h1 !! p) -> is_Some (h !! p) \/ p ∈ newList).
Proof.
  revert h newList h1. induction list as [|doc list IH]; intros h newList h1.
  - intros [= <- <-]. split_and!; [done | done | constructor | by intros p ?%elem_of_nil | by left].
  - cbn [CloneList]. unfold Clone.
    set (p0 := fresh (dom h)). set (h0 := <[p0 := deref h doc]> h).
    destruct (CloneList h0 list) as [ps h2] eqn:Hrec. intros [= <- <-].
    destruct (IH _ _ _ Hrec) as (Hle & Hlen & Hnd & Hnew & Hold).
    assert (Hp0 : h !! p0 = None) by apply fresh_unallocated.
    assert (Hle0 : h ⊆ h0) by by apply insert_subseteq.
    split_and!.
    + by etrans.
    + simpl. by rewrite Hlen.
    + constructor; [|done]. intros Hin. destruct (Hnew _ Hin) as [Hnone _].
      unfold h0 in Hnone. by rewrite lookup_insert_eq in Hnone.
    + intros p [->|Hin]%elem_of_cons; split.
      * done.
      * exists (deref h doc). apply (lookup_weaken h0); [|done].
        apply lookup_insert_eq.
      * destruct (Hnew _ Hin) as [Hnone _].
        destruct (h !! p) eqn:Hp; [|done].
        by rewrite (lookup_weaken _ _ _ _ Hp Hle0) in Hnone.
      * by destruct (Hnew _ Hin).
    + intros p Hp. destruct (Hold _ Hp) as [Hp'|Hin].
      * unfold h0 in Hp'. destruct (decide (p0 = p)) as [<-|Hne].
        -- right. left.
        -- rewrite lookup_insert_ne in Hp' by done. by left.
      * right. by right.
Qed.

Lemma Update_spec {updater : Updater} (h1 : docs) (list : List) (upd : bsonD)
    (upsert : bool) (err : option error) (h2 : docs) :
  Update h1 list upd upsert = (err, h2) ->
  (forall p, p ∉ list -> h2 !! p = h1 !! p)
  /\ (forall p, is_Some (h1 !! p) -> is_Some (h2 !! p))
  /\ (forall p, is_Some (h2 !! p) -> is_Some (h1 !! p) \/ p ∈ list).
Proof.
  revert h1. induction list as [|doc list IH]; intros h1.
  - intros [= <- <-]. split_and!; [done | done | by left].
  - cbn [Update]. destruct (apply (deref h1 doc) upd upsert) as [e|d].
    + intros [= <- <-]. split_and!; [done | done | by left].
    + intros Hrec. destruct (IH _ Hrec) as (Hsame & Hsome & Hfrom).
      split_and!.
      * intros p [Hne Hnin]%not_elem_of_cons.
        by rewrite (Hsame _ Hnin), lookup_insert_ne.
      * intros p Hp. apply Hsome.
        destruct (decide (doc = p)) as [<-|Hne];
          [by rewrite lookup_insert_eq | by rewrite lookup_insert_ne].
      * intros p Hp. destruct (Hfrom _ Hp) as [Hp'|Hin].
        -- destruct (decide (doc = p)) as [<-|Hne]; [right; left|].
           rewrite lookup_insert_ne in Hp' by done. by left.
        -- right. by right.
Qed.

(** The documents that were there before the clones were made and updated
    are as they were. *)
Lemma clones_updated_grow {updater : Updater} (h : docs) (list newList : List)
    (h1 h2 : docs) (upd : bsonD) (upsert : bool) (err : option error) :
  CloneList h list = (newList, h1) ->
  Update h1 newList upd upsert = (err, h2) ->
  h ⊆ h2.
Proof.
  intros Hc Hu.
  destruct (CloneList_spec _ _ _ _ Hc) as (Hle & _ & _ & Hnew & _).
  destruct (Update_spec _ _ _ _ _ _ Hu) as (Hsame & _ & _).
  apply map_subseteq_spec. intros p d Hp.
  rewrite Hsame; [by apply (lookup_weaken h)|].
  intros Hin. destruct (Hnew _ Hin) as [Hnone _]. congruence.
Qed.

(** ** What a failing store leaves behind *)

Lemma filter_from_ext {matcher : Matcher} (h h' : docs) (query : bsonD) (limit : Z)
    (list : List) (i found : nat) :
  (forall doc, doc ∈ list -> deref h' doc = deref h doc) ->
  filter_from h' query limit i found list = filter_from h query limit i found list.
Proof.
  revert i found. induction list as [|doc list IH]; intros i found Hsame; [done|].
  cbn [filter_from]. rewrite (Hsame doc) by left.
  destruct (Match (deref h doc) query) as [err|[]]; cbn; [done| |].
  - destruct (_ && _); [done|]. rewrite IH; [done|]. intros d Hd. apply Hsame. by right.
  - apply IH. intros d Hd. apply Hsame. by right.
Qed.

Section StoreFails.
Context {S : Type} {storage : Store S} {matcher : Matcher} {updater : Updater}.
Implicit Types (w : world S) (N : Namespace) (m : gmap string ptr).

(** A world that only has more allocated than [w], under the same engine
    pointer, reads as [w]. *)
Lemma grown_untouched w w' :
  catalog_ok (mem w) (data (self w)) ->
  data (self w') = data (self w) ->
  Heap_le (mem w) (mem w') ->
  untouched w w'.
Proof.
  intros [[m0 Hm0] Hns] Hdata (Hd & Hn & Hdoc).
  assert (HNs : Namespaces_of (mem w') (data (self w'))
                = Namespaces_of (mem w) (data (self w))).
  { unfold Namespaces_of. rewrite Hdata, Hm0.
    by rewrite (lookup_weaken _ _ _ _ Hm0 Hd). }
  split_and!; [done | done | done |].
  assert (Hsame : forall n N, namespaces (mem w) !! n = Some N ->
            ns_ok (documents (mem w)) N ->
            forall doc, doc ∈ Documents N ->
            deref (documents (mem w')) doc = deref (documents (mem w)) doc).
  { intros n N HN Hok doc Hin. apply deref_subseteq; [done|].
    by apply (ok_allocated _ _ Hok). }
  intros ns. split_and!.
  - unfold contents. rewrite HNs.
    destruct (Namespaces_of (mem w) (data (self w)) !! ns) as [n|] eqn:Hn0;
      [|done].
    destruct (Hns _ _ Hn0) as (N & HN & Hok).
    cbn [mbind option_bind]. rewrite HN, (lookup_weaken _ _ _ _ HN Hn).
    cbn [mbind option_bind]. f_equal. apply map_ext_in.
    intros doc Hin%list_elem_of_In. by apply (Hsame n N).
  - unfold numDocuments. run. rewrite HNs.
    destruct (Namespaces_of (mem w) (data (self w)) !! ns) as [n|] eqn:Hn0;
      [|done].
    destruct (Hns _ _ Hn0) as (N & HN & Hok).
    by rewrite !run_bind, (load_run _ _ _ HN),
      (load_run _ _ _ (lookup_weaken _ _ _ _ HN Hn)).
  - intros query limit. unfold find. run. rewrite HNs.
    destruct (Namespaces_of (mem w) (data (self w)) !! ns) as [n|] eqn:Hn0;
      [|done].
    destruct (Hns _ _ Hn0) as (N & HN & Hok).
    rewrite !run_bind, (load_run _ _ _ HN),
      (load_run _ _ _ (lookup_weaken _ _ _ _ HN Hn)). run.
    unfold Filter. rewrite (filter_from_ext _ _ _ _ _ _ _ (Hsame n N HN Hok)).
    by destruct (filter_from _ query limit 0 0 (Documents N)) as [err|[l ix]].
Qed.

Lemma staged_untouched w m N dd s' :
  catalog_ok (mem w) (data (self w)) ->
  documents (mem w) ⊆ dd ->
  untouched w
    {| mem := mem (staged w (fresh (dom (datas (mem w)))) m
                     (fresh (dom (namespaces (mem w)))) N dd);
       self := {| store := s'; data := data (self w) |} |}.
Proof.
  intros Hok Hdd. apply grown_untouched; [done | done |].
  by apply staged_grows.
Qed.

(** [insert], when it goes on to the store. *)
Lemma insert_staged_inv w ns list clone w1 :
  (forall n0, Namespaces_of (mem w) (data (self w)) !! ns = Some n0 ->
              is_Some (namespaces (mem w) !! n0)) ->
  insert_staged ns list w = (inr clone, w1) ->
  exists N0 N',
    match Namespaces_of (mem w) (data (self w)) !! ns with
    | Some n0 => namespaces (mem w) !! n0 = Some N0
    | None => N0 = Prepare (documents (mem w)) ns [] []
    end
    /\ existsb (fun doc => is_Missing (valueAt (documents (mem w)) "_id" doc)) list
       = false
    /\ steps (add_document (documents (mem w))) 0 list N0 = (None, N')
    /\ clone = fresh (dom (datas (mem w)))
    /\ w1 = staged w clone
              (<[ns := fresh (dom (namespaces (mem w)))]>
                 (Namespaces_of (mem w) (data (self w))))
              (fresh (dom (namespaces (mem w)))) N' (documents (mem w)).
Proof.
  intros Hwf Hrun.
  destruct (existsb (fun doc => is_Missing (valueAt (documents (mem w)) "_id" doc))
              list) eqn:Hids.
  { unfold insert_staged in Hrun. revert Hrun. run. by rewrite Hids. }
  assert (HN0 : exists N0,
            match Namespaces_of (mem w) (data (self w)) !! ns with
            | Some n0 => namespaces (mem w) !! n0 = Some N0
            | None => N0 = Prepare (documents (mem w)) ns [] []
            end).
  { destruct (Namespaces_of (mem w) (data (self w)) !! ns) as [n0|] eqn:Hn0.
    - destruct (Hwf n0 eq_refl) as [N0 HN0]. by exists N0.
    - by eexists. }
  destruct HN0 as [N0 HN0].
  rewrite (insert_staged_run w ns list N0 Hids HN0) in Hrun.
  destruct (steps (add_document (documents (mem w))) 0 list N0) as [[err|] N'] eqn:Hs;
    [done|].
  injection Hrun as <- <-. by exists N0, N'.
Qed.

Lemma catalog_ok_allocated (h : Heap) (d : ptr) (ns : string) (n0 : ptr) :
  catalog_ok h d -> Namespaces_of h d !! ns = Some n0 -> is_Some (namespaces h !! n0).
Proof. intros [_ Hns] Hn0. destruct (Hns _ _ Hn0) as (N & HN & _). by exists N. Qed.

(** The call of the store and what follows it, when the store refuses. *)
Lemma refused w1 clone s' err :
  Store_Store (store (self w1)) (mem w1) clone = (s', Some err) ->
  store_Store clone w1
  = (inl err, {| mem := mem w1; self := {| store := s'; data := data (self w1) |} |}).
Proof. intros Hs. unfold store_Store. by rewrite Hs. Qed.

(** C1. When [insert], [replace], [update] or [delete] has staged its
    changes on the clone and the store returns an error for it, the
    operation returns that error; the engine still points to the catalog it
    pointed to, nothing that was allocated has changed, and whoever reads
    the catalog afterwards finds the namespaces and documents of before. *)
Theorem store_error_leaves_the_catalog (w w1 : world S) (clone : ptr) (s' : S)
    (err : error) :
  catalog_ok (mem w) (data (self w)) ->
  Store_Store (store (self w1)) (mem w1) clone = (s', Some err) ->
  let w' := {| mem := mem w1; self := {| store := s'; data := data (self w) |} |} in
  (forall ns list,
     insert_staged ns list w = (inr clone, w1) ->
     insert ns list w = (inl err, w') /\ untouched w w')
  /\ (forall ns query repl,
        replace_staged ns query repl w = (inr (inr clone), w1) ->
        replace ns query repl w = (inl err, w') /\ untouched w w')
  /\ (forall ns query upd limit k,
        update_staged ns query upd limit w = (inr (inr (clone, k)), w1) ->
        update ns query upd limit w = (inl err, w') /\ untouched w w')
  /\ (forall ns query limit k,
        delete_staged ns query limit w = (inr (inr (clone, k)), w1) ->
        delete ns query limit w = (inl err, w') /\ untouched w w').
Proof.
  intros Hok Hstore w'.
  assert (Hwf : forall ns n0, Namespaces_of (mem w) (data (self w)) !! ns = Some n0 ->
                  is_Some (namespaces (mem w) !! n0))
    by (intros ns n0; by apply catalog_ok_allocated).
  split_and!.
  - intros ns list Hrun. split.
    + unfold insert. rewrite run_bind, Hrun, run_bind, (refused _ _ _ _ Hstore).
      destruct (insert_staged_inv _ _ _ _ _ (Hwf ns) Hrun)
        as (N0 & N' & _ & _ & _ & _ & ->). done.
    + destruct (insert_staged_inv _ _ _ _ _ (Hwf ns) Hrun)
        as (N0 & N' & _ & _ & _ & -> & Hw1).
      subst w' w1. by apply staged_untouched.
  - intros ns query repl Hrun.
    destruct (replace_staged_inv _ _ _ _ _ _ (Hwf ns) Hrun)
      as (n0 & N0 & l0 & l & i0 & ix & idx & _ & _ & _ & _ & _ & _ & -> & Hw1).
    split.
    + unfold replace. rewrite run_bind, Hrun, run_bind, (refused _ _ _ _ Hstore).
      by subst w1.
    + subst w' w1. by apply staged_untouched.
  - intros ns query upd limit k Hrun.
    destruct (update_staged_inv _ _ _ _ _ _ _ _ (Hwf ns) Hrun)
      as (n0 & N0 & l & ix & nl & h1 & h2 & N1 & N2 & N3 & _ & _ & _ & _ & Hc & Hu
          & _ & _ & _ & _ & -> & Hw1).
    split.
    + unfold update. rewrite run_bind, Hrun, run_bind, (refused _ _ _ _ Hstore).
      by subst w1.
    + subst w' w1. apply staged_untouched; [done|].
      by eapply clones_updated_grow.
  - intros ns query limit k Hrun.
    destruct (delete_staged_inv _ _ _ _ _ _ _ (Hwf ns) Hrun)
      as (n0 & N0 & l & ix & _ & _ & _ & _ & -> & Hw1).
    split.
    + unfold delete. rewrite run_bind, Hrun, run_bind, (refused _ _ _ _ Hstore).
      by subst w1.
    + subst w' w1. by apply staged_untouched.
Qed.

End StoreFails.

(** ** The primary index *)

Section IndexFacts.
Variable h : docs.
Implicit Types (i : mongokit.Index) (N : Namespace) (doc : ptr).

Lemma keys_equal_id i e doc :
  columns i = [{| Path := "_id" |}] ->
  keys_equal (key h i e) (key h i doc) = true
  <-> Compare (valueAt h "_id" e) (valueAt h "_id" doc) = Eq.
Proof.
  intros Hc. unfold key. rewrite Hc. cbn [map Path keys_equal].
  by destruct (Compare _ _).
Qed.

Lemma conflicts_false i doc :
  columns i = [{| Path := "_id" |}] ->
  conflicts h i doc = false ->
  forall e, e ∈ entries i -> e ≠ doc ->
    Compare (valueAt h "_id" e) (valueAt h "_id" doc) ≠ Eq.
Proof.
  intros Hc Hconf e Hin Hne Heq. unfold conflicts in Hconf.
  assert (Hex : existsb (fun e => negb (e =? doc)%nat
                  && keys_equal (key h i e) (key h i doc)) (entries i) = true).
  { apply existsb_exists. exists e. split; [by apply list_elem_of_In|].
    apply andb_true_iff. split.
    - apply negb_true_iff. by apply Nat.eqb_neq.
    - by apply keys_equal_id. }
  congruence.
Qed.

Lemma conflicts_true i doc :
  columns i = [{| Path := "_id" |}] ->
  forall e, e ∈ entries i -> e ≠ doc ->
    Compare (valueAt h "_id" e) (valueAt h "_id" doc) = Eq ->
    conflicts h i doc = true.
Proof.
  intros Hc e Hin Hne Heq. unfold conflicts.
  apply existsb_exists. exists e. split; [by apply list_elem_of_In|].
  apply andb_true_iff. split.
  - apply negb_true_iff. by apply Nat.eqb_neq.
  - by apply keys_equal_id.
Qed.

(** What a successful [Set] tells, and what it leaves. *)
Lemma Index_Set_true i doc i' :
  unique i = true ->
  columns i = [{| Path := "_id" |}] ->
  Index_Set h i doc = (true, i') ->
  (forall e, e ∈ entries i -> e ≠ doc ->
     Compare (valueAt h "_id" e) (valueAt h "_id" doc) ≠ Eq)
  /\ unique i' = true
  /\ columns i' = [{| Path := "_id" |}]
  /\ entries i' = (if bool_decide (doc ∈ entries i) then entries i
                   else (entries i ++ [doc])%list).
Proof.
  intros Hu Hc. unfold Index_Set. rewrite Hu. cbn [andb].
  destruct (conflicts h i doc) eqn:Hconf; [done|]. intros Hset.
  split; [by apply conflicts_false|]. revert Hset.
  by case_bool_decide; intros [= <-].
Qed.

Lemma Index_Set_false i doc i' :
  Index_Set h i doc = (false, i') -> unique i && conflicts h i doc = true /\ i' = i.
Proof.
  unfold Index_Set. destruct (unique i && conflicts h i doc); [by intros [= <-]|].
  by case_bool_decide.
Qed.

Lemma Index_Delete_entries i doc :
  entries (Index_Delete h i doc) = filter (fun e => e ≠ doc) (entries i).
Proof. done. Qed.

End IndexFacts.

(** ** Lists of distinct pointers *)

Section ListFacts.
Context {T : Type} `{EqDecision T}.
Implicit Types (l : list T) (x y : T).

Lemma filter_ne_not_in l x : x ∉ l -> filter (fun e => e ≠ x) l = l.
Proof.
  induction l as [|a l IH]; [done|]. intros [Hne Hnin]%not_elem_of_cons.
  rewrite filter_cons_True by done. by rewrite IH.
Qed.

(** Replacing an element of a list without repetition by a new one. *)
Lemma replace_distinct l (i : nat) x y :
  NoDup l -> l !! i = Some x -> y ∉ l ->
  NoDup (<[i := y]> l) /\ <[i := y]> l ≡ₚ (filter (fun e => e ≠ x) l ++ [y])%list.
Proof.
  revert i. induction l as [|a l IH]; intros i Hnd Hi Hy; [done|].
  apply NoDup_cons in Hnd as [Ha Hnd].
  apply not_elem_of_cons in Hy as [Hya Hy].
  destruct i as [|i]; simpl in Hi.
  - change (<[0%nat := y]> (a :: l)) with (y :: l).
    injection Hi as ->. split.
    + by apply NoDup_cons.
    + rewrite filter_cons_False by (intros Hn; by apply Hn).
      rewrite (filter_ne_not_in _ _ Ha). by rewrite Permutation_app_comm.
  - change (<[Datatypes.S i := y]> (a :: l)) with (a :: <[i := y]> l).
    destruct (IH i Hnd Hi Hy) as [Hnd' Hperm]. split.
    + apply NoDup_cons. split; [|done].
      rewrite Hperm.
      intros [[_ Hin]%list_elem_of_filter | ->%list_elem_of_singleton]%elem_of_app;
        [by apply Ha | done].
    + assert (Hax : a ≠ x).
      { intros ->. apply Ha. by eapply list_elem_of_lookup_2. }
      rewrite filter_cons_True by done. by rewrite Hperm.
Qed.

Lemma filter_not_in_nil l : filter (fun e => e ∉ @nil T) l = l.
Proof.
  induction l as [|a l IH]; [done|].
  rewrite filter_cons_True by apply not_elem_of_nil. by rewrite IH.
Qed.

Lemma filter_not_in_app_comm l (k : list T) x :
  filter (fun e => e ∉ x :: k) l = filter (fun e => e ∉ k) (filter (fun e => e ≠ x) l).
Proof.
  induction l as [|a l IH]; [done|].
  destruct (decide (a = x)) as [->|Hne].
  - rewrite filter_cons_False by (intros Hn; apply Hn; left).
    rewrite (filter_cons_False (fun e => e ≠ x)) by (intros Hn; by apply Hn).
    done.
  - rewrite (filter_cons_True (fun e => e ≠ x)) by done.
    destruct (decide (a ∈ k)) as [Hin|Hnin].
    + rewrite !filter_cons_False; [done | by intros Hn | ].
      intros Hn. apply Hn. by right.
    + rewrite !filter_cons_True; [by rewrite IH | done |].
      by intros [?|?]%elem_of_cons.
Qed.

End ListFacts.

(** ** What [Filter] returns *)

Lemma filter_from_spec {matcher : Matcher} (h : docs) (query : bsonD) (limit : Z)
    (list : List) (i found : nat) (r : List) (index : Datatypes.list nat)
    (pre : List) :
  filter_from h query limit i found list = inr (r, index) ->
  length pre = i ->
  Forall2 (fun k x => (pre ++ list) !! k = Some x) index r
  /\ sublist r list.
Proof.
  revert i found r index pre.
  induction list as [|doc list IH]; intros i found r index pre.
  - intros [= <- <-] _. split; constructor.
  - cbn [filter_from]. destruct (Match (deref h doc) query) as [err|[]]; [done| |];
      cbn [mbind result_bind]; intros Hrun Hpre.
    + destruct (_ && _).
      * injection Hrun as <- <-. split.
        -- constructor; [|constructor]. subst i. apply list_lookup_middle. done.
        -- apply sublist_skip, sublist_nil_l.
      * destruct (filter_from h query limit (Datatypes.S i) (Datatypes.S found) list)
          as [err|[l ix]] eqn:Hrec; [done|].
        injection Hrun as <- <-.
        destruct (IH _ _ _ _ (pre ++ [doc]) Hrec) as [Hall Hsub].
        { rewrite length_app. simpl. lia. }
        rewrite <- app_assoc in Hall. split.
        -- constructor; [|done]. subst i. by apply list_lookup_middle.
        -- by apply sublist_skip.
    + destruct (IH _ _ _ _ (pre ++ [doc]) Hrun) as [Hall Hsub].
      { rewrite length_app. simpl. lia. }
      rewrite <- app_assoc in Hall. split; [done|]. by apply sublist_cons.
Qed.

(** The documents [Filter] selects are documents of the list, in its order,
    at the positions it returns with them. *)
Lemma Filter_spec {matcher : Matcher} (h : docs) (list : List) (query : bsonD)
    (limit : Z) (r : List) (index : Datatypes.list nat) :
  Filter h list query limit = inr (r, index) ->
  Forall2 (fun k x => list !! k = Some x) index r /\ sublist r list.
Proof.
  intros Hf. by apply (filter_from_spec _ _ _ _ _ _ _ _ [] Hf).
Qed.

(** ** The namespace keeps its invariant *)

Section NamespaceFacts.
Implicit Types (h : docs) (N : Namespace) (doc : ptr).

Lemma valueAt_subseteq h h' doc path :
  h ⊆ h' -> is_Some (h !! doc) -> valueAt h' path doc = valueAt h path doc.
Proof. intros Hle Hdoc. unfold valueAt. by rewrite (deref_subseteq h h'). Qed.

Lemma ns_ok_mono h h' N : h ⊆ h' -> ns_ok h N -> ns_ok h' N.
Proof.
  intros Hle [Hu Hc Hnd Hix Hids Hal]. split; try done.
  - intros d e Hd He Hne.
    rewrite !(valueAt_subseteq h h') by auto. by apply Hids.
  - intros d Hd. destruct (Hal d Hd) as [x Hx].
    exists x. by apply (lookup_weaken h).
Qed.

Lemma ns_ok_Prepare h name : ns_ok h (Prepare h name [] []).
Proof.
  split; cbn; try done; [constructor | by intros d e ?%elem_of_nil | by intros d ?%elem_of_nil].
Qed.

(** Whether no two distinct documents of [l] have equal [_id]. *)
Let distinct h (l : List) : Prop :=
  forall d e, d ∈ l -> e ∈ l -> d ≠ e ->
    Compare (valueAt h "_id" d) (valueAt h "_id" e) ≠ Eq.

Lemma distinct_snoc h l doc :
  distinct h l ->
  (forall e, e ∈ l -> e ≠ doc ->
     Compare (valueAt h "_id" e) (valueAt h "_id" doc) ≠ Eq) ->
  distinct h (l ++ [doc]).
Proof.
  intros Hl Hdoc d e [Hd | ->%list_elem_of_singleton]%elem_of_app
    [He | ->%list_elem_of_singleton]%elem_of_app Hne.
  - by apply Hl.
  - by apply Hdoc.
  - intros Heq%Compare_Eq_sym. revert Heq. apply Hdoc; [done | congruence].
  - done.
Qed.

(** One document added by [insert]. *)
Lemma add_document_ok h i doc N N' :
  ns_ok h N -> doc ∉ Documents N -> is_Some (h !! doc) ->
  add_document h i doc N = (None, N') ->
  ns_ok h N' /\ Documents N' = (Documents N ++ [doc])%list.
Proof.
  intros [Hu Hc Hnd Hix Hids Hal] Hnew Hdoc. unfold add_document.
  destruct (Index_Set h (primaryIndex N) doc) as [[] index] eqn:Hset; [|done].
  cbn [negb]. intros [= <-].
  destruct (Index_Set_true _ _ _ _ Hu Hc Hset) as (Hother & Hu' & Hc' & He').
  assert (Hnin : doc ∉ entries (primaryIndex N)) by by rewrite Hix.
  rewrite bool_decide_eq_false_2 in He' by done.
  split; [|done]. split; cbn [Documents primaryIndex with_Documents with_primaryIndex].
  - done.
  - done.
  - apply NoDup_app. split_and!; [done | | apply NoDup_singleton].
    intros x Hx ->%list_elem_of_singleton. done.
  - by rewrite He', Hix.
  - apply distinct_snoc; [done|]. intros e He. apply Hother. by rewrite Hix.
  - intros d [Hd | ->%list_elem_of_singleton]%elem_of_app; [by apply Hal | done].
Qed.

(** The documents added by [insert]. *)
Lemma insert_ok h list i N N' :
  ns_ok h N -> NoDup list ->
  (forall doc, doc ∈ list -> (doc ∉ Documents N) /\ is_Some (h !! doc)) ->
  steps (add_document h) i list N = (None, N') ->
  ns_ok h N' /\ Documents N' = (Documents N ++ list)%list.
Proof.
  revert i N. induction list as [|doc list IH]; intros i N Hok Hnd Hnew.
  - intros [= <-]. by rewrite app_nil_r.
  - cbn [steps].
    destruct (add_document h i doc N) as [[err|] N1] eqn:Hadd; [done|].
    apply NoDup_cons in Hnd as [Hdoc Hnd].
    destruct (Hnew doc) as [Hnin Hal]; [left|].
    destruct (add_document_ok _ _ _ _ _ Hok Hnin Hal Hadd) as [Hok1 Hdocs1].
    intros Hsteps.
    assert (Hnew1 : forall d, d ∈ list -> (d ∉ Documents N1) /\ is_Some (h !! d)).
    { intros d Hd. destruct (Hnew d) as [Hdn Hda]; [by right|]. split; [|done].
      rewrite Hdocs1. apply not_elem_of_app. split; [done|].
      intros ->%list_elem_of_singleton. done. }
    destruct (IH _ _ Hok1 Hnd Hnew1 Hsteps) as [Hok' Hdocs'].
    split; [done|]. by rewrite Hdocs', Hdocs1, <- app_assoc.
Qed.

(** The document put in place by [replace]. *)
Lemma replace_ok h N (index_0 : nat) list_0 repl index' :
  ns_ok h N ->
  Documents N !! index_0 = Some list_0 ->
  repl ∉ Documents N -> is_Some (h !! repl) ->
  Index_Set h (Index_Delete h (primaryIndex N) list_0) repl = (true, index') ->
  ns_ok h {| Name := Name N;
             Documents := <[index_0 := repl]> (Documents N);
             Indexes := Indexes N;
             primaryIndex := index' |}.
Proof.
  intros [Hu Hc Hnd Hix Hids Hal] Hat Hnew Hrepl Hset.
  destruct (Index_Set_true h (Index_Delete h (primaryIndex N) list_0) repl index'
              Hu Hc Hset) as (Hother & Hu' & Hc' & He').
  rewrite Index_Delete_entries in He', Hother.
  assert (Hnin : repl ∉ filter (fun e => e ≠ list_0) (entries (primaryIndex N))).
  { intros [_ Hin]%list_elem_of_filter. by rewrite Hix in Hin. }
  rewrite bool_decide_eq_false_2 in He' by done.
  destruct (replace_distinct _ _ _ _ Hnd Hat Hnew) as [Hnd' Hperm].
  split; cbn [Documents primaryIndex]; try done.
  - by rewrite He', Hperm, Hix.
  - intros d e. rewrite !Hperm. apply distinct_snoc.
    + intros d' e' [_ Hd]%list_elem_of_filter [_ He]%list_elem_of_filter. by apply Hids.
    + intros e' He'' Hne. apply Hother; [|done]. by rewrite Hix.
  - intros d. rewrite Hperm.
    intros [[_ Hd]%list_elem_of_filter | ->%list_elem_of_singleton]%elem_of_app;
      [by apply Hal | done].
Qed.

(** The loop that takes documents out of the index. *)
Lemma unindex_steps h list i N :
  (steps (unindex_document h) i list N).1 = None
  /\ (steps (unindex_document h) i list N).2
     = with_primaryIndex N
         {| unique := unique (primaryIndex N);
            columns := columns (primaryIndex N);
            entries := filter (fun e => e ∉ list) (entries (primaryIndex N)) |}.
Proof.
  revert i N. induction list as [|doc list IH]; intros i N.
  - split; [done|]. cbn [steps snd]. rewrite filter_not_in_nil.
    by destruct N as [? ? ? []].
  - cbn [steps unindex_document]. destruct (IH (Datatypes.S i)
      (with_primaryIndex N (Index_Delete h (primaryIndex N) doc))) as [H1 H2].
    split; [done|]. rewrite H2. unfold with_primaryIndex.
    cbn [Name Documents Indexes primaryIndex unique columns entries Index_Delete
           with_entries].
    by rewrite filter_not_in_app_comm.
Qed.

(** What [delete] leaves of the namespace. *)
Lemma delete_ok h N list :
  ns_ok h N -> sublist list (Documents N) ->
  ns_ok h (steps (unindex_document h) 0 list
             (with_Documents N (Difference (Documents N) list))).2.
Proof.
  intros [Hu Hc Hnd Hix Hids Hal] Hsub.
  rewrite (proj2 (unindex_steps _ _ _ _)).
  rewrite (Difference_filter _ _ Hnd Hsub).
  split; cbn [Documents primaryIndex with_Documents with_primaryIndex unique columns entries];
    try done.
  - by apply NoDup_filter.
  - by rewrite Hix.
  - intros d e [_ Hd]%list_elem_of_filter [_ He]%list_elem_of_filter. by apply Hids.
  - intros d [_ Hd]%list_elem_of_filter. by apply Hal.
Qed.

End NamespaceFacts.

(** *** The loops of [update] *)

Section UpdateFacts.
Implicit Types (h : docs) (N : Namespace) (doc : ptr).

(** The loop that adds the updated documents to the index. *)
Lemma index_steps h news i N N' :
  unique (primaryIndex N) = true ->
  columns (primaryIndex N) = [{| Path := "_id" |}] ->
  NoDup news ->
  (forall y, y ∈ news -> y ∉ entries (primaryIndex N)) ->
  (forall d e, d ∈ entries (primaryIndex N) -> e ∈ entries (primaryIndex N) ->
     d ≠ e -> Compare (valueAt h "_id" d) (valueAt h "_id" e) ≠ Eq) ->
  steps (index_document h) i news N = (None, N') ->
  Name N' = Name N /\ Documents N' = Documents N /\ Indexes N' = Indexes N
  /\ unique (primaryIndex N') = true
  /\ columns (primaryIndex N') = [{| Path := "_id" |}]
  /\ entries (primaryIndex N') = entries (primaryIndex N) ++ news
  /\ (forall d e, d ∈ entries (primaryIndex N') -> e ∈ entries (primaryIndex N') ->
        d ≠ e -> Compare (valueAt h "_id" d) (valueAt h "_id" e) ≠ Eq).
Proof.
  revert i N. induction news as [|y news IH]; intros i N Hu Hc Hnd Hnew Hids.
  - intros [= <-]. rewrite app_nil_r. by split_and!.
  - cbn [steps]. unfold index_document at 1.
    destruct (Index_Set h (primaryIndex N) y) as [[] index] eqn:Hset; [|done].
    cbn [negb]. intros Hsteps.
    destruct (Index_Set_true _ _ _ _ Hu Hc Hset) as (Hother & Hu' & Hc' & He').
    apply NoDup_cons in Hnd as [Hy Hnd].
    rewrite bool_decide_eq_false_2 in He' by (apply Hnew; left).
    assert (H1 : forall z, z ∈ news ->
              z ∉ entries (primaryIndex (with_primaryIndex N index))).
    { cbn [primaryIndex with_primaryIndex]. rewrite He'. intros z Hz.
      apply not_elem_of_app. split; [apply Hnew; by right|].
      intros ->%list_elem_of_singleton. done. }
    assert (H2 : forall d e,
              d ∈ entries (primaryIndex (with_primaryIndex N index)) ->
              e ∈ entries (primaryIndex (with_primaryIndex N index)) ->
              d ≠ e -> Compare (valueAt h "_id" d) (valueAt h "_id" e) ≠ Eq).
    { cbn [primaryIndex with_primaryIndex]. rewrite He'.
      intros d e [Hd | ->%list_elem_of_singleton]%elem_of_app
        [He | ->%list_elem_of_singleton]%elem_of_app Hne.
      - by apply Hids.
      - by apply Hother.
      - intros Heq%Compare_Eq_sym. revert Heq. apply Hother; [done | congruence].
      - done. }
    destruct (IH (Datatypes.S i) (with_primaryIndex N index) Hu' Hc' Hnd H1 H2 Hsteps)
      as (HN & HD & HI & Hu'' & Hc'' & He'' & Hids'').
    cbn [primaryIndex with_primaryIndex Name Documents Indexes] in *.
    split_and!; try done. by rewrite He'', He', <- app_assoc.
Qed.

Lemma place_shift (k : nat) (index : Datatypes.list nat) news i N :
  steps (place_document (k :: index)) (Datatypes.S i) news N
  = steps (place_document index) i news N.
Proof.
  revert i N. induction news as [|y news IH]; intros i N; [done|].
  cbn [steps]. unfold place_document at 1 3.
  change ((k :: index) !! Datatypes.S i) with (index !! i).
  destruct (index !! i) as [index_i|]; [|done].
  case_bool_decide; [apply IH | done].
Qed.

Lemma lookups_after_insert (l : List) (k : nat) x y
    (index : Datatypes.list nat) (olds : List) :
  l !! k = Some x -> x ∉ olds ->
  Forall2 (fun k' x' => l !! k' = Some x') index olds ->
  Forall2 (fun k' x' => <[k := y]> l !! k' = Some x') index olds.
Proof.
  intros Hk Hx Hall.
  induction Hall as [|k' x' index olds Hk' Hall IH]; constructor.
  - apply not_elem_of_cons in Hx as [Hne _].
    rewrite list_lookup_insert_ne; [done|].
    intros ->. rewrite Hk in Hk'. by injection Hk'.
  - apply IH. by apply not_elem_of_cons in Hx as [_ Hx].
Qed.

(** The loop that puts the updated documents in the place of the selected
    ones. *)
Lemma place_steps (index : Datatypes.list nat) olds news N N' :
  Forall2 (fun k x => Documents N !! k = Some x) index olds ->
  NoDup olds -> NoDup news -> NoDup (Documents N) ->
  (forall y, y ∈ news -> y ∉ Documents N) ->
  steps (place_document index) 0 news N = (None, N') ->
  length news = length olds ->
  Name N' = Name N /\ Indexes N' = Indexes N /\ primaryIndex N' = primaryIndex N
  /\ NoDup (Documents N')
  /\ Documents N' ≡ₚ filter (fun e => e ∉ olds) (Documents N) ++ news.
Proof.
  revert olds news N. induction index as [|k index IH];
    intros olds news N Hall Holds Hnews Hnd Hnew.
  - apply Forall2_nil_inv_l in Hall as ->.
    destruct news as [|y news]; [|done]. intros [= <-] _.
    rewrite filter_not_in_nil, app_nil_r. by split_and!.
  - apply Forall2_cons_inv_l in Hall as (x & olds' & Hk & Hall & ->).
    rename olds' into olds.
    destruct news as [|y news]; [done|]. cbn [steps]. unfold place_document at 1.
    change ((k :: index) !! 0%nat) with (Some k). cbv iota beta.
    rewrite bool_decide_eq_true_2 by by eapply lookup_lt_Some.
    rewrite place_shift. intros Hsteps [= Hlen].
    apply NoDup_cons in Holds as [Hx Holds].
    apply NoDup_cons in Hnews as [Hy Hnews].
    assert (Hyn : y ∉ Documents N) by (apply Hnew; left).
    destruct (replace_distinct _ _ _ _ Hnd Hk Hyn) as [Hnd1 Hperm1].
    destruct (IH olds news (with_Documents N (<[k := y]> (Documents N))))
      as (HN & HI & HP & Hnd' & Hperm'); try done.
    + cbn [Documents with_Documents]. by eapply lookups_after_insert.
    + cbn [Documents with_Documents]. intros z Hz. rewrite Hperm1.
      apply not_elem_of_app. split.
      * intros [_ Hin]%list_elem_of_filter. revert Hin. apply Hnew. by right.
      * intros ->%list_elem_of_singleton. done.
    + cbn [Name Indexes primaryIndex Documents with_Documents] in *.
      split_and!; try done.
      rewrite Hperm', Hperm1, filter_app.
      rewrite (filter_not_in_app_comm (Documents N) olds x).
      assert (Hyo : filter (fun e => e ∉ olds) [y] = [y]).
      { rewrite filter_cons_True; [done|]. intros Hin.
        assert (Hin' : y ∈ Documents N); [|done].
        clear -Hall Hin. induction Hall; [by apply elem_of_nil in Hin|].
        apply elem_of_cons in Hin as [->|Hin]; [by eapply list_elem_of_lookup_2 | auto]. }
      rewrite Hyo, <- app_assoc. done.
Qed.

End UpdateFacts.

(** What [update] leaves of the namespace. *)
Lemma update_ok {matcher : Matcher} {updater : Updater} (h h1 h2 : docs)
    (N0 N1 N2 N3 : Namespace) (query upd : bsonD) (limit : Z)
    (list newList : List) (index : Datatypes.list nat) :
  ns_ok h N0 ->
  Filter h (Documents N0) query limit = inr (list, index) ->
  CloneList h list = (newList, h1) ->
  Update h1 newList upd false = (None, h2) ->
  steps (unindex_document h2) 0 list N0 = (None, N1) ->
  steps (index_document h2) 0 newList N1 = (None, N2) ->
  steps (place_document index) 0 newList N2 = (None, N3) ->
  ns_ok h2 N3.
Proof.
  intros Hok Hf Hc Hu H1 H2 H3.
  pose proof (clones_updated_grow _ _ _ _ _ _ _ _ Hc Hu) as Hle.
  pose proof (ok_allocated _ _ Hok) as Hal0.
  destruct (ns_ok_mono _ _ _ Hle Hok) as [Hun Hco Hnd Hix Hids Hal].
  destruct (Filter_spec _ _ _ _ _ _ Hf) as [Hall Hsub].
  assert (Hndl : NoDup list) by (by eapply sublist_NoDup).
  destruct (CloneList_spec _ _ _ _ Hc) as (_ & Hlen & Hndn & Hnew & _).
  destruct (Update_spec _ _ _ _ _ _ Hu) as (_ & Hsome & _).
  assert (Hfresh : forall y, y ∈ newList -> y ∉ Documents N0).
  { intros y Hy Hin. destruct (Hnew y Hy) as [Hnone _].
    destruct (Hal0 y Hin) as [x Hx]. congruence. }
  assert (HN1 : N1 = with_primaryIndex N0
            {| unique := unique (primaryIndex N0);
               columns := columns (primaryIndex N0);
               entries := filter (fun e => e ∉ list) (entries (primaryIndex N0)) |}).
  { rewrite <- (proj2 (unindex_steps h2 list 0 N0)). by rewrite H1. }
  assert (Hnew1 : forall y, y ∈ newList -> y ∉ entries (primaryIndex N1)).
  { subst N1. cbn [primaryIndex with_primaryIndex entries].
    intros y Hy [_ Hin]%list_elem_of_filter. rewrite Hix in Hin. by apply (Hfresh y). }
  assert (Hids1 : forall d e, d ∈ entries (primaryIndex N1) ->
            e ∈ entries (primaryIndex N1) -> d ≠ e ->
            Compare (valueAt h2 "_id" d) (valueAt h2 "_id" e) ≠ Eq).
  { subst N1. cbn [primaryIndex with_primaryIndex entries].
    intros d e [_ Hd]%list_elem_of_filter [_ He]%list_elem_of_filter.
    rewrite Hix in Hd, He. by apply Hids. }
  assert (Hu1 : unique (primaryIndex N1) = true) by (by subst N1).
  assert (Hc1 : columns (primaryIndex N1) = [{| Path := "_id" |}]) by (by subst N1).
  destruct (index_steps h2 newList 0 N1 N2 Hu1 Hc1 Hndn Hnew1 Hids1 H2)
    as (_ & HD2 & _ & Hu2 & Hc2 & He2 & Hids2).
  assert (HD1 : Documents N2 = Documents N0) by (by rewrite HD2, HN1).
  assert (Hall2 : Forall2 (fun k x => Documents N2 !! k = Some x) index list)
    by (by rewrite HD1).
  assert (Hnd2 : NoDup (Documents N2)) by (by rewrite HD1).
  assert (Hfresh2 : forall y, y ∈ newList -> y ∉ Documents N2)
    by (by rewrite HD1).
  destruct (place_steps index list newList N2 N3 Hall2 Hndl Hndn Hnd2 Hfresh2 H3 Hlen)
    as (_ & _ & HP3 & Hnd3 & Hperm3).
  assert (He3 : entries (primaryIndex N3) ≡ₚ Documents N3).
  { rewrite HP3, He2, Hperm3, HD1, HN1.
    cbn [primaryIndex with_primaryIndex entries]. by rewrite Hix. }
  split; try done.
  - by rewrite HP3.
  - by rewrite HP3.
  - intros d e Hd He. rewrite <- He3, HP3 in Hd, He. by apply Hids2.
  - intros d Hd. rewrite Hperm3, HD1 in Hd.
    apply elem_of_app in Hd as [[_ Hd]%list_elem_of_filter | Hd]; [by apply Hal|].
    apply Hsome. by destruct (Hnew d Hd).
Qed.

(** ** The operations keep the catalog well formed *)

Section Invariant.
Context {S : Type} {storage : Store S} {matcher : Matcher} {updater : Updater}.
Implicit Types (w : world S) (N : Namespace) (m : gmap string ptr).

Lemma staged_catalog_ok w ns N dd :
  catalog_ok (mem w) (data (self w)) ->
  documents (mem w) ⊆ dd ->
  ns_ok dd N ->
  catalog_ok
    (mem (staged w (fresh (dom (datas (mem w))))
            (<[ns := fresh (dom (namespaces (mem w)))]>
               (Namespaces_of (mem w) (data (self w))))
            (fresh (dom (namespaces (mem w)))) N dd))
    (fresh (dom (datas (mem w)))).
Proof.
  intros [Hd Hns] Hdd HN. split.
  - unfold staged. cbn [mem datas]. rewrite lookup_insert_eq. by eexists.
  - intros ns' n'. rewrite staged_Namespaces. unfold staged.
    cbn [mem namespaces documents].
    intros [[-> <-] | [Hne Hn']]%lookup_insert_Some.
    + exists N. by rewrite lookup_insert_eq.
    + destruct (Hns _ _ Hn') as (N1 & HN1 & Hok1). exists N1. split.
      * rewrite lookup_insert_ne; [done|]. intros <-.
        by rewrite fresh_unallocated in HN1.
      * by eapply ns_ok_mono.
Qed.

(** The call of the store and what follows it, when the store accepts. *)
Lemma accepted {T} w1 clone (x : T) r w' :
  (_ ← store_Store clone; _ ← set_e_data clone; mret x) w1 = (inr r, w') ->
  r = x /\ mem w' = mem w1 /\ data (self w') = clone.
Proof.
  rewrite run_bind. unfold store_Store.
  destruct (Store_Store (store (self w1)) (mem w1) clone) as [s' [err|]]; [done|].
  rewrite run_bind. unfold set_e_data. cbn [mem self]. rewrite run_ret.
  by intros [= <- <-].
Qed.

(** A body that returns a value has run each of its parts. *)
Lemma bind_inr {T U} (e : M S T) (k : T -> M S U) w r w' :
  (e ≫= k) w = (inr r, w') ->
  exists x w1, e w = (inr x, w1) /\ k x w1 = (inr r, w').
Proof.
  rewrite run_bind. destruct (e w) as [[err|x] w1]; [done|]. by exists x, w1.
Qed.

Ltac parts H :=
  repeat (apply bind_inr in H as (? & ? & _ & H)).

(** An operation that returns before it clones has changed nothing. *)
Lemma replace_early w ns query repl early w1 :
  (forall n0, Namespaces_of (mem w) (data (self w)) !! ns = Some n0 ->
              is_Some (namespaces (mem w) !! n0)) ->
  replace_staged ns query repl w = (inr (inl early), w1) -> w1 = w.
Proof.
  intros Hwf. unfold replace_staged. run.
  destruct (Namespaces_of (mem w) (data (self w)) !! ns) as [n0|] eqn:Hn0;
    [|by intros [= <- <-]].
  run. destruct (is_Missing _); [done|].
  destruct (Hwf n0 eq_refl) as [N0 HN0].
  rewrite ?run_bind, (load_run _ _ _ HN0). run.
  destruct (Filter _ _ _ _) as [err|[[|l0 l] [|i0 ix]]]; try done;
    try (by intros [= <- <-]).
  intros H. parts H. destruct (negb _); [done|]. by parts H.
Qed.

Lemma update_early w ns query upd limit early w1 :
  (forall n0, Namespaces_of (mem w) (data (self w)) !! ns = Some n0 ->
              is_Some (namespaces (mem w) !! n0)) ->
  update_staged ns query upd limit w = (inr (inl early), w1) -> w1 = w.
Proof.
  intros Hwf. unfold update_staged. run.
  destruct (Namespaces_of (mem w) (data (self w)) !! ns) as [n0|] eqn:Hn0;
    [|by intros [= <- <-]].
  destruct (Hwf n0 eq_refl) as [N0 HN0].
  rewrite ?run_bind, (load_run _ _ _ HN0). run.
  destruct (Filter _ _ _ _) as [err|[l ix]]; try done.
  cbn [fst snd]. destruct (length l =? 0)%nat; [by intros [= <- <-]|].
  intros H. apply bind_inr in H as (? & ? & _ & H).
  apply bind_inr in H as ([err|] & ? & _ & H); [done|]. by parts H.
Qed.

Lemma delete_early w ns query limit early w1 :
  (forall n0, Namespaces_of (mem w) (data (self w)) !! ns = Some n0 ->
              is_Some (namespaces (mem w) !! n0)) ->
  delete_staged ns query limit w = (inr (inl early), w1) -> w1 = w.
Proof.
  intros Hwf. unfold delete_staged. run.
  destruct (Namespaces_of (mem w) (data (self w)) !! ns) as [n0|] eqn:Hn0;
    [|by intros [= <- <-]].
  destruct (Hwf n0 eq_refl) as [N0 HN0].
  rewrite ?run_bind, (load_run _ _ _ HN0). run.
  destruct (Filter _ _ _ _) as [err|[l ix]]; try done.
  intros H. by parts H.
Qed.

(** C6. Each operation that succeeds leaves the engine with a well formed
    catalog, given one: in every namespace the primary index holds exactly
    the documents of the namespace, each once, and no two of them have [_id]
    values that compare equal.  The documents handed to [insert] and
    [replace] are those the collection has just transformed. *)
Theorem operations_keep_the_catalog (w w' : world S) :
  catalog_ok (mem w) (data (self w)) ->
  (forall ns list,
     handed_over w ns list ->
     insert ns list w = (inr tt, w') ->
     catalog_ok (mem w') (data (self w')))
  /\ (forall ns query repl r,
        handed_over w ns [repl] ->
        replace ns query repl w = (inr r, w') ->
        catalog_ok (mem w') (data (self w')))
  /\ (forall ns query upd limit r,
        update ns query upd limit w = (inr r, w') ->
        catalog_ok (mem w') (data (self w')))
  /\ (forall ns query limit k,
        delete ns query limit w = (inr k, w') ->
        catalog_ok (mem w') (data (self w'))).
Proof.
  intros Hok.
  assert (Hwf : forall ns n0, Namespaces_of (mem w) (data (self w)) !! ns = Some n0 ->
                  is_Some (namespaces (mem w) !! n0))
    by (intros ns n0; by apply catalog_ok_allocated).
  split_and!.
  - intros ns list [Hnd Hnew]. unfold insert. rewrite run_bind.
    destruct (insert_staged ns list w) as [[err|clone] w1] eqn:Hrun; [done|].
    intros (_ & -> & ->)%(accepted _ _ tt).
    destruct (insert_staged_inv _ _ _ _ _ (Hwf ns) Hrun)
      as (N0 & N' & HN0 & _ & Hsteps & -> & ->).
    apply staged_catalog_ok; [done | done |].
    assert (Hok0 : ns_ok (documents (mem w)) N0
                   /\ forall doc, doc ∈ list -> doc ∉ Documents N0).
    { destruct (Namespaces_of (mem w) (data (self w)) !! ns) as [n0|] eqn:Hn0.
      - destruct Hok as [_ Hns]. destruct (Hns _ _ Hn0) as (N1 & HN1 & Hok1).
        assert (N1 = N0) as -> by congruence. split; [done|].
        intros doc Hdoc. destruct (Hnew doc Hdoc) as [_ Hnin]. by eapply Hnin.
      - subst N0. split; [apply ns_ok_Prepare|]. intros doc _. apply not_elem_of_nil. }
    destruct Hok0 as [Hok0 Hnin].
    eapply (insert_ok _ list 0 N0 N'); try done.
    intros doc Hdoc. split; [by apply Hnin|]. by destruct (Hnew doc Hdoc).
  - intros ns query repl r [Hnd Hnew]. unfold replace. rewrite run_bind.
    destruct (replace_staged ns query repl w) as [[err|[early|clone]] w1] eqn:Hrun;
      [done | |].
    + rewrite run_ret. intros [= <- <-].
      by rewrite (replace_early _ _ _ _ _ _ (Hwf ns) Hrun).
    + intros (_ & -> & ->)%(accepted _ _ {| matched := 1; modified := 1 |}).
      destruct (replace_staged_inv _ _ _ _ _ _ (Hwf ns) Hrun)
        as (n0 & N0 & l0 & l & i0 & ix & idx & Hn0 & HN0 & _ & Hf & Hset & _ & -> & ->).
      apply staged_catalog_ok; [done | done |].
      destruct Hok as [_ Hns]. destruct (Hns _ _ Hn0) as (N1 & HN1 & Hok1).
      assert (N1 = N0) as -> by congruence.
      destruct (Filter_spec _ _ _ _ _ _ Hf) as [Hall _].
      apply Forall2_cons_1 in Hall as [Hat _].
      destruct (Hnew repl) as [Hal Hnin]; [left|].
      eapply replace_ok; try done. by eapply Hnin.
  - intros ns query upd limit r. unfold update. rewrite run_bind.
    destruct (update_staged ns query upd limit w) as [[err|[early|[clone k]]] w1] eqn:Hrun;
      [done | |].
    + rewrite run_ret. intros [= <- <-].
      by rewrite (update_early _ _ _ _ _ _ _ (Hwf ns) Hrun).
    + intros (_ & -> & ->)%(accepted _ _ {| matched := k; modified := k |}).
      destruct (update_staged_inv _ _ _ _ _ _ _ _ (Hwf ns) Hrun)
        as (n0 & N0 & l & ix & nl & h1 & h2 & N1 & N2 & N3 & Hn0 & HN0 & Hf & _ & Hc
            & Hu & H1 & H2 & H3 & _ & -> & ->).
      destruct Hok as [Hd Hns]. destruct (Hns _ _ Hn0) as (N & HN & HokN).
      assert (N = N0) as -> by congruence.
      apply staged_catalog_ok; [done | by eapply clones_updated_grow |].
      by eapply update_ok.
  - intros ns query limit k. unfold delete. rewrite run_bind.
    destruct (delete_staged ns query limit w) as [[err|[early|[clone k']]] w1] eqn:Hrun;
      [done | |].
    + rewrite run_ret. intros [= <- <-].
      by rewrite (delete_early _ _ _ _ _ _ (Hwf ns) Hrun).
    + intros (_ & -> & ->)%(accepted _ _ k').
      destruct (delete_staged_inv _ _ _ _ _ _ _ (Hwf ns) Hrun)
        as (n0 & N0 & l & ix & Hn0 & HN0 & Hf & _ & -> & ->).
      destruct Hok as [Hd Hns]. destruct (Hns _ _ Hn0) as (N & HN & HokN).
      assert (N = N0) as -> by congruence.
      apply staged_catalog_ok; [done | done |].
      apply delete_ok; [done|]. by destruct (Filter_spec _ _ _ _ _ _ Hf).
Qed.

End Invariant.

(** ** A sorter that keeps the promise *)

Lemma mergeSorter_sorts : sorts mergeSorter.
Proof.
  intros T less l [Hirr Htrans Hinc]. unfold slice_sort, mergeSorter.
  set (R := fun a b : T => less b a = false).
  assert (HT : Transitive R).
  { intros a b c Hab Hbc. unfold R in *. by apply (Hinc c b a). }
  assert (Htot : Total R).
  { intros a b. unfold R. destruct (less b a) eqn:Hba; [|by left]. right.
    destruct (less a b) eqn:Hab; [|done].
    pose proof (Hirr a) as Ha. by rewrite (Htrans a b a Hab Hba) in Ha. }
  split.
  - symmetry. apply merge_sort_Permutation.
  - apply (StronglySorted_merge_sort R).
Qed.

(** C7 at work: three documents sorted in reverse by the merging sorter. *)
Lemma Sort_orders_by_value_witness :
  let h := documents_of [[("k", Int 2)]; [("k", Int 1)]; [("k", Int 2)]] in
  let out := Sort (sorter := mergeSorter) h [0; 1; 2]%nat "k" true in
  [0; 1; 2]%nat ≡ₚ out
  /\ StronglySorted (fun d e => in_order true (valueAt h "k" d) (valueAt h "k" e)) out.
Proof.
  exact (Sort_orders_by_value mergeSorter _ [0; 1; 2]%nat "k" true mergeSorter_sorts).
Defined.

(** ** The catalogs of the scenarios *)

Section Catalogs.
Context {S : Type}.
Implicit Types (w : world S).

(** A document that the collection has transformed is allocated, and
    nothing else has changed. *)
Lemma transform_ok w (d : bsonD) :
  catalog_ok (mem w) (data (self w)) ->
  catalog_ok (mem (transform d w).2) (data (self (transform d w).2)).
Proof.
  intros [Hd Hns]. unfold transform, on_documents. cbn [snd mem self data].
  split; [done|]. intros ns n Hn. destruct (Hns ns n Hn) as (N & HN & Hok).
  exists N. split; [done|]. eapply ns_ok_mono; [|done].
  cbn [documents]. apply insert_subseteq, fresh_unallocated.
Qed.

End Catalogs.

Lemma world_of_ok (refuses : option error) (d : bsonD) :
  let w := world_of refuses [d] in catalog_ok (mem w) (data (self w)).
Proof.
  split; [by eexists|]. intros ns n. unfold Namespaces_of, world_of.
  cbn [mem self data datas namespaces documents].
  rewrite lookup_singleton_eq. cbn [default]. unfold id. intros [<- <-]%lookup_singleton_Some.
  eexists. split; [apply lookup_singleton_eq|].
  split; cbn; try done.
  - apply NoDup_singleton.
  - intros a b ->%list_elem_of_singleton ->%list_elem_of_singleton. done.
  - intros a ->%list_elem_of_singleton. unfold documents_of. cbn.
    rewrite lookup_insert_eq. by eexists.
Qed.

Lemma world_of_nothing_ok (refuses : option error) :
  let w := world_of refuses [] in catalog_ok (mem w) (data (self w)).
Proof.
  split; [by eexists|]. intros ns n. unfold Namespaces_of, world_of.
  cbn [mem self data datas namespaces documents].
  rewrite lookup_singleton_eq. cbn [default]. unfold id. intros [<- <-]%lookup_singleton_Some.
  eexists. split; [apply lookup_singleton_eq|]. apply ns_ok_Prepare.
Qed.

(** ** [insert] takes the whole batch or nothing *)

Lemma add_steps_documents h (list : List) i N N' :
  steps (add_document h) i list N = (None, N') ->
  Documents N' = Documents N ++ list.
Proof.
  revert i N. induction list as [|doc list IH]; intros i N.
  - intros [= <-]. by rewrite app_nil_r.
  - cbn [steps]. unfold add_document at 1.
    destruct (Index_Set h (primaryIndex N) doc) as [[] index]; cbn [negb]; [|done].
    intros Hsteps. rewrite (IH _ _ Hsteps). cbn [Documents with_Documents].
    by rewrite <- app_assoc.
Qed.

Lemma add_steps_error h (list : List) i N err N' :
  steps (add_document h) i list N = (Some err, N') ->
  err = "document with same _id exists already".
Proof.
  revert i N. induction list as [|doc list IH]; intros i N; [done|].
  cbn [steps]. unfold add_document at 1.
  destruct (Index_Set h (primaryIndex N) doc) as [[] index]; cbn [negb].
  - apply IH.
  - by intros [= <- <-].
Qed.

Section InsertFacts.
Context {S : Type} {storage : Store S} {matcher : Matcher} {updater : Updater}.
Implicit Types (w : world S) (N : Namespace) (m : gmap string ptr).

Lemma untouched_refl w : catalog_ok (mem w) (data (self w)) -> untouched w w.
Proof. intros Hok. apply grown_untouched; [done | done | apply Heap_le_refl]. Qed.

Lemma staged_eta w clone m n N dd :
  {| mem := mem (staged w clone m n N dd);
     self := {| store := store (self w); data := data (self w) |} |}
  = staged w clone m n N dd.
Proof. by destruct w as [hm [st dt]]. Qed.

(** The namespace [insert] adds to. *)
Lemma insert_target w ns :
  catalog_ok (mem w) (data (self w)) ->
  exists N0,
    match Namespaces_of (mem w) (data (self w)) !! ns with
    | Some n0 => namespaces (mem w) !! n0 = Some N0
    | None => N0 = Prepare (documents (mem w)) ns [] []
    end
    /\ ns_ok (documents (mem w)) N0
    /\ documents_in (mem w) (data (self w)) ns = Documents N0.
Proof.
  intros [_ Hns]. unfold documents_in.
  destruct (Namespaces_of (mem w) (data (self w)) !! ns) as [n0|] eqn:Hn0.
  - destruct (Hns _ _ Hn0) as (N0 & HN0 & Hok0). exists N0.
    cbn [mbind option_bind]. by rewrite HN0.
  - eexists. split; [done|]. split; [apply ns_ok_Prepare | done].
Qed.

(** C3, amended.  [insert] has no [ordered] flag and inserts no part of a
    batch.  A batch with a document that lacks [_id] is rejected before
    anything is done; a batch of new documents, one of which has the [_id] of
    another or of a document of the namespace, is rejected by the staged
    index; whenever [insert] returns an error, readers find the catalog as
    it was; and when it succeeds, the namespace holds its documents followed
    by the whole batch, in order. *)
Theorem insert_takes_all_or_nothing (w : world S) (ns : string) (list : List) :
  catalog_ok (mem w) (data (self w)) ->
  let h := documents (mem w) in
  let without_id := existsb (fun doc => is_Missing (valueAt h "_id" doc)) list in
  (without_id = true ->
     insert ns list w = (inl "document is missng the _id field", w))
  /\ (without_id = false -> handed_over w ns list ->
      (exists d e, d ∈ documents_in (mem w) (data (self w)) ns ++ list
                   /\ e ∈ list /\ d ≠ e
                   /\ Compare (valueAt h "_id" d) (valueAt h "_id" e) = Eq) ->
      exists w', insert ns list w
                 = (inl "document with same _id exists already", w'))
  /\ (forall err w', insert ns list w = (inl err, w') -> untouched w w')
  /\ (forall w', insert ns list w = (inr tt, w') ->
      contents (mem w') (data (self w')) ns
      = Some (map (deref h) (documents_in (mem w) (data (self w)) ns ++ list))).
Proof.
  intros Hok h without_id.
  destruct (insert_target w ns Hok) as (N0 & HN0 & Hok0 & Hin0).
  assert (Hmissing : without_id = true ->
            insert ns list w = (inl "document is missng the _id field", w)).
  { intros Hids. unfold insert, insert_staged. run. fold h. fold without_id.
    by rewrite Hids. }
  assert (Hrun : without_id = false ->
            insert ns list w
            = match steps (add_document h) 0 list N0 with
              | (Some err, N') =>
                  (inl err,
                   staged w (fresh (dom (datas (mem w))))
                     (<[ns := fresh (dom (namespaces (mem w)))]>
                        (Namespaces_of (mem w) (data (self w))))
                     (fresh (dom (namespaces (mem w)))) N' h)
              | (None, N') =>
                  (_ ← store_Store (fresh (dom (datas (mem w))));
                   set_e_data (fresh (dom (datas (mem w)))))
                    (staged w (fresh (dom (datas (mem w))))
                       (<[ns := fresh (dom (namespaces (mem w)))]>
                          (Namespaces_of (mem w) (data (self w))))
                       (fresh (dom (namespaces (mem w)))) N' h)
              end).
  { intros Hids. unfold insert. rewrite run_bind.
    rewrite (insert_staged_run w ns list N0 Hids HN0). fold h.
    by destruct (steps (add_document h) 0 list N0) as [[err|] N']. }
  split_and!.
  - exact Hmissing.
  - intros Hids [Hnd Hnew] (d & e & Hd & He & Hne & Heq).
    rewrite (Hrun Hids).
    destruct (steps (add_document h) 0 list N0) as [[err|] N'] eqn:Hsteps.
    + rewrite (add_steps_error _ _ _ _ _ _ Hsteps). by eexists.
    + exfalso. destruct (insert_ok h list 0 N0 N') as [Hok' Hdocs']; try done.
      { intros doc Hdoc. destruct (Hnew doc Hdoc) as [Hal Hnin]. split; [|done].
        rewrite <- Hin0. unfold documents_in.
        destruct (Namespaces_of (mem w) (data (self w)) !! ns) as [n0|] eqn:Hn0;
          [|apply not_elem_of_nil].
        cbn [mbind option_bind]. rewrite HN0. cbn. by eapply Hnin. }
      apply (ok_ids _ _ Hok' d e); rewrite ?Hdocs', <- ?Hin0; try done.
      apply elem_of_app. by right.
  - intros err w'. destruct without_id eqn:Hids.
    + rewrite (Hmissing eq_refl). intros [= <- <-]. by apply untouched_refl.
    + rewrite (Hrun eq_refl).
      destruct (steps (add_document h) 0 list N0) as [[err'|] N'].
      * intros [= <- <-]. rewrite <- staged_eta. by apply staged_untouched.
      * rewrite run_bind. unfold store_Store.
        destruct (Store_Store _ _ _) as [s' [e|]]; [|done].
        intros [= <- <-]. by apply staged_untouched.
  - intros w'. destruct without_id eqn:Hids.
    + by rewrite (Hmissing eq_refl).
    + rewrite (Hrun eq_refl).
      destruct (steps (add_document h) 0 list N0) as [[err'|] N'] eqn:Hsteps; [done|].
      intros (_ & -> & ->)%(accepted _ _ tt).
      unfold contents. rewrite staged_Namespaces, lookup_insert_eq.
      unfold staged. cbn [mem namespaces documents mbind option_bind].
      rewrite lookup_insert_eq. cbn [mbind option_bind].
      by rewrite (add_steps_documents _ _ _ _ _ Hsteps), Hin0.
Qed.

End InsertFacts.

(** ** [replace] and the [_id] of the replacement *)

Lemma conflicts_inv h (i : mongokit.Index) (doc : ptr) :
  columns i = [{| Path := "_id" |}] ->
  conflicts h i doc = true ->
  exists e, e ∈ entries i /\ e ≠ doc
            /\ Compare (valueAt h "_id" e) (valueAt h "_id" doc) = Eq.
Proof.
  intros Hc (e & Hin & [Hne Heq]%andb_true_iff)%existsb_exists.
  exists e. split_and!.
  - by apply list_elem_of_In.
  - by apply Nat.eqb_neq, negb_true_iff.
  - by apply (keys_equal_id h i).
Qed.

Section ReplaceFacts.
Context {S : Type} {storage : Store S} {matcher : Matcher} {updater : Updater}.
Implicit Types (w : world S) (N : Namespace) (m : gmap string ptr).

(** [replace] from the clone on, given what the filter selected. *)
Lemma replace_staged_run w ns query repl n0 N0 list_0 list index_0 index :
  Namespaces_of (mem w) (data (self w)) !! ns = Some n0 ->
  namespaces (mem w) !! n0 = Some N0 ->
  is_Missing (valueAt (documents (mem w)) "_id" repl) = false ->
  Filter (documents (mem w)) (Documents N0) query 1
  = inr (list_0 :: list, index_0 :: index) ->
  let h := documents (mem w) in
  let clone := fresh (dom (datas (mem w))) in
  let n := fresh (dom (namespaces (mem w))) in
  let m := <[ns := n]> (Namespaces_of (mem w) (data (self w))) in
  let set := Index_Set h (Index_Delete h (primaryIndex N0) list_0) repl in
  replace_staged ns query repl w
  = if set.1
    then (inr (inr clone),
          staged w clone m n
            {| Name := Name N0;
               Documents := <[index_0 := repl]> (Documents N0);
               Indexes := Indexes N0;
               primaryIndex := set.2 |} h)
    else (inl "document with same _id exists already",
          staged w clone m n
            (with_primaryIndex N0 set.2) h).
Proof.
  intros Hn0 HN0 Hid Hf. cbv zeta.
  destruct (Filter_spec _ _ _ _ _ _ Hf) as [Hall _].
  apply Forall2_cons_1 in Hall as [Hat%lookup_lt_Some _].
  unfold replace_staged. run. rewrite Hn0. run. rewrite Hid.
  rewrite ?run_bind, (load_run _ _ _ HN0). run. rewrite Hf. run.
  stage_clone Hn0 HN0.
  rewrite (staged_namespace_at _ _ _ _ _ _ ns) by apply lookup_insert_eq.
  rewrite run_bind, staged_primaryIndex_Delete.
  rewrite run_bind, staged_primaryIndex_Set. cbn [primaryIndex with_primaryIndex].
  destruct (Index_Set _ _ repl) as [[] index']; cbn [negb fst snd]; [|done].
  rewrite run_bind, staged_set_document.
  cbn [Documents with_Documents with_primaryIndex].
  by rewrite bool_decide_eq_true_2.
Qed.

(** C4, amended.  [replace] neither takes the [_id] from the selected
    document nor compares the two.  On a namespace that exists, a
    replacement without [_id] is rejected, and nothing is done.  A
    replacement with an [_id] is rejected when a document other than the
    selected one has an equal [_id]; otherwise, whatever its [_id], it is
    staged as it is at the position of the selected document and handed to
    the store. *)
Theorem replace_keeps_the_id_of_the_replacement (w : world S) (ns : string)
    (query : bsonD) (repl n : ptr) (N : Namespace) :
  catalog_ok (mem w) (data (self w)) ->
  Namespaces_of (mem w) (data (self w)) !! ns = Some n ->
  namespaces (mem w) !! n = Some N ->
  let h := documents (mem w) in
  (is_Missing (valueAt h "_id" repl) = true ->
     replace ns query repl w = (inl "document is missng the _id field", w))
  /\ forall list_0 list index_0 index,
       is_Missing (valueAt h "_id" repl) = false ->
       Filter h (Documents N) query 1 = inr (list_0 :: list, index_0 :: index) ->
       ((exists e, e ∈ Documents N /\ e ≠ list_0 /\ e ≠ repl
                   /\ Compare (valueAt h "_id" e) (valueAt h "_id" repl) = Eq) ->
        exists w', replace ns query repl w
                   = (inl "document with same _id exists already", w'))
       /\ ((forall e, e ∈ Documents N -> e ≠ list_0 -> e ≠ repl ->
              Compare (valueAt h "_id" e) (valueAt h "_id" repl) ≠ Eq) ->
           exists clone w1,
             replace_staged ns query repl w = (inr (inr clone), w1)
             /\ documents (mem w1) = h
             /\ contents (mem w1) clone ns
                = Some (<[index_0 := deref h repl]> (map (deref h) (Documents N)))).
Proof.
  intros [_ Hns] Hn HN h.
  destruct (Hns _ _ Hn) as (N' & HN' & [Hu Hc Hnd Hix Hids Hal]).
  assert (N' = N) as -> by congruence.
  split.
  - intros Hid. unfold replace, replace_staged. run. rewrite Hn. run. fold h.
    by rewrite Hid.
  - intros list_0 list index_0 index Hid Hf.
    pose proof (replace_staged_run w ns query repl n N _ _ _ _ Hn HN Hid Hf) as Hrun.
    cbv zeta in Hrun. fold h in Hrun.
    set (index' := Index_Delete h (primaryIndex N) list_0) in *.
    assert (Hc' : columns index' = [{| Path := "_id" |}]) by done.
    assert (He' : forall e, e ∈ entries index' <-> e ∈ Documents N /\ e ≠ list_0).
    { intros e. unfold index'. rewrite Index_Delete_entries, list_elem_of_filter, Hix.
      tauto. }
    split.
    + intros (e & He & Hne0 & Hne & Heq).
      assert (Hconf : conflicts h index' repl = true).
      { apply (conflicts_true h index' repl Hc' e); [by apply He' | done | done]. }
      unfold replace. rewrite run_bind, Hrun. unfold Index_Set.
      assert (unique index' = true) as -> by done.
      rewrite Hconf. cbn [andb fst]. by eexists.
    + intros Hfree.
      assert (Hconf : conflicts h index' repl = false).
      { destruct (conflicts h index' repl) eqn:Hconf; [|done].
        destruct (conflicts_inv _ _ _ Hc' Hconf) as (e & [He Hne0]%He' & Hne & Heq).
        by destruct (Hfree e). }
      assert (Hset : (Index_Set h index' repl).1 = true).
      { unfold Index_Set. rewrite Hconf, andb_false_r. by case_bool_decide. }
      rewrite Hrun, Hset. eexists _, _. split; [done|]. split; [done|].
      unfold contents. rewrite staged_Namespaces, lookup_insert_eq.
      unfold staged. cbn [mem namespaces documents mbind option_bind].
      rewrite lookup_insert_eq. cbn [mbind option_bind Documents].
      by rewrite list_fmap_insert.
Qed.

End ReplaceFacts.

(** C1 at work: a store that refuses, and a [delete] that had selected a
    document. *)
Lemma store_error_leaves_the_catalog_witness :
  let w := world_of (Some "disk full") [[("_id", Int 7); ("x", Int 1)]] in
  exists w',
    delete (matcher := equalityMatcher) "db.c" [("_id", Int 7)] 0 w
    = (inl "disk full", w')
    /\ untouched (matcher := equalityMatcher) w w'.
Proof.
  intros w.
  pose (w1 := (delete_staged (matcher := equalityMatcher) "db.c" [("_id", Int 7)] 0 w).2).
  assert (Hrun : delete_staged (matcher := equalityMatcher) "db.c" [("_id", Int 7)] 0 w
                 = (inr (inr (1%nat, 1%nat)), w1)) by (vm_compute; reflexivity).
  assert (Hstore : Store_Store (store (self w1)) (mem w1) 1%nat
                   = ({| refuses := Some "disk full"; handed := [] |},
                      Some "disk full")) by (vm_compute; reflexivity).
  eexists.
  exact (proj2 (proj2 (proj2
           (store_error_leaves_the_catalog (matcher := equalityMatcher)
              (updater := setUpdater) w w1 1%nat _ _
              (world_of_ok _ _) Hstore)))
           "db.c" [("_id", Int 7)] 0 1%nat Hrun).
Defined.

(** C3 at work: a batch of one document without [_id]. *)
Lemma insert_takes_all_or_nothing_witness :
  let w := (transform [("x", Int 1)] (world_of None [])).2 in
  insert (storage := testStore_Store) "db.c" [0%nat] w
  = (inl "document is missng the _id field", w).
Proof.
  intros w.
  refine (proj1 (insert_takes_all_or_nothing (matcher := equalityMatcher) w "db.c"
                   [0%nat] _) _).
  - apply transform_ok, world_of_nothing_ok.
  - vm_compute. reflexivity.
Defined.

(** C4 at work: [{_id:7,x:1}] replaced by [{_id:8,y:3}]. *)
Lemma replace_keeps_the_id_of_the_replacement_witness :
  let w := (transform [("_id", Int 8); ("y", Int 3)]
              (world_of None [[("_id", Int 7); ("x", Int 1)]])).2 in
  exists clone w1,
    replace_staged (matcher := equalityMatcher) "db.c" [("_id", Int 7)] 1%nat w
    = (inr (inr clone), w1)
    /\ documents (mem w1) = documents (mem w)
    /\ contents (mem w1) clone "db.c"
       = Some (<[0%nat := deref (documents (mem w)) 1%nat]>
                 (map (deref (documents (mem w))) [0%nat])).
Proof.
  intros w.
  refine (proj2 (proj2 (replace_keeps_the_id_of_the_replacement
                          (storage := testStore_Store) (matcher := equalityMatcher)
                          w "db.c" [("_id", Int 7)] 1%nat 0%nat
                          (Prepare (documents_of [[("_id", Int 7); ("x", Int 1)]])
                             "db.c" [0%nat] [])
                          _ _ _)
                   0%nat [] 0%nat [] _ _) _).
  - apply transform_ok, world_of_ok.
  - vm_compute. reflexivity.
  - vm_compute. reflexivity.
  - vm_compute. reflexivity.
  - vm_compute. reflexivity.
  - intros e He Hne. exfalso. apply Hne. revert He. cbn [Documents Prepare].
    by intros ->%list_elem_of_singleton.
Defined.

(** C6 at work: a second document inserted into [db.c]. *)
Lemma operations_keep_the_catalog_witness :
  let w := (transform [("_id", Int 8); ("x", Int 2)]
              (world_of None [[("_id", Int 7); ("x", Int 1)]])).2 in
  let w' := (insert (storage := testStore_Store) "db.c" [1%nat] w).2 in
  catalog_ok (mem w') (data (self w')).
Proof.
  intros w w'.
  refine (proj1 (operations_keep_the_catalog (storage := testStore_Store)
                   (matcher := equalityMatcher) (updater := setUpdater) w w' _)
            "db.c" [1%nat] _ _).
  - apply transform_ok, world_of_ok.
  - split; [apply NoDup_singleton|].
    intros doc ->%list_elem_of_singleton. split; [vm_compute; by eexists|].
    intros n N Hn HN. vm_compute in Hn. injection Hn as <-.
    vm_compute in HN. injection HN as <-.
    cbn [Documents]. by intros ?%list_elem_of_singleton.
  - vm_compute. reflexivity.
Defined.

(* ================================================================== *)
(** * Part III: further properties of the code *)
(* ================================================================== *)

(** ** Whatever goes wrong, the catalog stays *)

Section Errors.
Context {S : Type} {storage : Store S} {matcher : Matcher} {updater : Updater}.
Implicit Types (w : world S) (N : Namespace) (m : gmap string ptr).

(** [w'] has the engine of [w], and all that [w] has allocated. *)
Let grown w w' : Prop :=
  self w' = self w /\ Heap_le (mem w) (mem w').

Lemma grown_refl w : grown w w.
Proof. split; [done | apply Heap_le_refl]. Qed.

Lemma grown_staged w m N dd :
  documents (mem w) ⊆ dd ->
  grown w (staged w (fresh (dom (datas (mem w)))) m
             (fresh (dom (namespaces (mem w)))) N dd).
Proof. intros Hdd. split; [done | by apply staged_grows]. Qed.

Lemma replace_staged_grown w ns query repl r w1 :
  (forall n0, Namespaces_of (mem w) (data (self w)) !! ns = Some n0 ->
              is_Some (namespaces (mem w) !! n0)) ->
  replace_staged ns query repl w = (r, w1) -> grown w w1.
Proof.
  intros Hwf.
  destruct (Namespaces_of (mem w) (data (self w)) !! ns) as [n0|] eqn:Hn0.
  2: { unfold replace_staged. run. rewrite Hn0. intros [= <- <-]. apply grown_refl. }
  destruct (Hwf n0 eq_refl) as [N0 HN0].
  destruct (is_Missing (valueAt (documents (mem w)) "_id" repl)) eqn:Hid.
  { unfold replace_staged. run. rewrite Hn0. run. rewrite Hid.
    intros [= <- <-]. apply grown_refl. }
  destruct (Filter (documents (mem w)) (Documents N0) query 1)
    as [err|[[|list_0 list] [|index_0 index]]] eqn:Hf.
  5: { rewrite (replace_staged_run w ns query repl n0 N0 _ _ _ _ Hn0 HN0 Hid Hf).
       destruct (Index_Set _ _ repl).1; intros [= <- <-]; by apply grown_staged. }
  all: unfold replace_staged; run; rewrite Hn0; run; rewrite Hid;
    rewrite ?run_bind, (load_run _ _ _ HN0); run; rewrite Hf;
    intros [= <- <-]; apply grown_refl.
Qed.

Lemma delete_staged_grown w ns query limit r w1 :
  (forall n0, Namespaces_of (mem w) (data (self w)) !! ns = Some n0 ->
              is_Some (namespaces (mem w) !! n0)) ->
  delete_staged ns query limit w = (r, w1) -> grown w w1.
Proof.
  intros Hwf. unfold delete_staged. run.
  destruct (Namespaces_of (mem w) (data (self w)) !! ns) as [n0|] eqn:Hn0;
    [|intros [= <- <-]; apply grown_refl].
  destruct (Hwf n0 eq_refl) as [N0 HN0].
  rewrite ?run_bind, (load_run _ _ _ HN0). run.
  destruct (Filter (documents (mem w)) (Documents N0) query limit)
    as [err|[list index]] eqn:Hf; [intros [= <- <-]; apply grown_refl|].
  stage_clone Hn0 HN0.
  rewrite (staged_namespace_at _ _ _ _ _ _ ns) by apply lookup_insert_eq.
  rewrite run_bind, staged_load, run_bind, staged_save.
  rewrite run_bind, (unindex_loop _ _ _ _ _ ns) by apply lookup_insert_eq.
  run. intros [= <- <-]. by apply grown_staged.
Qed.

Lemma update_staged_grown w ns query upd limit r w1 :
  (forall n0, Namespaces_of (mem w) (data (self w)) !! ns = Some n0 ->
              is_Some (namespaces (mem w) !! n0)) ->
  update_staged ns query upd limit w = (r, w1) -> grown w w1.
Proof.
  intros Hwf. unfold update_staged. run.
  destruct (Namespaces_of (mem w) (data (self w)) !! ns) as [n0|] eqn:Hn0;
    [|intros [= <- <-]; apply grown_refl].
  destruct (Hwf n0 eq_refl) as [N0 HN0].
  rewrite ?run_bind, (load_run _ _ _ HN0). run.
  destruct (Filter (documents (mem w)) (Documents N0) query limit)
    as [err|[list index]] eqn:Hf; [intros [= <- <-]; apply grown_refl|].
  destruct list as [|list_0 list]; [intros [= <- <-]; apply grown_refl|].
  change (length (list_0 :: list) =? 0)%nat with false. cbv iota.
  rewrite run_bind. unfold on_documents at 1. cbn [mem self datas namespaces documents].
  destruct (CloneList (documents (mem w)) (list_0 :: list)) as [newList h1] eqn:Hc.
  rewrite run_bind. unfold on_documents at 1. cbn [mem self datas namespaces documents].
  destruct (Update h1 newList upd false) as [e h2] eqn:Hu.
  pose proof (clones_updated_grow _ _ _ _ _ _ _ _ Hc Hu) as Hle.
  destruct e as [err|].
  { run. intros [= <- <-]. split; [done|]. by split_and!. }
  run. rewrite Namespaces_of_same.
  (erewrite namespace_at_run; [|cbn [mem]; rewrite Namespaces_of_new; eassumption]).
  run. rewrite ?run_bind. (erewrite load_run; [|exact HN0]). run.
  rewrite Namespace_eta, Namespaces_of_new, insert_insert_eq.
  set (clone' := fresh (dom (datas (mem w)))).
  set (n := fresh (dom (namespaces (mem w)))).
  set (m := <[ns := n]> (Namespaces_of (mem w) (data (self w)))).
  change {| mem := {| datas := <[clone' := m]> (datas (mem w));
                      namespaces := <[n := N0]> (namespaces (mem w));
                      documents := h2 |};
            self := self w |}
    with (staged w clone' m n N0 h2).
  assert (Hm : m !! ns = Some n) by apply lookup_insert_eq.
  rewrite (unindex_loop _ _ _ _ _ ns _ _ Hm).
  set (N1 := (steps (unindex_document h2) 0 (list_0 :: list) N0).2).
  pose proof (index_loop w clone' m n h2 ns newList N1 Hm) as Hindex.
  unfold fail in Hindex. rewrite run_bind, Hindex.
  destruct (steps (index_document h2) 0 newList N1) as [[err|] N2] eqn:H2;
    cbn [fst snd returned]; [intros [= <- <-]; by apply grown_staged|].
  pose proof (place_loop w clone' m n h2 ns index newList N2 Hm) as Hplace.
  unfold panic, fail in Hplace. rewrite run_bind, Hplace.
  destruct (steps (place_document index) 0 newList N2) as [[err|] N3] eqn:H3;
    cbn [fst snd returned]; [intros [= <- <-]; by apply grown_staged|].
  run. intros [= <- <-]. by apply grown_staged.
Qed.

(** What follows the staging: the store is called, and only then the engine
    takes the clone. *)
Lemma refused_after {T} w1 clone (x : T) err w' :
  (_ ← store_Store clone; _ ← set_e_data clone; mret x) w1 = (inl err, w') ->
  mem w' = mem w1 /\ data (self w') = data (self w1).
Proof.
  rewrite run_bind. unfold store_Store.
  destruct (Store_Store (store (self w1)) (mem w1) clone) as [s' [e|]]; [|done].
  by intros [= <- <-].
Qed.

(** X1. Whenever [replace], [update] or [delete] returns an error, whichever
    it is, readers of the engine find the catalog as it was: the engine
    points to the same [Data] object, nothing that was allocated has
    changed, and every namespace holds the documents it held. *)
Theorem errors_leave_the_catalog (w w' : world S) (err : error) :
  catalog_ok (mem w) (data (self w)) ->
  (forall ns query repl,
     replace ns query repl w = (inl err, w') -> untouched w w')
  /\ (forall ns query upd limit,
        update ns query upd limit w = (inl err, w') -> untouched w w')
  /\ (forall ns query limit,
        delete ns query limit w = (inl err, w') -> untouched w w').
Proof.
  intros Hok.
  assert (Hwf : forall ns n0, Namespaces_of (mem w) (data (self w)) !! ns = Some n0 ->
                  is_Some (namespaces (mem w) !! n0))
    by (intros ns n0; by apply catalog_ok_allocated).
  assert (Hgrown : forall w1, grown w w1 -> mem w' = mem w1 ->
            data (self w') = data (self w1) -> untouched w w').
  { intros w1 [Hself Hle] Hmem Hdata. apply grown_untouched; [done | |].
    - by rewrite Hdata, Hself.
    - by rewrite Hmem. }
  split_and!.
  - intros ns query repl. unfold replace. rewrite run_bind.
    destruct (replace_staged ns query repl w) as [[e|[early|clone]] w1] eqn:Hrun.
    + intros [= <- <-]. apply (Hgrown w1); [|done..].
      eapply replace_staged_grown; [apply Hwf | exact Hrun].
    + done.
    + intros [Hmem Hdata]%refused_after. apply (Hgrown w1); [|done..].
      eapply replace_staged_grown; [apply Hwf | exact Hrun].
  - intros ns query upd limit. unfold update. rewrite run_bind.
    destruct (update_staged ns query upd limit w) as [[e|[early|[clone k]]] w1] eqn:Hrun.
    + intros [= <- <-]. apply (Hgrown w1); [|done..].
      eapply update_staged_grown; [apply Hwf | exact Hrun].
    + done.
    + intros [Hmem Hdata]%refused_after. apply (Hgrown w1); [|done..].
      eapply update_staged_grown; [apply Hwf | exact Hrun].
  - intros ns query limit. unfold delete. rewrite run_bind.
    destruct (delete_staged ns query limit w) as [[e|[early|[clone k]]] w1] eqn:Hrun.
    + intros [= <- <-]. apply (Hgrown w1); [|done..].
      eapply delete_staged_grown; [apply Hwf | exact Hrun].
    + done.
    + intros [Hmem Hdata]%refused_after. apply (Hgrown w1); [|done..].
      eapply delete_staged_grown; [apply Hwf | exact Hrun].
Qed.

Lemma insert_staged_grown w ns list r w1 :
  (forall n0, Namespaces_of (mem w) (data (self w)) !! ns = Some n0 ->
              is_Some (namespaces (mem w) !! n0)) ->
  insert_staged ns list w = (r, w1) -> grown w w1.
Proof.
  intros Hwf.
  destruct (existsb (fun doc => is_Missing (valueAt (documents (mem w)) "_id" doc))
              list) eqn:Hids.
  { unfold insert_staged. run. rewrite Hids. intros [= <- <-]. apply grown_refl. }
  assert (HN0 : exists N0,
            match Namespaces_of (mem w) (data (self w)) !! ns with
            | Some n0 => namespaces (mem w) !! n0 = Some N0
            | None => N0 = Prepare (documents (mem w)) ns [] []
            end).
  { destruct (Namespaces_of (mem w) (data (self w)) !! ns) as [n0|] eqn:Hn0.
    - destruct (Hwf n0 eq_refl) as [N0 HN0]. by exists N0.
    - by eexists. }
  destruct HN0 as [N0 HN0].
  rewrite (insert_staged_run w ns list N0 Hids HN0).
  intros [= <- <-]. by apply grown_staged.
Qed.

(** The call of the store and what follows it: either the engine keeps its
    catalog, or the store has accepted the clone and the engine takes it. *)
Lemma stored_then_published {T} w1 clone (x : T) r w' :
  (_ ← store_Store clone; _ ← set_e_data clone; mret x) w1 = (r, w') ->
  mem w' = mem w1
  /\ (data (self w') = data (self w1)
      \/ Store_Store (store (self w1)) (mem w1) clone = (store (self w'), None)
         /\ data (self w') = clone).
Proof.
  rewrite run_bind. unfold store_Store.
  destruct (Store_Store (store (self w1)) (mem w1) clone) as [s' [e|]].
  - intros [= <- <-]. split; [done | by left].
  - rewrite run_bind. unfold set_e_data. cbn [mem self]. rewrite run_ret.
    intros [= <- <-]. split; [done | by right].
Qed.

(** X2. The engine takes a new catalog only after the store has accepted it.
    Whatever [insert], [replace], [update] or [delete] returns, either the
    engine points to the catalog it pointed to, or it points to a new
    catalog object, and the store of before has been handed that very object
    in the memory in which the operation ends, and has returned no error. *)
Theorem published_only_when_stored (w w' : world S) :
  catalog_ok (mem w) (data (self w)) ->
  let kept_or_stored :=
    data (self w') = data (self w)
    \/ (datas (mem w) !! data (self w') = None
        /\ Store_Store (store (self w)) (mem w') (data (self w'))
           = (store (self w'), None)) in
  (forall ns list r, insert ns list w = (r, w') -> kept_or_stored)
  /\ (forall ns query repl r, replace ns query repl w = (r, w') -> kept_or_stored)
  /\ (forall ns query upd limit r,
        update ns query upd limit w = (r, w') -> kept_or_stored)
  /\ (forall ns query limit r, delete ns query limit w = (r, w') -> kept_or_stored).
Proof.
  intros Hok kept_or_stored.
  assert (Hwf : forall ns n0, Namespaces_of (mem w) (data (self w)) !! ns = Some n0 ->
                  is_Some (namespaces (mem w) !! n0))
    by (intros ns n0; by apply catalog_ok_allocated).
  assert (Hkept : forall w1, grown w w1 -> w' = w1 -> kept_or_stored).
  { intros w1 [Hself _] ->. left. by rewrite Hself. }
  assert (Hstored : forall T w1 (x : T) r,
            grown w w1 ->
            (_ ← store_Store (fresh (dom (datas (mem w))));
             _ ← set_e_data (fresh (dom (datas (mem w)))); mret x) w1 = (r, w') ->
            kept_or_stored).
  { intros T w1 x r [Hself _] [Hmem [Hdata | [Hst Hdata]]]%stored_then_published.
    - left. by rewrite Hdata, Hself.
    - right. rewrite Hdata, Hmem, <- Hself. split; [apply fresh_unallocated | done]. }
  split_and!.
  - intros ns list r. unfold insert. rewrite run_bind.
    destruct (insert_staged ns list w) as [[e|clone] w1] eqn:Hrun.
    + intros [= <- <-]. eapply Hkept; [|done].
      eapply insert_staged_grown; [apply Hwf | exact Hrun].
    + destruct (insert_staged_inv _ _ _ _ _ (Hwf ns) Hrun)
        as (N0 & N' & _ & _ & _ & Hclone & _).
      rewrite Hclone. intros Htail.
      apply (Hstored unit w1 tt (fmap (fun _ => tt) r)).
      * eapply insert_staged_grown; [apply Hwf | exact Hrun].
      * revert Htail. rewrite !run_bind. unfold store_Store.
        destruct (Store_Store (store (self w1)) (mem w1) _) as [s' [e|]];
          [by intros [= <- <-]|].
        rewrite run_bind. unfold set_e_data. by intros [= <- <-].
  - intros ns query repl r. unfold replace. rewrite run_bind.
    destruct (replace_staged ns query repl w) as [[e|[early|clone]] w1] eqn:Hrun.
    + intros [= <- <-]. eapply Hkept; [|done].
      eapply replace_staged_grown; [apply Hwf | exact Hrun].
    + rewrite run_ret. intros [= <- <-]. eapply Hkept; [|done].
      eapply replace_staged_grown; [apply Hwf | exact Hrun].
    + destruct (replace_staged_inv _ _ _ _ _ _ (Hwf ns) Hrun)
        as (n0 & N0 & l0 & l & i0 & ix & idx & _ & _ & _ & _ & _ & _ & Hclone & _).
      rewrite Hclone. apply Hstored.
      eapply replace_staged_grown; [apply Hwf | exact Hrun].
  - intros ns query upd limit r. unfold update. rewrite run_bind.
    destruct (update_staged ns query upd limit w) as [[e|[early|[clone k]]] w1] eqn:Hrun.
    + intros [= <- <-]. eapply Hkept; [|done].
      eapply update_staged_grown; [apply Hwf | exact Hrun].
    + rewrite run_ret. intros [= <- <-]. eapply Hkept; [|done].
      eapply update_staged_grown; [apply Hwf | exact Hrun].
    + destruct (update_staged_inv _ _ _ _ _ _ _ _ (Hwf ns) Hrun)
        as (n0 & N0 & l & ix & nl & h1 & h2 & N1 & N2 & N3 & _ & _ & _ & _ & _ & _
            & _ & _ & _ & _ & Hclone & _).
      rewrite Hclone. apply Hstored.
      eapply update_staged_grown; [apply Hwf | exact Hrun].
  - intros ns query limit r. unfold delete. rewrite run_bind.
    destruct (delete_staged ns query limit w) as [[e|[early|[clone k]]] w1] eqn:Hrun.
    + intros [= <- <-]. eapply Hkept; [|done].
      eapply delete_staged_grown; [apply Hwf | exact Hrun].
    + rewrite run_ret. intros [= <- <-]. eapply Hkept; [|done].
      eapply delete_staged_grown; [apply Hwf | exact Hrun].
    + destruct (delete_staged_inv _ _ _ _ _ _ _ (Hwf ns) Hrun)
        as (n0 & N0 & l & ix & _ & _ & _ & _ & Hclone & _).
      rewrite Hclone. apply Hstored.
      eapply delete_staged_grown; [apply Hwf | exact Hrun].
Qed.

End Errors.

(** ** What a successful operation leaves *)

Section Outcomes.
Context {S : Type} {storage : Store S} {matcher : Matcher} {updater : Updater}.
Implicit Types (w : world S) (N : Namespace) (m : gmap string ptr).

(** The namespace an operation has staged, read through the clone. *)
Lemma staged_contents w clone m n N dd ns :
  contents (mem (staged w clone (<[ns := n]> m) n N dd)) clone ns
  = Some (map (deref dd) (Documents N)).
Proof.
  unfold contents. rewrite staged_Namespaces, lookup_insert_eq.
  unfold staged. cbn [mem namespaces documents mbind option_bind].
  by rewrite lookup_insert_eq.
Qed.

Lemma staged_documents_in w clone m n N dd ns :
  documents_in (mem (staged w clone (<[ns := n]> m) n N dd)) clone ns
  = Documents N.
Proof.
  unfold documents_in. rewrite staged_Namespaces, lookup_insert_eq.
  unfold staged. cbn [mem namespaces documents mbind option_bind].
  by rewrite lookup_insert_eq.
Qed.

(** The other namespaces, read through the clone, are those of the
    catalog. *)
Lemma staged_contents_other w N dd ns ns' :
  catalog_ok (mem w) (data (self w)) ->
  documents (mem w) ⊆ dd ->
  ns' ≠ ns ->
  contents
    (mem (staged w (fresh (dom (datas (mem w))))
            (<[ns := fresh (dom (namespaces (mem w)))]>
               (Namespaces_of (mem w) (data (self w))))
            (fresh (dom (namespaces (mem w)))) N dd))
    (fresh (dom (datas (mem w)))) ns'
  = contents (mem w) (data (self w)) ns'.
Proof.
  intros [_ Hns] Hdd Hne. unfold contents.
  rewrite staged_Namespaces, lookup_insert_ne by done.
  destruct (Namespaces_of (mem w) (data (self w)) !! ns') as [n'|] eqn:Hn'; [|done].
  destruct (Hns _ _ Hn') as (N' & HN' & Hok').
  unfold staged. cbn [mem namespaces documents mbind option_bind].
  rewrite lookup_insert_ne, HN'.
  - cbn [mbind option_bind]. f_equal. apply map_ext_in.
    intros doc Hin%list_elem_of_In. apply deref_subseteq; [done|].
    by apply (ok_allocated _ _ Hok').
  - intros <-. by rewrite fresh_unallocated in HN'.
Qed.

(** X3. [delete] removes the documents that [find] returns for the same query
    and limit, and returns how many they are: what is left of the namespace
    is the [Difference], that is, the documents [find] does not return, in
    their order.  No document is touched, and the other namespaces keep
    their documents.  On a namespace that does not exist this reads: nothing
    is found, nothing removed. *)
Theorem delete_removes_what_find_returns (w w' : world S) (ns : string)
    (query : bsonD) (limit : Z) (k : nat) :
  catalog_ok (mem w) (data (self w)) ->
  delete ns query limit w = (inr k, w') ->
  exists list,
    find ns query limit w = (inr list, w)
    /\ k = length list
    /\ documents_in (mem w') (data (self w')) ns
       = Difference (documents_in (mem w) (data (self w)) ns) list
    /\ (forall doc, doc ∈ documents_in (mem w') (data (self w')) ns
          <-> doc ∈ documents_in (mem w) (data (self w)) ns /\ doc ∉ list)
    /\ documents (mem w') = documents (mem w)
    /\ forall ns', ns' ≠ ns ->
         contents (mem w') (data (self w')) ns' = contents (mem w) (data (self w)) ns'.
Proof.
  intros Hok.
  assert (Hwf : forall n0, Namespaces_of (mem w) (data (self w)) !! ns = Some n0 ->
                  is_Some (namespaces (mem w) !! n0))
    by (intros n0; by apply catalog_ok_allocated).
  unfold delete. rewrite run_bind.
  destruct (delete_staged ns query limit w) as [[err|[early|[clone k']]] w1] eqn:Hrun;
    [done | |].
  - rewrite run_ret. intros [= <- <-].
    rewrite (delete_early _ _ _ _ _ _ Hwf Hrun) in *.
    revert Hrun. unfold delete_staged, find, documents_in. run.
    destruct (Namespaces_of (mem w) (data (self w)) !! ns) as [n0|] eqn:Hn0.
    + destruct (Hwf n0 eq_refl) as [N0 HN0].
      rewrite ?run_bind, (load_run _ _ _ HN0). run.
      destruct (Filter _ _ _ _) as [err|[l ix]]; [done|].
      intros H. repeat (apply bind_inr in H as (? & ? & _ & H)). done.
    + intros [= <-]. exists []. split_and!; try done.
      intros doc. split; [by intros ?%elem_of_nil | by intros [?%elem_of_nil _]].
  - intros (-> & -> & ->)%(accepted _ _ k').
    destruct (delete_staged_inv _ _ _ _ _ _ _ Hwf Hrun)
      as (n0 & N0 & l & ix & Hn0 & HN0 & Hf & -> & -> & ->).
    destruct Hok as [Hd Hns]. destruct (Hns _ _ Hn0) as (N & HN & HokN).
    assert (N = N0) as -> by congruence.
    destruct (Filter_spec _ _ _ _ _ _ Hf) as [_ Hsub].
    assert (Hbefore : documents_in (mem w) (data (self w)) ns = Documents N0).
    { unfold documents_in. rewrite Hn0. cbn [mbind option_bind]. by rewrite HN0. }
    assert (Hafter : (steps (unindex_document (documents (mem w))) 0 l
                        (with_Documents N0 (Difference (Documents N0) l))).2.(Documents)
                     = Difference (Documents N0) l).
    { by rewrite (proj2 (unindex_steps _ _ _ _)). }
    exists l. rewrite staged_documents_in, Hbefore, Hafter. split_and!; try done.
    + unfold find. run. rewrite Hn0, ?run_bind, (load_run _ _ _ HN0). run.
      by rewrite Hf.
    + intros doc. rewrite (Difference_filter _ _ (ok_nodup _ _ HokN) Hsub).
      rewrite list_elem_of_filter. tauto.
    + intros ns' Hne. by apply staged_contents_other.
Qed.

End Outcomes.

(** ** [update] works on copies *)

Lemma index_steps_documents h (news : List) i N r N' :
  steps (index_document h) i news N = (r, N') -> Documents N' = Documents N.
Proof.
  revert i N. induction news as [|y news IH]; intros i N; [by intros [= <- <-]|].
  cbn [steps]. unfold index_document at 1.
  destruct (Index_Set h (primaryIndex N) y) as [[] index]; cbn [negb].
  - intros Hsteps. by rewrite (IH _ _ Hsteps).
  - by intros [= <- <-].
Qed.

Lemma place_steps_length (index : Datatypes.list nat) (news : List) i N r N' :
  steps (place_document index) i news N = (r, N') ->
  length (Documents N') = length (Documents N).
Proof.
  revert i N. induction news as [|y news IH]; intros i N; [by intros [= <- <-]|].
  cbn [steps]. unfold place_document at 1.
  destruct (index !! i) as [k|]; [|by intros [= <- <-]].
  case_bool_decide; [|by intros [= <- <-]].
  intros Hsteps. rewrite (IH _ _ Hsteps). cbn [Documents with_Documents].
  by rewrite length_insert.
Qed.

Lemma place_steps_other (index : Datatypes.list nat) (news : List) i N r N' p :
  steps (place_document index) i news N = (r, N') ->
  p ∉ index ->
  Documents N' !! p = Documents N !! p.
Proof.
  intros Hsteps Hp. revert i N Hsteps.
  induction news as [|y news IH]; intros i N; [by intros [= <- <-]|].
  cbn [steps]. unfold place_document at 1.
  destruct (index !! i) as [k|] eqn:Hk; [|by intros [= <- <-]].
  case_bool_decide; [|by intros [= <- <-]].
  intros Hsteps. rewrite (IH _ _ Hsteps). cbn [Documents with_Documents].
  apply list_lookup_insert_ne. intros ->. apply Hp.
  by eapply list_elem_of_lookup_2.
Qed.

Section UpdateOutcome.
Context {S : Type} {storage : Store S} {matcher : Matcher} {updater : Updater}.
Implicit Types (w : world S) (N : Namespace) (m : gmap string ptr).

(** X4. [update] returns as matched and as modified the number of documents
    that [find] returns for the same query and limit, whether or not the
    update changes them.  It never writes to a document that exists: the
    selected documents are copied, the copies updated and put in the places
    of the originals.  So every document allocated before reads as before,
    the namespace has as many documents as it had, a document that was not
    selected is where it was, and a selected one is no longer in the
    namespace.  The other namespaces keep their documents. *)
Theorem update_works_on_copies (w w' : world S) (ns : string) (query upd : bsonD)
    (limit : Z) (r : result) :
  catalog_ok (mem w) (data (self w)) ->
  update ns query upd limit w = (inr r, w') ->
  exists list,
    find ns query limit w = (inr list, w)
    /\ matched r = length list /\ modified r = length list
    /\ documents (mem w) ⊆ documents (mem w')
    /\ length (documents_in (mem w') (data (self w')) ns)
       = length (documents_in (mem w) (data (self w)) ns)
    /\ (forall i doc,
          documents_in (mem w) (data (self w)) ns !! i = Some doc -> doc ∉ list ->
          documents_in (mem w') (data (self w')) ns !! i = Some doc)
    /\ (forall doc, doc ∈ list -> doc ∉ documents_in (mem w') (data (self w')) ns)
    /\ forall ns', ns' ≠ ns ->
         contents (mem w') (data (self w')) ns' = contents (mem w) (data (self w)) ns'.
Proof.
  intros Hok.
  assert (Hwf : forall n0, Namespaces_of (mem w) (data (self w)) !! ns = Some n0 ->
                  is_Some (namespaces (mem w) !! n0))
    by (intros n0; by apply catalog_ok_allocated).
  unfold update. rewrite run_bind.
  destruct (update_staged ns query upd limit w) as [[err|[early|[clone k]]] w1] eqn:Hrun;
    [done | |].
  - rewrite run_ret. intros [= <- <-].
    rewrite (update_early _ _ _ _ _ _ _ Hwf Hrun) in *.
    exists []. revert Hrun. unfold update_staged, find. run.
    destruct (Namespaces_of (mem w) (data (self w)) !! ns) as [n0|] eqn:Hn0.
    + destruct (Hwf n0 eq_refl) as [N0 HN0].
      rewrite ?run_bind, (load_run _ _ _ HN0). run.
      destruct (Filter _ _ _ _) as [err|[[|l0 l] ix]]; [done | |].
      * intros [= <-]. split_and!; try done. by intros doc ?%elem_of_nil.
      * change (length (l0 :: l) =? 0)%nat with false. cbv iota. intros H.
        apply bind_inr in H as (? & ? & _ & H).
        apply bind_inr in H as ([e|] & ? & _ & H); [done|].
        repeat (apply bind_inr in H as (? & ? & _ & H)). done.
    + intros [= <-]. split_and!; try done. by intros doc ?%elem_of_nil.
  - intros (-> & -> & ->)%(accepted _ _ {| matched := k; modified := k |}).
    destruct (update_staged_inv _ _ _ _ _ _ _ _ Hwf Hrun)
      as (n0 & N0 & l & ix & nl & h1 & h2 & N1 & N2 & N3 & Hn0 & HN0 & Hf & _ & Hc
          & Hu & H1 & H2 & H3 & -> & -> & ->).
    pose proof Hok as [Hd Hns]. destruct (Hns _ _ Hn0) as (N & HN & HokN).
    assert (N = N0) as -> by congruence.
    pose proof (clones_updated_grow _ _ _ _ _ _ _ _ Hc Hu) as Hle.
    destruct (Filter_spec _ _ _ _ _ _ Hf) as [Hall Hsub].
    destruct (CloneList_spec _ _ _ _ Hc) as (_ & Hlen & Hndn & Hnew & _).
    assert (Hbefore : documents_in (mem w) (data (self w)) ns = Documents N0).
    { unfold documents_in. rewrite Hn0. cbn [mbind option_bind]. by rewrite HN0. }
    assert (HD1 : Documents N1 = Documents N0).
    { pose proof (proj2 (unindex_steps h2 l 0 N0)) as E. rewrite H1 in E.
      cbn [snd] in E. by rewrite E. }
    assert (HD2 : Documents N2 = Documents N0)
      by (by rewrite (index_steps_documents _ _ _ _ _ _ H2)).
    exists l. rewrite staged_documents_in, Hbefore. cbn [matched modified].
    split_and!; try done.
    + unfold find. run. rewrite Hn0, ?run_bind, (load_run _ _ _ HN0). run.
      by rewrite Hf.
    + by rewrite (place_steps_length _ _ _ _ _ _ H3), HD2.
    + intros i doc Hi Hdoc. rewrite (place_steps_other _ _ _ _ _ _ i H3), HD2; [done|].
      intros Hin. apply Hdoc.
      destruct (list_elem_of_lookup_1 _ _ Hin) as [j Hj].
      destruct (Forall2_lookup_l _ _ _ _ _ Hall Hj) as (x & Hx & Hat).
      assert (x = doc) as <- by congruence. by eapply list_elem_of_lookup_2.
    + intros doc Hdoc Hin.
      destruct (ns_ok_mono _ _ _ Hle HokN) as [Hun Hco Hnd Hix Hids Hal].
      assert (Hall2 : Forall2 (fun k x => Documents N2 !! k = Some x) ix l)
        by (by rewrite HD2).
      assert (Hnd2 : NoDup (Documents N2)) by (by rewrite HD2).
      assert (Hfresh : forall y, y ∈ nl -> y ∉ Documents N0).
      { intros y Hy Hyin. destruct (Hnew y Hy) as [Hnone _].
        destruct (ok_allocated _ _ HokN y Hyin) as [x Hx]. congruence. }
      assert (Hfresh2 : forall y, y ∈ nl -> y ∉ Documents N2) by (by rewrite HD2).
      assert (Hndl : NoDup l) by exact (sublist_NoDup _ _ Hnd Hsub).
      destruct (place_steps ix l nl N2 N3 Hall2 Hndl Hndn Hnd2 Hfresh2 H3 Hlen)
        as (_ & _ & _ & _ & Hperm).
      rewrite Hperm, HD2 in Hin.
      apply elem_of_app in Hin as [[Hnot _]%list_elem_of_filter | Hin]; [done|].
      apply (Hfresh doc Hin). by eapply sublist_subseteq.
    + intros ns' Hne. by apply staged_contents_other.
Qed.

End UpdateOutcome.

(** ** Counting after [insert] *)

Section InsertOutcome.
Context {S : Type} {storage : Store S} {matcher : Matcher} {updater : Updater}.
Implicit Types (w : world S) (N : Namespace) (m : gmap string ptr).

Lemma numDocuments_run w ns :
  catalog_ok (mem w) (data (self w)) ->
  numDocuments ns w = (inr (length (documents_in (mem w) (data (self w)) ns)), w).
Proof.
  intros [_ Hns]. unfold numDocuments, documents_in. run.
  destruct (Namespaces_of (mem w) (data (self w)) !! ns) as [n|] eqn:Hn; [|done].
  destruct (Hns _ _ Hn) as (N & HN & _).
  rewrite ?run_bind, (load_run _ _ _ HN). cbn [mbind option_bind].
  by rewrite HN.
Qed.

(** X5. After a successful [insert] the namespace exists, also when it did not
    and the batch is empty; [numDocuments] has gone up by the length of the
    batch; every document of the batch has an [_id]; no document has been
    written to, and the other namespaces hold what they held. *)
Theorem insert_adds_to_the_count (w w' : world S) (ns : string) (list : List) :
  catalog_ok (mem w) (data (self w)) ->
  insert ns list w = (inr tt, w') ->
  is_Some (Namespaces_of (mem w') (data (self w')) !! ns)
  /\ (exists c, numDocuments ns w = (inr c, w)
                /\ numDocuments ns w' = (inr (c + length list)%nat, w'))
  /\ (forall doc, doc ∈ list ->
        is_Missing (valueAt (documents (mem w)) "_id" doc) = false)
  /\ documents (mem w') = documents (mem w)
  /\ forall ns', ns' ≠ ns ->
       contents (mem w') (data (self w')) ns' = contents (mem w) (data (self w)) ns'.
Proof.
  intros Hok.
  assert (Hwf : forall n0, Namespaces_of (mem w) (data (self w)) !! ns = Some n0 ->
                  is_Some (namespaces (mem w) !! n0))
    by (intros n0; by apply catalog_ok_allocated).
  destruct (insert_target w ns Hok) as (N0 & HN0 & Hok0 & Hin0).
  unfold insert. rewrite run_bind.
  destruct (insert_staged ns list w) as [[err|clone] w1] eqn:Hrun; [done|].
  intros (_ & Hmem & Hdata)%(accepted _ _ tt).
  destruct (insert_staged_inv _ _ _ _ _ Hwf Hrun)
    as (N0' & N' & HN0' & Hids & Hsteps & -> & ->).
  assert (N0' = N0) as ->.
  { destruct (Namespaces_of (mem w) (data (self w)) !! ns); congruence. }
  pose proof (add_steps_documents _ _ _ _ _ Hsteps) as Hdocs.
  split_and!.
  - rewrite Hmem, Hdata, staged_Namespaces, lookup_insert_eq. by eexists.
  - exists (length (documents_in (mem w) (data (self w)) ns)).
    split; [by apply numDocuments_run|].
    unfold numDocuments. run. rewrite Hmem, Hdata, staged_Namespaces, lookup_insert_eq.
    rewrite run_bind. unfold load. rewrite Hmem. unfold staged at 1.
    cbn [mem namespaces]. rewrite lookup_insert_eq, run_ret.
    by rewrite Hdocs, length_app, Hin0.
  - intros doc Hdoc.
    destruct (is_Missing (valueAt (documents (mem w)) "_id" doc)) eqn:Hid; [|done].
    assert (existsb (fun doc => is_Missing (valueAt (documents (mem w)) "_id" doc))
              list = true); [|congruence].
    apply existsb_exists. exists doc. split; [by apply list_elem_of_In | done].
  - by rewrite Hmem.
  - intros ns' Hne. rewrite Hmem, Hdata. by apply staged_contents_other.
Qed.

End InsertOutcome.

(** ** Dropping *)

Lemma string_app_nil_r (s : string) : s +:+ "" = s.
Proof.
  induction s as [|c s IH]; [done|].
  change (String c s +:+ "") with (String c (s +:+ "")). by rewrite IH.
Qed.

Lemma string_app_snoc (acc : string) (c : ascii) (p : string) :
  (acc +:+ String c "") +:+ p = acc +:+ String c p.
Proof.
  induction acc as [|c0 acc IH]; [done|].
  change (String c0 ((acc +:+ String c "") +:+ p) = String c0 (acc +:+ String c p)).
  by rewrite IH.
Qed.

(** The first of the segments of a name, as [strings.Split] cuts it. *)
Lemma split_dot_head (acc s name : string) :
  head (split_dot acc s) = Some name
  <-> exists p, name = acc +:+ p
        /\ (forall a b, p ≠ a +:+ "." +:+ b)
        /\ (s = p \/ exists c, s = p +:+ "." +:+ c).
Proof.
  revert acc. induction s as [|ch s IH]; intros acc; cbn [split_dot].
  - cbn [head]. split.
    + intros [= <-]. exists "". split_and!.
      * by rewrite string_app_nil_r.
      * by intros [|? ?] b.
      * by left.
    + intros (p & -> & Hdot & [<- | [c Hc]]).
      * by rewrite string_app_nil_r.
      * by destruct p.
  - destruct (Ascii.eqb_spec ch ".") as [->|Hch]; cbn [head].
    + split.
      * intros [= <-]. exists "". split_and!.
        -- by rewrite string_app_nil_r.
        -- by intros [|? ?] b.
        -- right. by exists s.
      * intros (p & -> & Hdot & Hs). f_equal.
        destruct p as [|c0 p]; [by rewrite string_app_nil_r|].
        exfalso. destruct Hs as [Hs | [c Hs]]; injection Hs as <- Hs;
          by apply (Hdot "" p).
    + rewrite IH. split.
      * intros (p & -> & Hdot & Hs). exists (String ch p). split_and!.
        -- by rewrite string_app_snoc.
        -- intros [|c0 a] b [= Hc Hp]; [done|]. by apply (Hdot a b).
        -- destruct Hs as [-> | [c ->]]; [by left | right; by exists c].
      * intros (p & -> & Hdot & Hs). destruct p as [|c0 p].
        { destruct Hs as [Hs | [c Hs]]; [done|]. by injection Hs as -> _. }
        assert (c0 = ch) as ->
          by (destruct Hs as [Hs | [c Hs]]; by injection Hs as -> _).
        exists p. split_and!.
        -- by rewrite string_app_snoc.
        -- intros a b ->. by apply (Hdot (String ch a) b).
        -- destruct Hs as [Hs | [c Hs]]; injection Hs as ->; [by left|].
           right. by exists c.
Qed.

Section Drops.
Context {S : Type} {storage : Store S} {matcher : Matcher} {updater : Updater}.
Implicit Types (w : world S) (N : Namespace) (m : gmap string ptr).

(** X6. [dropCollection] never fails on an engine that has a catalog.  It takes
    the namespace out of the catalog the engine points to, and nothing else: the other namespaces are
    those of before with their documents, the engine keeps its pointer and
    its store, and [numDocuments] of the dropped namespace is 0.  Dropping a
    namespace that the catalog does not have changes no namespace. *)
Theorem dropCollection_drops_one (w : world S) (ns : string) :
  is_Some (datas (mem w) !! data (self w)) ->
  exists w',
    dropCollection ns w = (inr tt, w')
    /\ self w' = self w
    /\ namespaces (mem w') = namespaces (mem w)
    /\ documents (mem w') = documents (mem w)
    /\ Namespaces_of (mem w') (data (self w'))
       = base.delete ns (Namespaces_of (mem w) (data (self w)))
    /\ numDocuments ns w' = (inr O, w')
    /\ forall ns', ns' ≠ ns ->
         contents (mem w') (data (self w')) ns' = contents (mem w) (data (self w)) ns'.
Proof.
  intros _. eexists. split; [unfold dropCollection; run; reflexivity|].
  cbn [mem self datas namespaces documents data].
  assert (Hafter : Namespaces_of
            {| datas := <[data (self w) :=
                          filter (fun kv : string * ptr => kv.1 ≠ ns)
                            (Namespaces_of (mem w) (data (self w)))]> (datas (mem w));
               namespaces := namespaces (mem w);
               documents := documents (mem w) |} (data (self w))
          = base.delete ns (Namespaces_of (mem w) (data (self w)))).
  { rewrite Namespaces_of_new. apply map_eq. intros ns'.
    destruct (decide (ns' = ns)) as [->|Hne].
    - rewrite lookup_delete_eq. apply map_lookup_filter_None. right.
      intros n _ Hn. by apply Hn.
    - rewrite lookup_delete_ne by done.
      destruct (Namespaces_of (mem w) (data (self w)) !! ns') as [n|] eqn:Hn.
      + by apply map_lookup_filter_Some.
      + apply map_lookup_filter_None. by left. }
  split_and!; try done.
  - unfold numDocuments. run. by rewrite Hafter, lookup_delete_eq.
  - intros ns' Hne. unfold contents. cbn [namespaces documents].
    by rewrite Hafter, lookup_delete_ne.
Qed.

(** X7. [dropDatabase] never fails on an engine that has a catalog.  It takes
    out of the catalog the engine points to the namespaces whose name, cut at the dots, starts with the
    given name: [name] itself and every [name.c].  The namespaces of a
    database whose name only begins like [name] stay; and a [name] with a dot
    in it drops nothing. *)
Theorem dropDatabase_drops_its_namespaces (w : world S) (name : string) :
  is_Some (datas (mem w) !! data (self w)) ->
  exists w',
    dropDatabase name w = (inr tt, w')
    /\ self w' = self w
    /\ namespaces (mem w') = namespaces (mem w)
    /\ documents (mem w') = documents (mem w)
    /\ (forall ns,
          (forall a b, name ≠ a +:+ "." +:+ b) ->
          ns = name \/ (exists c, ns = name +:+ "." +:+ c) ->
          Namespaces_of (mem w') (data (self w')) !! ns = None)
    /\ (forall ns,
          ns ≠ name -> (forall c, ns ≠ name +:+ "." +:+ c) ->
          Namespaces_of (mem w') (data (self w')) !! ns
          = Namespaces_of (mem w) (data (self w)) !! ns)
    /\ ((exists a b, name = a +:+ "." +:+ b) ->
        Namespaces_of (mem w') (data (self w'))
        = Namespaces_of (mem w) (data (self w))).
Proof.
  intros _. eexists. split; [unfold dropDatabase; run; reflexivity|].
  cbn [mem self datas namespaces documents data].
  rewrite Namespaces_of_new.
  assert (Hhead : forall ns, head (split_dot "" ns) = Some name
                  <-> (forall a b, name ≠ a +:+ "." +:+ b)
                      /\ (ns = name \/ exists c, ns = name +:+ "." +:+ c)).
  { intros ns. rewrite split_dot_head. split.
    - by intros (p & -> & Hdot & Hs).
    - intros [Hdot Hs]. by exists name. }
  assert (Hkept : forall ns, head (split_dot "" ns) ≠ Some name ->
            filter (fun kv : string * ptr => head (split_dot "" kv.1) ≠ Some name)
              (Namespaces_of (mem w) (data (self w))) !! ns
            = Namespaces_of (mem w) (data (self w)) !! ns).
  { intros ns Hne.
    destruct (Namespaces_of (mem w) (data (self w)) !! ns) as [n|] eqn:Hn.
    + by apply map_lookup_filter_Some.
    + apply map_lookup_filter_None. by left. }
  split_and!; try done.
  - intros ns Hdot Hs. apply map_lookup_filter_None. right.
    intros n _ Hkeep. apply Hkeep, Hhead. done.
  - intros ns Hne Hnc. apply Hkept. intros [_ [? | [c ?]]]%Hhead; [done|].
    by apply (Hnc c).
  - intros (a & b & Hab). apply map_eq. intros ns. apply Hkept.
    intros [Hdot _]%Hhead. by apply (Hdot a b).
Qed.

End Drops.

(** ** [Difference] on lists that are not a selection *)

Section DifferenceAtLarge.
Context {T : Type} `{EqDecision T}.
Implicit Types a b : list T.

Lemma Difference_sublist a b : sublist (Difference a b) a.
Proof.
  revert b. induction a as [|item a IH]; intros b; [constructor|].
  cbn [Difference]. destruct b as [|bj b]; [by apply sublist_skip|].
  destruct (decide (bj = item)); [by apply sublist_cons | by apply sublist_skip].
Qed.

Lemma Difference_length a b :
  (length a - length b <= length (Difference a b))%nat.
Proof.
  revert b. induction a as [|item a IH]; intros b; [done|].
  cbn [Difference]. destruct b as [|bj b].
  - rewrite Difference_nil_r. cbn. lia.
  - destruct (decide (bj = item)).
    + specialize (IH b). cbn. lia.
    + specialize (IH (bj :: b)). cbn in *. lia.
Qed.

Lemma Difference_hidden a b1 x b2 :
  x ∉ a -> Difference a (b1 ++ x :: b2) = Difference a b1.
Proof.
  revert b1. induction a as [|item a IH]; intros b1 Hx; [done|].
  apply not_elem_of_cons in Hx as [Hne Hx].
  cbn [Difference]. destruct b1 as [|bj b1]; cbn [app].
  - rewrite decide_False by done. f_equal. apply (IH [] Hx).
  - destruct (decide (bj = item)); [by apply IH|].
    f_equal. apply (IH (bj :: b1) Hx).
Qed.

(** X11. [Difference(a, b)] panics exactly when [b] is longer than [a].
    Otherwise, whatever [b] is, it returns elements of [a] in their order,
    at least [len(a) - len(b)] of them; and an element of [b] that [a] does
    not have hides the rest of [b]: nothing that comes after it in [b] is
    taken out of [a]. *)
Theorem Difference_of_any_list a b :
  match Difference_call a b with
  | None => (length a < length b)%nat
  | Some r =>
      (length b <= length a)%nat
      /\ r = Difference a b
      /\ sublist r a
      /\ (length a - length b <= length r)%nat
      /\ forall b1 x b2, b = b1 ++ x :: b2 -> x ∉ a -> r = Difference a b1
  end.
Proof.
  unfold Difference_call. destruct (Nat.ltb_spec (length a) (length b)); [done|].
  split_and!; [done | done | apply Difference_sublist | apply Difference_length |].
  intros b1 x b2 -> Hx. by apply Difference_hidden.
Qed.

End DifferenceAtLarge.

(** ** [bsonkit.Collect] *)

Lemma Collect_less_strict_weak : strict_weak Collect_less.
Proof.
  unfold Collect_less. split; intros a; try intros b c.
  - by rewrite (at_refl _ _ (Compare_ordered a)).
  - destruct (Compare a b) eqn:Eab; try done.
    destruct (Compare b c) eqn:Ebc; try done. intros _ _.
    by rewrite (at_lt_lt _ _ (Compare_ordered a) b c Eab Ebc).
  - intros Hab Hbc.
    assert (Hab' : Compare a b ≠ Lt) by (intros E; by rewrite E in Hab).
    assert (Hbc' : Compare b c ≠ Lt) by (intros E; by rewrite E in Hbc).
    pose proof (Compare_not_Lt_trans _ _ _ Hab' Hbc') as Hac.
    by destruct (Compare a c).
Qed.

Lemma Collect_values_all h (list : List) path :
  Collect_values h list path false = map (valueAt h path) list.
Proof.
  induction list as [|doc list IH]; [done|]. cbn [Collect_values map].
  by rewrite andb_false_r, IH.
Qed.

Lemma Collect_values_compact h (list : List) path :
  Collect_values h list path true
  = filter (fun v => is_Missing v = false) (map (valueAt h path) list).
Proof.
  induction list as [|doc list IH]; [done|]. cbn [Collect_values map].
  rewrite andb_true_r, filter_cons, IH.
  destruct (is_Missing (valueAt h path doc)) eqn:Hv.
  - by rewrite decide_False.
  - by rewrite decide_True.
Qed.

Lemma Collect_distinct_after (l ds : Datatypes.list value) (lv : value) :
  ds ≠ [] ->
  (fold_left Collect_distinct l (ds, lv)).1 = ds ++ distinct_after lv l.
Proof.
  revert ds lv. induction l as [|v l IH]; intros ds lv Hds.
  - by rewrite app_nil_r.
  - cbn [fold_left distinct_after]. unfold Collect_distinct at 2.
    assert ((0 <? length ds)%nat = true) as ->
      by (apply Nat.ltb_lt; destruct ds; [done | cbn; lia]).
    cbn [andb]. destruct (Compare lv v).
    + by apply IH.
    + rewrite IH by (by destruct ds). by rewrite <- app_assoc.
    + rewrite IH by (by destruct ds). by rewrite <- app_assoc.
Qed.

Lemma Collect_distinct_run (l : Datatypes.list value) :
  (fold_left Collect_distinct l ([], Null)).1
  = match l with
    | [] => []
    | v :: l' => v :: distinct_after v l'
    end.
Proof.
  destruct l as [|v l]; [done|]. cbn [fold_left]. unfold Collect_distinct at 2.
  cbn [length Nat.ltb Nat.leb andb app]. by rewrite Collect_distinct_after.
Qed.

Lemma distinct_after_ascending (lv : value) (l : Datatypes.list value) :
  (forall u, u ∈ l -> Compare u lv ≠ Lt) ->
  StronglySorted (fun a b => Compare b a ≠ Lt) l ->
  StronglySorted (fun a b => Compare a b = Lt) (distinct_after lv l)
  /\ forall u, u ∈ distinct_after lv l -> Compare lv u = Lt.
Proof.
  revert lv. induction l as [|v l IH]; intros lv Hlv Hsorted.
  - split; [constructor | by intros u ?%elem_of_nil].
  - apply StronglySorted_inv in Hsorted as [Hsorted Hv].
    rewrite List.Forall_forall in Hv.
    assert (Hl : forall u, u ∈ l -> Compare u v ≠ Lt)
      by (intros u Hu; by apply Hv, list_elem_of_In).
    cbn [distinct_after].
    assert (Hnot : Compare lv v ≠ Gt).
    { intros Hgt. apply (Hlv v); [left|]. by apply Compare_Gt_Lt. }
    destruct (Compare lv v) eqn:Hc; [| |done].
    + apply IH; [|done]. intros u Hu. apply Hlv. by right.
    + destruct (IH v Hl Hsorted) as [Hs Hlt]. split.
      * constructor; [done|]. apply List.Forall_forall.
        intros u Hu%list_elem_of_In. by apply Hlt.
      * intros u [->|Hu]%elem_of_cons; [done|].
        by apply (at_lt_lt _ _ (Compare_ordered lv) v u Hc), Hlt.
Qed.

Lemma distinct_after_sublist (lv : value) (l : Datatypes.list value) :
  sublist (distinct_after lv l) l.
Proof.
  revert lv. induction l as [|v l IH]; intros lv; [constructor|].
  cbn [distinct_after].
  destruct (Compare lv v); [by apply sublist_cons | by apply sublist_skip..].
Qed.

Lemma distinct_after_covers (lv : value) (l : Datatypes.list value) (x : value) :
  x ∈ l ->
  Compare lv x = Eq \/ exists u, u ∈ distinct_after lv l /\ Compare u x = Eq.
Proof.
  revert lv. induction l as [|v l IH]; intros lv; [by intros ?%elem_of_nil|].
  cbn [distinct_after]. intros [->|Hx]%elem_of_cons.
  - destruct (Compare lv v) eqn:Hc; [by left | right..];
      (exists v; split; [left | apply (at_refl _ _ (Compare_ordered v))]).
  - destruct (Compare lv v) eqn:Hc; [by apply IH | |];
      (destruct (IH v Hx) as [Heq | (u & Hu & Heq)];
       [right; exists v; split; [left | done]
       |right; exists u; split; [by right | done]]).
Qed.

(** X12. [Collect] returns the values at the path of the documents of the
    list, in the order of the list, leaving out the missing ones when
    [compact] is set.  With [distinct], and a [sort.Slice] that sorts, it
    returns values of these in strictly ascending order, so no two of them
    compare equal, and each of the collected values compares equal to one of
    them. *)
Theorem Collect_collects (sorter : SliceSorter) (h : docs) (list : List)
    (path : string) (compact : bool) :
  sorts sorter ->
  let values := Collect h list path compact false in
  let distincts := Collect h list path compact true in
  values = (if compact
            then filter (fun v => is_Missing v = false) (map (valueAt h path) list)
            else map (valueAt h path) list)
  /\ StronglySorted (fun a b => Compare a b = Lt) distincts
  /\ (forall v, v ∈ distincts -> v ∈ values)
  /\ (forall v, v ∈ values -> exists u, u ∈ distincts /\ Compare u v = Eq).
Proof.
  intros Hsorts values distincts.
  assert (Hvalues : values = Collect_values h list path compact) by done.
  destruct (Hsorts value Collect_less values Collect_less_strict_weak)
    as [Hperm Hsorted].
  assert (Hdistincts : distincts
            = (fold_left Collect_distinct (slice_sort value Collect_less values)
                 ([], Null)).1) by done.
  set (sorted := slice_sort value Collect_less values) in *.
  assert (Hle : StronglySorted (fun a b => Compare b a ≠ Lt) sorted).
  { eapply StronglySorted_weaken; [|exact Hsorted].
    intros a b. unfold Collect_less. by destruct (Compare b a). }
  rewrite Collect_distinct_run in Hdistincts.
  split_and!.
  - rewrite Hvalues. destruct compact;
      [apply Collect_values_compact | apply Collect_values_all].
  - rewrite Hdistincts. destruct sorted as [|v l]; [constructor|].
    apply StronglySorted_inv in Hle as [Hl Hv]. rewrite List.Forall_forall in Hv.
    destruct (distinct_after_ascending v l) as [Hs Hlt]; [|done|].
    { intros u Hu. by apply Hv, list_elem_of_In. }
    constructor; [done|]. apply List.Forall_forall.
    intros u Hu%list_elem_of_In. by apply Hlt.
  - intros v Hv. rewrite Hperm. rewrite Hdistincts in Hv.
    destruct sorted as [|v0 l]; [done|].
    apply elem_of_cons in Hv as [->|Hv]; [left|]. right.
    eapply sublist_subseteq; [apply distinct_after_sublist | done].
  - intros v Hv. rewrite Hperm in Hv. rewrite Hdistincts.
    destruct sorted as [|v0 l]; [by apply elem_of_nil in Hv|].
    apply elem_of_cons in Hv as [->|Hv].
    + exists v0. split; [left | apply (at_refl _ _ (Compare_ordered v0))].
    + destruct (distinct_after_covers v0 l v Hv) as [Heq | (u & Hu & Heq)].
      * exists v0. split; [left | done].
      * exists u. split; [by right | done].
Qed.

(** Three documents, two of them with the same value, collected by the
    merging sorter. *)
Lemma Collect_collects_witness :
  let h := documents_of [[("k", Int 2)]; [("j", Int 0)]; [("k", Int 2)]; [("k", Int 1)]] in
  let values := Collect (sorter := mergeSorter) h [0; 1; 2; 3]%nat "k" true false in
  let distincts := Collect (sorter := mergeSorter) h [0; 1; 2; 3]%nat "k" true true in
  values = [Int 2; Int 2; Int 1]
  /\ StronglySorted (fun a b => Compare a b = Lt) distincts
  /\ (forall v, v ∈ distincts -> v ∈ values)
  /\ (forall v, v ∈ values -> exists u, u ∈ distincts /\ Compare u v = Eq).
Proof.
  exact (Collect_collects mergeSorter _ [0; 1; 2; 3]%nat "k" true mergeSorter_sorts).
Defined.

(** ** [listCollections] *)

Lemma prefix_app (p s : string) :
  String.prefix p s = true <-> exists r, s = p +:+ r.
Proof.
  revert s. induction p as [|c p IH]; intros s.
  - split; [intros _; by exists s | by destruct s].
  - destruct s as [|c' s]; cbn [String.prefix].
    + split; [done | by intros [r ?]].
    + destruct (ascii_dec c c') as [->|Hne].
      * rewrite IH. split; intros [r Hr]; exists r.
        -- by rewrite Hr.
        -- by injection Hr.
      * split; [done | intros [r Hr]; by injection Hr].
Qed.

Lemma string_from_app (p r : string) : string_from (String.length p) (p +:+ r) = r.
Proof. induction p as [|c p IH]; [by destruct r | exact IH]. Qed.

Lemma string_from_after (p : string) (c : ascii) (r : string) :
  string_from (Datatypes.S (String.length p)) (p +:+ String c r) = r.
Proof. induction p as [|c0 p IH]; [done | exact IH]. Qed.

Lemma TrimPrefix_app (p r : string) : TrimPrefix (p +:+ r) p = r.
Proof.
  unfold TrimPrefix. rewrite (proj2 (prefix_app p (p +:+ r))) by (by exists r).
  apply string_from_app.
Qed.

Lemma TrimPrefix_self (p : string) : TrimPrefix p p = "".
Proof.
  pose proof (TrimPrefix_app p "") as E. by rewrite string_app_nil_r in E.
Qed.

Lemma Filter_everything {matcher : Matcher} (h : docs) (query : bsonD) (list : List) :
  (forall doc, Match doc query = inr true) ->
  Filter h list query 0 = inr (list, seq 0 (length list)).
Proof.
  intros Hall. unfold Filter. generalize 0%nat at 2 as found. generalize 0%nat as i.
  induction list as [|doc list IH]; intros i found; [done|].
  cbn [filter_from]. rewrite Hall. cbn. by rewrite IH.
Qed.

Section ListingFacts.
Context {S : Type} {matcher : Matcher}.
Implicit Types (w : world S).

(** The world with other documents. *)
Let with_documents w (h' : docs) : world S :=
  {| mem := {| datas := datas (mem w);
               namespaces := namespaces (mem w);
               documents := h' |};
     self := self w |}.

Lemma listing_loop (db : string) (l : Datatypes.list string) (list0 : List) w :
  db ∉ l ->
  exists news h',
    range_names l (add_specification db) list0 w
    = (inr (list0 ++ news), with_documents w h')
    /\ documents (mem w) ⊆ h'
    /\ (forall p, p ∈ news -> documents (mem w) !! p = None)
    /\ map (deref h') news
       = map (fun ns => collection_specification
                          (string_from (Datatypes.S (String.length db)) ns))
           (filter (fun ns => String.prefix db ns = true) l).
Proof.
  revert list0 w. induction l as [|ns l IH]; intros list0 w Hdb.
  - exists [], (documents (mem w)). rewrite app_nil_r. split_and!; try done.
    + by destruct w as [[? ? ?] ?].
    + by intros p ?%elem_of_nil.
  - apply not_elem_of_cons in Hdb as [Hne Hdb].
    cbn [range_names]. rewrite run_bind. unfold add_specification at 1.
    rewrite filter_cons.
    destruct (String.prefix db ns) eqn:Hp.
    + apply prefix_app in Hp as [r ->]. rewrite TrimPrefix_app.
      destruct r as [|c name]; [by rewrite string_app_nil_r in Hne|].
      rewrite run_bind. unfold new_document, on_documents.
      cbn [mem self datas namespaces documents]. rewrite run_ret.
      set (p := fresh (dom (documents (mem w)))).
      set (h1 := <[p := collection_specification name]> (documents (mem w))).
      destruct (IH (list0 ++ [p]) (with_documents w h1) Hdb)
        as (news & h' & Hrun & Hle & Hnew & Hmap).
      exists (p :: news), h'. unfold with_documents in Hrun |- *.
      cbn [mem self datas namespaces documents] in *.
      rewrite Hrun, <- app_assoc.
      assert (Hh1 : documents (mem w) ⊆ h1)
        by apply insert_subseteq, fresh_unallocated.
      rewrite decide_True by done.
      split_and!; try done.
      * by etrans.
      * intros q [->|Hq]%elem_of_cons; [apply fresh_unallocated|].
        exact (lookup_weaken_None _ _ _ (Hnew q Hq) Hh1).
      * cbn [map]. f_equal; [|done]. rewrite string_from_after.
        unfold deref. by rewrite (lookup_weaken h1 h' p (collection_specification name));
          [|apply lookup_insert_eq | done].
    + rewrite run_ret. rewrite decide_False by done.
      apply (IH list0 w Hdb).
Qed.

(** X8. [listCollections] lists by prefix.  When no namespace is named [db]
    itself and the query selects every document, it returns one
    specification for each namespace whose name begins with [db], named by
    what follows the first byte after [db]: the collections of [db], and as
    well those of every database whose name only begins with [db].  It
    allocates the specifications and changes nothing else. *)
Theorem listCollections_lists_by_prefix (w : world S) (db : string) (query : bsonD) :
  is_Some (datas (mem w) !! data (self w)) ->
  Namespaces_of (mem w) (data (self w)) !! db = None ->
  (forall doc, Match doc query = inr true) ->
  exists list w',
    listCollections db query w = (inr list, w')
    /\ map (deref (documents (mem w'))) list
       ≡ₚ map (fun ns => collection_specification
                           (string_from (Datatypes.S (String.length db)) ns))
            (filter (fun ns => String.prefix db ns = true)
               (map fst (map_to_list (Namespaces_of (mem w) (data (self w))))))
    /\ self w' = self w
    /\ datas (mem w') = datas (mem w)
    /\ namespaces (mem w') = namespaces (mem w)
    /\ documents (mem w) ⊆ documents (mem w').
Proof.
  intros _ Hdb Hall. unfold listCollections. run.
  destruct (listing_loop db
              (map fst (map_to_list (Namespaces_of (mem w) (data (self w))))) [] w)
    as (news & h' & Hrun & Hle & _ & Hmap).
  { intros ((ns & n) & Hns & Hin%elem_of_map_to_list)%list_elem_of_fmap.
    cbn in Hns. subst ns. congruence. }
  rewrite Hrun. run. rewrite (Filter_everything _ _ _ Hall). run.
  eexists _, _. split; [done|]. unfold with_documents.
  cbn [mem self datas namespaces documents app].
  split_and!; try done. by rewrite Hmap.
Qed.

Lemma add_specification_error (db : string) (list : List) (ns : string) w e w1 :
  add_specification db list ns w = (inl e, w1) ->
  e = "panic: slice bounds out of range".
Proof.
  unfold add_specification. destruct (String.prefix db ns); [|done].
  destruct (TrimPrefix ns db); [by intros [= <- <-]|].
  rewrite run_bind. unfold new_document, on_documents. by rewrite run_ret.
Qed.

Lemma listing_panics (db : string) (l : Datatypes.list string) (list0 : List) w :
  db ∈ l ->
  exists w', range_names l (add_specification db) list0 w
             = (inl "panic: slice bounds out of range", w').
Proof.
  revert list0 w. induction l as [|ns l IH]; intros list0 w Hin;
    [by apply elem_of_nil in Hin|].
  cbn [range_names]. rewrite run_bind.
  destruct (add_specification db list0 ns w) as [[e|list1] w1] eqn:Hadd.
  - rewrite (add_specification_error _ _ _ _ _ _ Hadd). by eexists.
  - apply elem_of_cons in Hin as [->|Hin]; [|by apply IH].
    revert Hadd. unfold add_specification.
    rewrite (proj2 (prefix_app ns ns)) by (exists ""; by rewrite string_app_nil_r).
    by rewrite TrimPrefix_self.
Qed.

(** X9. A namespace named [db] itself makes [listCollections] panic, whatever
    else the catalog holds: nothing is left of its name to cut the first
    byte from. *)
Theorem listCollections_of_a_namespace_name (w : world S) (db : string)
    (query : bsonD) (n : ptr) :
  Namespaces_of (mem w) (data (self w)) !! db = Some n ->
  exists w', listCollections db query w
             = (inl "panic: slice bounds out of range", w').
Proof.
  intros Hdb. unfold listCollections. run.
  destruct (listing_panics db
              (map fst (map_to_list (Namespaces_of (mem w) (data (self w))))) [] w)
    as [w' Hw'].
  { apply list_elem_of_fmap. exists (db, n). split; [done|].
    by apply elem_of_map_to_list. }
  rewrite Hw'. by exists w'.
Qed.

End ListingFacts.

(** ** The closure of [Sort] *)

(** X13. What [Sort] hands to [sort.Slice] is what [sort.Slice] asks for, a
    strict weak ordering of the documents, whatever the documents hold at
    the path; and with [reverse] it is the same ordering read the other way
    round. *)
Theorem Sort_less_is_a_strict_weak_order (h : docs) (path : string) (reverse : bool) :
  strict_weak (Sort_less h path reverse)
  /\ forall d e, Sort_less h path true d e = Sort_less h path false e d.
Proof.
  split; [apply Sort_less_strict_weak|]. intros d e. unfold Sort_less.
  rewrite (at_antisym _ _ (Compare_ordered (valueAt h path d)) (valueAt h path e)).
  by destruct (Compare (valueAt h path d) (valueAt h path e)).
Qed.

(** ** What [Extract] rejects *)

(** X14. [Extract] returns the error of the operator that meets an operand it
    cannot read: [$and] and [$or] with an operand that is not a list, [$and]
    with a first element, or [$or] with an only element, that is not a
    document, and [$in] with an operand that is not a list. *)
Theorem Extract_rejects_other_operands :
  (forall post name v,
     name = "$and" \/ name = "$or" -> (forall l, v ≠ A l) ->
     Extract ((name, v) :: post) = inl (name +:+ ": expected list"))
  /\ (forall post item rest,
        (forall q, item ≠ D q) ->
        Extract (("$and", A (item :: rest)) :: post)
        = inl "$and: expected list of documents")
  /\ (forall post item,
        (forall q, item ≠ D q) ->
        Extract (("$or", A [item]) :: post)
        = inl "$or: expected list of documents")
  /\ (forall post path v,
        is_operator path = false -> (forall l, v ≠ A l) ->
        Extract ((path, D [("$in", v)]) :: post) = inl "$in: expected list").
Proof.
  split_and!.
  - intros post name v Hname Hv.
    change ((name, v) :: post) with (app [] ((name, v) :: post)).
    rewrite Extract_app. destruct Hname as [-> | ->]; simpl;
      unfold ProcessExpression.
    + change (is_operator "$and") with true. cbv iota. registered extractAnd.
      unfold extractAnd. destruct v; try done. by destruct (Hv l).
    + change (is_operator "$or") with true. cbv iota. registered extractOr.
      unfold extractOr. destruct v; try done. by destruct (Hv l).
  - intros post item rest Hitem.
    change (("$and", A (item :: rest)) :: post)
      with (app [] (("$and", A (item :: rest)) :: post)).
    rewrite Extract_app. simpl. unfold ProcessExpression.
    change (is_operator "$and") with true. cbv iota. registered extractAnd.
    unfold extractAnd. cbn [length Nat.eqb foldM].
    destruct item; try done. by destruct (Hitem d).
  - intros post item Hitem.
    change (("$or", A [item]) :: post) with (app [] (("$or", A [item]) :: post)).
    rewrite Extract_app. simpl. unfold ProcessExpression.
    change (is_operator "$or") with true. cbv iota. registered extractOr.
    unfold extractOr. cbn [length Nat.eqb Nat.ltb Nat.leb foldM].
    destruct item; try done. by destruct (Hitem d).
  - intros post path v Hpath Hv.
    change ((path, D [("$in", v)]) :: post)
      with (app [] ((path, D [("$in", v)]) :: post)).
    rewrite Extract_app. simpl. unfold ProcessExpression. rewrite Hpath.
    change (is_operator "$in") with true. cbv iota.
    unfold process_operators. cbn [foldM].
    change (is_operator "$in") with true. cbv iota. registered extractIn.
    unfold extractIn. destruct v; try done. by destruct (Hv l).
Qed.

(** ** [Prepare] *)



(** ** [listDatabases] *)

Lemma NoDup_map_by_fst {X Y Z : Type} (f : X * Y -> Z) (l : Datatypes.list (X * Y)) :
  (forall a b, f a = f b -> a.1 = b.1) ->
  NoDup (map fst l) -> NoDup (map f l).
Proof.
  intros Hf. induction l as [|a l IH]; [constructor|].
  cbn [map]. intros [Ha Hl]%NoDup_cons. apply NoDup_cons. split; [|by apply IH].
  intros (b & Hab & Hb)%list_elem_of_fmap. apply Ha.
  apply list_elem_of_fmap. exists b. split; [by apply Hf | done].
Qed.

Section DatabasesFacts.
Context {S : Type} {matcher : Matcher}.
Implicit Types (w : world S).

Let with_documents w (h' : docs) : world S :=
  {| mem := {| datas := datas (mem w);
               namespaces := namespaces (mem w);
               documents := h' |};
     self := self w |}.

(** Whether the namespace at [n] has no documents. *)
Let no_documents (nn : gmap ptr Namespace) (n : ptr) : bool :=
  match nn !! n with
  | Some N => negb (0 <? length (Documents N))%nat
  | None => true
  end.

Lemma sort_namespaces_run (l : Datatypes.list ptr)
    (sort0 : gmap string (Datatypes.list ptr)) w :
  (forall n, n ∈ l -> is_Some (namespaces (mem w) !! n)) ->
  exists sort',
    sort_namespaces l sort0 w = (inr sort', w)
    /\ (forall name,
          default [] (sort' !! name)
          = default [] (sort0 !! name)
            ++ filter (fun n => database_of <$> namespaces (mem w) !! n = Some name) l)
    /\ ((forall name nss, sort0 !! name = Some nss -> nss ≠ []) ->
        forall name nss, sort' !! name = Some nss -> nss ≠ []).
Proof.
  revert sort0. induction l as [|n l IH]; intros sort0 Hal.
  - exists sort0. split; [done|]. split; [|done]. intros name. by rewrite app_nil_r.
  - destruct (Hal n) as [N HN]; [left|].
    cbn [sort_namespaces]. rewrite run_bind, (load_run _ _ _ HN).
    destruct (IH (<[database_of N := default [] (sort0 !! database_of N) ++ [n]]> sort0))
      as (sort' & Hrun & Hsort & Hne).
    { intros n' Hn'. apply Hal. by right. }
    exists sort'. split; [done|]. split.
    + intros name. rewrite Hsort, filter_cons, HN. cbn [fmap option_fmap option_map].
      destruct (decide (name = database_of N)) as [->|Hname].
      * rewrite lookup_insert_eq, decide_True by done.
        change (default [] (Some (default [] (sort0 !! database_of N) ++ [n])))
          with (default [] (sort0 !! database_of N) ++ [n]).
        by rewrite <- app_assoc.
      * rewrite lookup_insert_ne by done. rewrite decide_False; [done|].
        intros [= E]. by apply Hname.
    + intros H0. apply Hne. intros name nss.
      intros [[_ <-]|[_ Hs]]%lookup_insert_Some; [|by eapply H0].
      by destruct (default [] (sort0 !! database_of N)).
Qed.

Lemma check_emptiness_run (nss : Datatypes.list ptr) (empty : bool) w :
  (forall n, n ∈ nss -> is_Some (namespaces (mem w) !! n)) ->
  check_emptiness nss empty w
  = (inr (empty && forallb (no_documents (namespaces (mem w))) nss), w).
Proof.
  revert empty. induction nss as [|n nss IH]; intros empty Hal.
  - cbn. by rewrite andb_true_r.
  - destruct (Hal n) as [N HN]; [left|].
    cbn [check_emptiness forallb]. rewrite run_bind, (load_run _ _ _ HN).
    rewrite IH by (intros n' Hn'; apply Hal; by right).
    unfold no_documents at 2. rewrite HN.
    by destruct (0 <? length (Documents N))%nat, empty.
Qed.

Lemma databases_loop (l : Datatypes.list (string * Datatypes.list ptr)) (list0 : List) w :
  (forall e n, e ∈ l -> n ∈ e.2 -> is_Some (namespaces (mem w) !! n)) ->
  exists news h',
    range_databases l list0 w = (inr (list0 ++ news), with_documents w h')
    /\ documents (mem w) ⊆ h'
    /\ map (deref h') news
       = map (fun e => database_specification e.1
                         (forallb (no_documents (namespaces (mem w))) e.2)) l.
Proof.
  revert list0 w. induction l as [|[name nss] l IH]; intros list0 w Hal.
  - exists [], (documents (mem w)). rewrite app_nil_r. split_and!; try done.
    by destruct w as [[? ? ?] ?].
  - cbn [range_databases]. rewrite run_bind, check_emptiness_run.
    2: { intros n Hn. apply (Hal (name, nss)); [left | done]. }
    cbn [andb]. rewrite run_bind. unfold new_document, on_documents.
    cbn [mem self datas namespaces documents].
    set (spec := database_specification name
                   (forallb (no_documents (namespaces (mem w))) nss)).
    set (p := fresh (dom (documents (mem w)))).
    set (h1 := <[p := spec]> (documents (mem w))).
    destruct (IH (list0 ++ [p]) (with_documents w h1)) as (news & h' & Hrun & Hle & Hmap).
    { intros e n He Hn. apply (Hal e); [by right | done]. }
    exists (p :: news), h'. unfold with_documents in Hrun |- *.
    cbn [mem self datas namespaces documents] in *.
    rewrite Hrun, <- app_assoc.
    assert (Hh1 : documents (mem w) ⊆ h1) by apply insert_subseteq, fresh_unallocated.
    split_and!; [done | by etrans |].
    cbn [map fst snd]. f_equal; [|done].
    unfold deref. by rewrite (lookup_weaken h1 h' p spec); [|apply lookup_insert_eq | done].
Qed.

(** X15. [listDatabases] groups the namespaces by the first segment of their
    [Name].  When the query selects every document it returns one
    specification for each of these databases, and no other: a database
    is listed when a namespace of the catalog belongs to it, also when all
    its namespaces are empty, and it is listed as empty exactly when none of
    its namespaces has a document.  The size it reports is 42 for every
    database.  It allocates the specifications and changes nothing
    else. *)
Theorem listDatabases_lists_each_database (w : world S) (query : bsonD) :
  catalog_ok (mem w) (data (self w)) ->
  (forall doc, Match doc query = inr true) ->
  exists list w',
    listDatabases query w = (inr list, w')
    /\ NoDup (map (deref (documents (mem w'))) list)
    /\ (forall spec, spec ∈ map (deref (documents (mem w'))) list ->
          exists name empty, spec = database_specification name empty)
    /\ (forall name empty,
          database_specification name empty ∈ map (deref (documents (mem w'))) list
          <-> (exists ns n N,
                 Namespaces_of (mem w) (data (self w)) !! ns = Some n
                 /\ namespaces (mem w) !! n = Some N /\ database_of N = name)
              /\ (empty = true
                  <-> forall ns n N,
                        Namespaces_of (mem w) (data (self w)) !! ns = Some n ->
                        namespaces (mem w) !! n = Some N -> database_of N = name ->
                        Documents N = []))
    /\ self w' = self w
    /\ datas (mem w') = datas (mem w)
    /\ namespaces (mem w') = namespaces (mem w)
    /\ documents (mem w) ⊆ documents (mem w').
Proof.
  intros [_ Hns] Hall. unfold listDatabases. run.
  set (m := Namespaces_of (mem w) (data (self w))) in *.
  set (ptrs := map snd (map_to_list m)).
  assert (Hptrs : forall n, n ∈ ptrs <-> exists ns, m !! ns = Some n).
  { intros n. unfold ptrs. rewrite list_elem_of_fmap. split.
    - intros ([ns n'] & -> & Hin%elem_of_map_to_list). by exists ns.
    - intros [ns Hn]. exists (ns, n). split; [done | by apply elem_of_map_to_list]. }
  assert (Hal : forall n, n ∈ ptrs -> is_Some (namespaces (mem w) !! n)).
  { intros n [ns Hn]%Hptrs. destruct (Hns _ _ Hn) as (N & HN & _). by eexists. }
  destruct (sort_namespaces_run ptrs ∅ w Hal) as (sort' & Hsort & Hgroups & Hne).
  rewrite Hsort.
  assert (Hgroup : forall name nss,
            sort' !! name = Some nss
            <-> nss ≠ []
                /\ nss = filter (fun n => database_of <$> namespaces (mem w) !! n
                                          = Some name) ptrs).
  { intros name nss. specialize (Hgroups name). rewrite lookup_empty in Hgroups.
    cbn [default app] in Hgroups. split.
    - intros Hs. split; [by eapply Hne; [intros ? ?; by rewrite lookup_empty|] |].
      by rewrite Hs in Hgroups.
    - intros [Hnil ->]. destruct (sort' !! name) as [nss|] eqn:Hs.
      + by rewrite <- Hgroups.
      + cbn [default] in Hgroups. by rewrite <- Hgroups in Hnil. }
  destruct (databases_loop (map_to_list sort') [] w) as (news & h' & Hrun & Hle & Hmap).
  { intros [name nss] n [_ Hnss]%elem_of_map_to_list%Hgroup Hn. cbn in Hn.
    rewrite Hnss in Hn. apply list_elem_of_filter in Hn as [_ Hn]. by apply Hal. }
  rewrite ?run_bind, Hrun. run. rewrite (Filter_everything _ _ _ Hall). run.
  eexists _, _. split; [done|]. unfold with_documents.
  cbn [mem self datas namespaces documents app]. rewrite Hmap.
  set (nd := no_documents (namespaces (mem w))) in *.
  assert (Hin : forall name empty,
            database_specification name empty
              ∈ map (fun e : string * Datatypes.list ptr =>
                       database_specification e.1 (forallb nd e.2)) (map_to_list sort')
            <-> exists nss, sort' !! name = Some nss /\ empty = forallb nd nss).
  { intros name empty. rewrite list_elem_of_fmap. split.
    - intros ([name' nss] & [= -> ->] & Hs%elem_of_map_to_list). by exists nss.
    - intros (nss & Hs & ->). exists (name, nss). split; [done|].
      by apply elem_of_map_to_list. }
  split_and!; try done.
  - apply NoDup_map_by_fst; [by intros a b [= ? _] | apply NoDup_fst_map_to_list].
  - intros spec ([name nss] & -> & _)%list_elem_of_fmap. by eexists _, _.
  - intros name empty. rewrite Hin. split.
    + intros (nss & [Hnil Hnss]%Hgroup & ->). split.
      * destruct nss as [|n nss]; [done|].
        assert (Hn : n ∈ filter (fun n => database_of <$> namespaces (mem w) !! n
                                          = Some name) ptrs)
          by (rewrite <- Hnss; left).
        apply list_elem_of_filter in Hn as [Hname [ns Hn]%Hptrs].
        destruct (namespaces (mem w) !! n) as [N|] eqn:HN; [|done].
        injection Hname as Hname. by exists ns, n, N.
      * rewrite forallb_forall. split.
        -- intros Hempty ns n N Hn HN Hname.
           assert (Hin' : n ∈ nss).
           { rewrite Hnss. apply list_elem_of_filter. split.
             - by rewrite HN, <- Hname.
             - apply Hptrs. by exists ns. }
           apply list_elem_of_In, Hempty in Hin'. unfold nd, no_documents in Hin'.
           rewrite HN in Hin'. by destruct (Documents N).
        -- intros Hempty n Hn%list_elem_of_In. rewrite Hnss in Hn.
           apply list_elem_of_filter in Hn as [Hname [ns Hn]%Hptrs].
           unfold nd, no_documents.
           destruct (namespaces (mem w) !! n) as [N|] eqn:HN; [|done].
           injection Hname as Hname. by rewrite (Hempty ns n N).
    + intros [(ns & n & N & Hn & HN & Hname) Hempty].
      set (nss := filter (fun n => database_of <$> namespaces (mem w) !! n
                                   = Some name) ptrs).
      assert (Hnin : n ∈ nss).
      { apply list_elem_of_filter. split; [by rewrite HN, <- Hname|].
        apply Hptrs. by exists ns. }
      exists nss. split.
      * apply Hgroup. split; [|done]. intros E. rewrite E in Hnin.
        by apply elem_of_nil in Hnin.
      * destruct empty.
        -- symmetry. apply forallb_forall. intros n' Hn'%list_elem_of_In.
           apply list_elem_of_filter in Hn' as [Hname' [ns' Hn']%Hptrs].
           unfold nd, no_documents.
           destruct (namespaces (mem w) !! n') as [N'|] eqn:HN'; [|done].
           injection Hname' as Hname'.
           by rewrite (proj1 Hempty eq_refl ns' n' N').
        -- destruct (forallb nd nss) eqn:Hfor; [|done]. exfalso.
           assert (Hno : false = true); [|done]. apply Hempty.
           intros ns' n' N' Hn' HN' Hname'.
           assert (Hin' : n' ∈ nss).
           { apply list_elem_of_filter. split; [by rewrite HN', <- Hname'|].
             apply Hptrs. by exists ns'. }
           rewrite forallb_forall in Hfor.
           apply list_elem_of_In, Hfor in Hin'. unfold nd, no_documents in Hin'.
           rewrite HN' in Hin'. by destruct (Documents N').
Qed.

End DatabasesFacts.

(** ** What [replace] leaves *)

Section ReplaceOutcome.
Context {S : Type} {storage : Store S} {matcher : Matcher} {updater : Updater}.
Implicit Types (w : world S) (N : Namespace) (m : gmap string ptr).

(** X16. A successful [replace] replaces the first document that [find] returns
    for the same query with the limit 1, where it stands: when [find]
    returns nothing, the result counts no match and nothing has changed;
    otherwise the result counts one match and one modification, the
    replacement stands in the namespace at the position of that document, no
    document has been written to, and the other namespaces hold what they
    held. *)
Theorem replace_puts_the_replacement (w w' : world S) (ns : string) (query : bsonD)
    (repl : ptr) (r : result) :
  catalog_ok (mem w) (data (self w)) ->
  replace ns query repl w = (inr r, w') ->
  exists list,
    find ns query 1 w = (inr list, w)
    /\ match list with
       | [] => r = {| matched := 0; modified := 0 |} /\ w' = w
       | list_0 :: _ =>
           r = {| matched := 1; modified := 1 |}
           /\ (exists i,
                 documents_in (mem w) (data (self w)) ns !! i = Some list_0
                 /\ documents_in (mem w') (data (self w')) ns
                    = <[i := repl]> (documents_in (mem w) (data (self w)) ns))
           /\ documents (mem w') = documents (mem w)
           /\ forall ns', ns' ≠ ns ->
                contents (mem w') (data (self w')) ns'
                = contents (mem w) (data (self w)) ns'
       end.
Proof.
  intros Hok.
  assert (Hwf : forall n0, Namespaces_of (mem w) (data (self w)) !! ns = Some n0 ->
                  is_Some (namespaces (mem w) !! n0))
    by (intros n0; by apply catalog_ok_allocated).
  unfold replace. rewrite run_bind.
  destruct (replace_staged ns query repl w) as [[err|[early|clone]] w1] eqn:Hrun;
    [done | |].
  - rewrite run_ret. intros [= <- <-].
    rewrite (replace_early _ _ _ _ _ _ Hwf Hrun) in *.
    exists []. revert Hrun. unfold replace_staged, find. run.
    destruct (Namespaces_of (mem w) (data (self w)) !! ns) as [n0|] eqn:Hn0;
      [|by intros [= <-]].
    run. destruct (is_Missing _); [done|].
    destruct (Hwf n0 eq_refl) as [N0 HN0].
    rewrite ?run_bind, (load_run _ _ _ HN0). run.
    destruct (Filter _ _ _ _) as [err|[[|l0 l] [|i0 ix]]]; try done;
      try (by intros [= <-]).
    intros H. repeat (apply bind_inr in H as (? & ? & _ & H)).
    destruct (negb _); [done|]. repeat (apply bind_inr in H as (? & ? & _ & H)). done.
  - intros (-> & -> & ->)%(accepted _ _ {| matched := 1; modified := 1 |}).
    destruct (replace_staged_inv _ _ _ _ _ _ Hwf Hrun)
      as (n0 & N0 & l0 & l & i0 & ix & idx & Hn0 & HN0 & _ & Hf & _ & _ & -> & ->).
    destruct (Filter_spec _ _ _ _ _ _ Hf) as [Hall _].
    apply Forall2_cons_1 in Hall as [Hat _].
    assert (Hbefore : documents_in (mem w) (data (self w)) ns = Documents N0).
    { unfold documents_in. rewrite Hn0. cbn [mbind option_bind]. by rewrite HN0. }
    exists (l0 :: l). split.
    { unfold find. run. rewrite Hn0, ?run_bind, (load_run _ _ _ HN0). run.
      by rewrite Hf. }
    rewrite staged_documents_in, Hbefore. split_and!; try done.
    + by exists i0.
    + intros ns' Hne. by apply staged_contents_other.
Qed.

End ReplaceOutcome.

(** [{_id:7,x:1}] replaced by [{_id:8,y:3}]. *)
Lemma replace_puts_the_replacement_witness :
  let w := (transform [("_id", Int 8); ("y", Int 3)]
              (world_of None [[("_id", Int 7); ("x", Int 1)]])).2 in
  let w' := (replace (storage := testStore_Store) (matcher := equalityMatcher)
               "db.c" [("_id", Int 7)] 1%nat w).2 in
  contents (mem w') (data (self w')) "db.c" = Some [[("_id", Int 8); ("y", Int 3)]]
  /\ exists list,
       find (matcher := equalityMatcher) "db.c" [("_id", Int 7)] 1 w = (inr list, w)
       /\ match list with
          | [] => {| matched := 1; modified := 1 |} = {| matched := 0; modified := 0 |}
                  /\ w' = w
          | list_0 :: _ =>
              {| matched := 1; modified := 1 |} = {| matched := 1; modified := 1 |}
              /\ (exists i,
                    documents_in (mem w) (data (self w)) "db.c" !! i = Some list_0
                    /\ documents_in (mem w') (data (self w')) "db.c"
                       = <[i := 1%nat]> (documents_in (mem w) (data (self w)) "db.c"))
              /\ documents (mem w') = documents (mem w)
              /\ forall ns', ns' ≠ "db.c" ->
                   contents (mem w') (data (self w')) ns'
                   = contents (mem w) (data (self w)) ns'
          end.
Proof.
  intros w w'. split; [vm_compute; reflexivity|].
  refine (replace_puts_the_replacement (storage := testStore_Store)
            (matcher := equalityMatcher) w w' "db.c" [("_id", Int 7)] 1%nat
            {| matched := 1; modified := 1 |} _ _).
  - apply transform_ok, world_of_ok.
  - vm_compute. reflexivity.
Defined.

(** ** The further properties at work *)

(** An update with an operator that the updater does not know: the copy of
    the selected document stays allocated, the catalog is as it was. *)
Lemma errors_leave_the_catalog_witness :
  let w := world_of None [[("_id", Int 7); ("x", Int 1)]] in
  let r := update (matcher := equalityMatcher) (updater := setUpdater) "db.c"
             [("_id", Int 7)] [("$inc", D [("x", Int 1)])] 0 w in
  r.1 = inl "unknown top level operator $inc"
  /\ untouched (matcher := equalityMatcher) w r.2.
Proof.
  intros w r. split; [vm_compute; reflexivity|].
  refine (proj1 (proj2 (errors_leave_the_catalog (storage := testStore_Store)
                          (matcher := equalityMatcher) (updater := setUpdater)
                          w r.2 "unknown top level operator $inc"
                          (world_of_ok _ _)))
            "db.c" [("_id", Int 7)] [("$inc", D [("x", Int 1)])] 0 _).
  vm_compute. reflexivity.
Defined.

(** The engine after an insert that the store has accepted. *)
Lemma published_only_when_stored_witness :
  let w := (transform [("_id", Int 8); ("x", Int 2)]
              (world_of None [[("_id", Int 7); ("x", Int 1)]])).2 in
  let w' := (insert (storage := testStore_Store) "db.c" [1%nat] w).2 in
  data (self w') = data (self w)
  \/ (datas (mem w) !! data (self w') = None
      /\ Store_Store (store (self w)) (mem w') (data (self w'))
         = (store (self w'), None)).
Proof.
  intros w w'.
  refine (proj1 (published_only_when_stored (storage := testStore_Store)
                   (matcher := equalityMatcher) (updater := setUpdater) w w' _)
            "db.c" [1%nat] (inr tt) _).
  - apply transform_ok, world_of_ok.
  - vm_compute. reflexivity.
Defined.

(** The only document of [db.c] deleted. *)
Lemma delete_removes_what_find_returns_witness :
  let w := world_of None [[("_id", Int 7); ("x", Int 1)]] in
  let w' := (delete (matcher := equalityMatcher) "db.c" [("_id", Int 7)] 0 w).2 in
  exists list,
    find (matcher := equalityMatcher) "db.c" [("_id", Int 7)] 0 w = (inr list, w)
    /\ 1%nat = length list
    /\ documents_in (mem w') (data (self w')) "db.c"
       = Difference (documents_in (mem w) (data (self w)) "db.c") list
    /\ (forall doc, doc ∈ documents_in (mem w') (data (self w')) "db.c"
          <-> doc ∈ documents_in (mem w) (data (self w)) "db.c" /\ doc ∉ list)
    /\ documents (mem w') = documents (mem w)
    /\ forall ns', ns' ≠ "db.c" ->
         contents (mem w') (data (self w')) ns' = contents (mem w) (data (self w)) ns'.
Proof.
  intros w w'.
  refine (delete_removes_what_find_returns (storage := testStore_Store)
            (matcher := equalityMatcher)
            w w' "db.c" [("_id", Int 7)] 0 1%nat (world_of_ok _ _) _).
  vm_compute. reflexivity.
Defined.

(** The only document of [db.c] updated: its copy takes its place. *)
Lemma update_works_on_copies_witness :
  let w := world_of None [[("_id", Int 7); ("x", Int 1)]] in
  let w' := (update (matcher := equalityMatcher) (updater := setUpdater) "db.c"
               [("_id", Int 7)] [("$set", D [("x", Int 2)])] 0 w).2 in
  contents (mem w') (data (self w')) "db.c" = Some [[("_id", Int 7); ("x", Int 2)]]
  /\ deref (documents (mem w')) 0%nat = [("_id", Int 7); ("x", Int 1)]
  /\ exists list,
       find (matcher := equalityMatcher) "db.c" [("_id", Int 7)] 0 w = (inr list, w)
       /\ 1%nat = length list /\ 1%nat = length list
       /\ documents (mem w) ⊆ documents (mem w')
       /\ length (documents_in (mem w') (data (self w')) "db.c")
          = length (documents_in (mem w) (data (self w)) "db.c")
       /\ (forall i doc,
             documents_in (mem w) (data (self w)) "db.c" !! i = Some doc ->
             doc ∉ list ->
             documents_in (mem w') (data (self w')) "db.c" !! i = Some doc)
       /\ (forall doc, doc ∈ list ->
             doc ∉ documents_in (mem w') (data (self w')) "db.c")
       /\ forall ns', ns' ≠ "db.c" ->
            contents (mem w') (data (self w')) ns'
            = contents (mem w) (data (self w)) ns'.
Proof.
  intros w w'. split; [vm_compute; reflexivity|]. split; [vm_compute; reflexivity|].
  refine (update_works_on_copies (storage := testStore_Store)
            (matcher := equalityMatcher) (updater := setUpdater)
            w w' "db.c" [("_id", Int 7)] [("$set", D [("x", Int 2)])] 0
            {| matched := 1; modified := 1 |} (world_of_ok _ _) _).
  vm_compute. reflexivity.
Defined.

(** An empty batch for a namespace that the catalog does not have. *)
Lemma insert_adds_to_the_count_witness :
  let w := world_of None [[("_id", Int 7); ("x", Int 1)]] in
  let w' := (insert (storage := testStore_Store) "db.d" [] w).2 in
  is_Some (Namespaces_of (mem w') (data (self w')) !! "db.d")
  /\ Namespaces_of (mem w) (data (self w)) !! "db.d" = None.
Proof.
  intros w w'. split; [|vm_compute; reflexivity].
  refine (proj1 (insert_adds_to_the_count (storage := testStore_Store)
                   w w' "db.d" [] (world_of_ok _ _) _)).
  vm_compute. reflexivity.
Defined.

(** A catalog with the collection [c] of [db] and the collection [c] of
    [db2]: both are listed for [db], the second as [.c]. *)
Lemma listCollections_lists_by_prefix_witness :
  let w : world testStore :=
    {| mem := {| datas := {[ O := {[ "db.c" := 0%nat; "db2.c" := 1%nat ]} ]};
                 namespaces := {[ 0%nat := Prepare ∅ "db.c" [] [];
                                  1%nat := Prepare ∅ "db2.c" [] [] ]};
                 documents := ∅ |};
       self := {| store := {| refuses := None; handed := [] |}; data := O |} |} in
  exists list w',
    listCollections (matcher := equalityMatcher) "db" [] w = (inr list, w')
    /\ map (deref (documents (mem w'))) list
       ≡ₚ [collection_specification "c"; collection_specification ".c"].
Proof.
  intros w.
  destruct (listCollections_lists_by_prefix (matcher := equalityMatcher) w "db" [])
    as (list & w' & Hrun & Hperm & _).
  - vm_compute. by eexists.
  - vm_compute. reflexivity.
  - intros doc. reflexivity.
  - exists list, w'. split; [exact Hrun|]. rewrite Hperm.
    vm_compute. reflexivity.
Defined.

(** A catalog with a namespace named [db]. *)
Lemma listCollections_of_a_namespace_name_witness :
  let w : world testStore :=
    {| mem := {| datas := {[ O := {[ "db" := 0%nat ]} ]};
                 namespaces := {[ 0%nat := Prepare ∅ "db" [] [] ]};
                 documents := ∅ |};
       self := {| store := {| refuses := None; handed := [] |}; data := O |} |} in
  exists w', listCollections (matcher := equalityMatcher) "db" [] w
             = (inl "panic: slice bounds out of range", w').
Proof.
  intros w.
  refine (listCollections_of_a_namespace_name (matcher := equalityMatcher)
            w "db" [] 0%nat _).
  vm_compute. reflexivity.
Defined.
(** The catalog with [db.c] and [db2.c] once more: [db.c] dropped, and the
    database [db] dropped. *)
Lemma dropCollection_drops_one_witness :
  let w : world testStore :=
    {| mem := {| datas := {[ O := {[ "db.c" := 0%nat; "db2.c" := 1%nat ]} ]};
                 namespaces := {[ 0%nat := Prepare ∅ "db.c" [] [];
                                  1%nat := Prepare ∅ "db2.c" [] [] ]};
                 documents := ∅ |};
       self := {| store := {| refuses := None; handed := [] |}; data := O |} |} in
  exists w',
    dropCollection "db.c" w = (inr tt, w')
    /\ Namespaces_of (mem w') (data (self w')) = {[ "db2.c" := 1%nat ]}.
Proof.
  intros w.
  destruct (dropCollection_drops_one w "db.c") as (w' & Hrun & _ & _ & _ & Hafter & _).
  - vm_compute. by eexists.
  - exists w'. split; [exact Hrun|]. rewrite Hafter. vm_compute. reflexivity.
Defined.

Lemma dropDatabase_drops_its_namespaces_witness :
  let w : world testStore :=
    {| mem := {| datas := {[ O := {[ "db.c" := 0%nat; "db2.c" := 1%nat ]} ]};
                 namespaces := {[ 0%nat := Prepare ∅ "db.c" [] [];
                                  1%nat := Prepare ∅ "db2.c" [] [] ]};
                 documents := ∅ |};
       self := {| store := {| refuses := None; handed := [] |}; data := O |} |} in
  exists w',
    dropDatabase "db" w = (inr tt, w')
    /\ Namespaces_of (mem w') (data (self w')) !! "db.c" = None
    /\ Namespaces_of (mem w') (data (self w')) !! "db2.c" = Some 1%nat.
Proof.
  intros w.
  destruct (dropDatabase_drops_its_namespaces w "db")
    as (w' & Hrun & _ & _ & _ & Hdropped & Hkept & _).
  - vm_compute. by eexists.
  - exists w'. split; [exact Hrun|]. split.
    + apply Hdropped.
      * intros a b. clear. destruct a as [|c1 [|c2 [|c3 a]]]; cbv; congruence.
      * right. by exists "c".
    + rewrite Hkept; [vm_compute; reflexivity | done |].
      intros c. cbv. congruence.
Defined.

(** A catalog with the collection [c] of [db], holding a document, and the
    collection [c] of [db2], holding none: [db] is listed as not empty, and
    [db2] as empty. *)
Lemma listDatabases_lists_each_database_witness :
  let h : docs := {[ 0%nat := [("_id", Int 7)] ]} in
  let w : world testStore :=
    {| mem := {| datas := {[ O := {[ "db.c" := 0%nat; "db2.c" := 1%nat ]} ]};
                 namespaces := {[ 0%nat := Prepare h "db.c" [0%nat] [];
                                  1%nat := Prepare h "db2.c" [] [] ]};
                 documents := h |};
       self := {| store := {| refuses := None; handed := [] |}; data := O |} |} in
  exists list w',
    listDatabases (matcher := equalityMatcher) [] w = (inr list, w')
    /\ database_specification "db" false ∈ map (deref (documents (mem w'))) list
    /\ database_specification "db2" true ∈ map (deref (documents (mem w'))) list.
Proof.
  intros h w.
  assert (Hok : catalog_ok (mem w) (data (self w))).
  { split; [vm_compute; by eexists|]. intros ns n. unfold Namespaces_of, w.
    cbn [mem self data datas namespaces documents].
    rewrite lookup_singleton_eq. cbn [default]. unfold id.
    intros [[<- <-]|[_ [<- <-]%lookup_singleton_Some]]%lookup_insert_Some.
    - eexists. split; [vm_compute; reflexivity|]. split; cbn; try done.
      + apply NoDup_singleton.
      + intros a b ->%list_elem_of_singleton ->%list_elem_of_singleton. done.
      + intros a ->%list_elem_of_singleton. vm_compute. by eexists.
    - eexists. split; [vm_compute; reflexivity|]. apply ns_ok_Prepare. }
  destruct (listDatabases_lists_each_database (matcher := equalityMatcher) w [] Hok)
    as (list & w' & Hrun & _ & _ & Hin & _).
  - intros doc. reflexivity.
  - exists list, w'. split; [exact Hrun|]. split; apply Hin.
    + split.
      * exists "db.c", 0%nat, (Prepare h "db.c" [0%nat] []).
        split_and!; vm_compute; reflexivity.
      * split; [done|]. intros Hempty.
        by specialize (Hempty "db.c" 0%nat (Prepare h "db.c" [0%nat] [])
                         eq_refl eq_refl eq_refl).
    + split.
      * exists "db2.c", 1%nat, (Prepare h "db2.c" [] []).
        split_and!; vm_compute; reflexivity.
      * split; [|done]. intros _ ns n N.
        unfold Namespaces_of, w. cbn [mem self data datas namespaces documents].
        rewrite lookup_singleton_eq. cbn [default]. unfold id.
        intros [[<- <-]|[_ [<- <-]%lookup_singleton_Some]]%lookup_insert_Some.
        -- intros [= <-]. vm_compute. congruence.
        -- by intros [= <-].
Defined.
